(** * DebounceLink: a shallow embedding of [src/DebounceLink.ts]

    The link keeps one mutable record per debounce key
    ([DebounceMetadata]), arms one host timer per key and, when the
    timer fires, forwards the last queued operation once and fans the
    result out to every queued observer.

    The embedding threads one [World] through every function: the
    link's own fields ([debounceInfo], [defaultDelay]) together with the
    parts of the host the link talks to (the timer table behind
    [setTimeout]/[clearTimeout], the log of [forward(operation)] calls
    with the handlers subscribed to them, the log of
    [subscription.unsubscribe()] calls and the log of observer callbacks
    invoked).  Every handler runs to completion before the next one
    starts, as in a JavaScript event loop: a request, a timer firing, an
    event of a downstream observable and an unsubscription are separate
    events, and a downstream observable emits only after [subscribe] has
    returned.  Timer handles are truthy, as those of browsers and of Node
    are, and a timer is due exactly its delay after it was set.  Group
    ids are natural numbers; the source notes that a JavaScript number
    would take some 300,000 years to run out.

    [debounceInfo] is a plain JavaScript object used as a map.  Its own
    properties are the map [debounceInfo] of the [World]; a lookup that
    finds no own property falls through to [Object.prototype]
    ([getDebounceInfo]). *)

From Stdlib Require Import Sorting.Sorted.
From stdpp Require Import gmap strings list fin_maps.

(** ** Data *)

(** [FetchResult] and [Error] values are opaque to the link. *)
Definition FetchResult := nat.
Definition ErrorValue := nat.

(** What a downstream observable can emit ([ObservableEvent] of
    [TestUtils.ts]). *)
Inductive ObservableEvent :=
| EvNext (value : FetchResult)
| EvError (value : ErrorValue)
| EvComplete.

(** An [Observer<FetchResult>]: an object compared by identity ([oid]),
    each of whose three callbacks may be missing. *)
Record Observer := {
  oid : nat;
  has_next : bool;
  has_error : bool;
  has_complete : bool;
}.

(** [NextLink]: the [forward] function handed to [request]. *)
Definition NextLink := nat.

(** An [Operation]; [operation.getContext()] yields the two fields the
    link reads.  [None] stands for [undefined]. *)
Record Operation := {
  operationName : nat;
  debounceKey : option string;
  debounceTimeout : option nat;
}.

#[global] Instance ObservableEvent_eq_dec : EqDecision ObservableEvent.
Proof. solve_decision. Defined.
#[global] Instance Observer_eq_dec : EqDecision Observer.
Proof. solve_decision. Defined.
#[global] Instance Operation_eq_dec : EqDecision Operation.
Proof. solve_decision. Defined.

(** One entry of [RunningSubscriptions]. *)
Record RunningGroup := {
  observers : list Observer;
  subscription : nat;
}.

(** [DebounceMetadata], field for field. *)
Record DebounceMetadata := {
  timeout : option nat;
  runningSubscriptions : gmap nat RunningGroup;
  queuedObservers : list Observer;
  currentGroupId : nat;
  lastRequest : option (Operation * NextLink);
}.

(** The three closures [flush] subscribes with share what they capture:
    [debounceKey], [groupId] and the array [currentObservers]. *)
Record Handlers := {
  h_key : string;
  h_group : nat;
  h_observers : list Observer;
}.

(** One invocation of [forward(operation)].  [c_handlers] is [Some] when
    the link itself subscribed to the result (in [flush]) and [None] when
    the observable was handed back to the caller (no debounce key). *)
Record Call := {
  c_operation : Operation;
  c_forward : NextLink;
  c_handlers : option Handlers;
}.

(** A pending host timer: [setTimeout(() => this.flush(t_key), delay)],
    due at [t_deadline]. *)
Record Timer := {
  t_key : string;
  t_deadline : nat;
}.

Record World := {
  (* the link *)
  debounceInfo : gmap string DebounceMetadata;
  defaultDelay : nat;
  (* the host's timers *)
  now : nat;
  timers : gmap nat Timer;
  nextTimer : nat;
  (* the downstream link *)
  calls : list Call;
  closed : gset nat;
  unsubscribed : list nat;
  (* callbacks invoked on observers, oldest first *)
  delivered : list (Observer * ObservableEvent);
}.

(** Field updates. *)
Definition set_debounceInfo (f : gmap string DebounceMetadata → gmap string DebounceMetadata)
    (w : World) : World :=
  {| debounceInfo := f (debounceInfo w); defaultDelay := defaultDelay w;
     now := now w; timers := timers w; nextTimer := nextTimer w;
     calls := calls w; closed := closed w; unsubscribed := unsubscribed w;
     delivered := delivered w |}.

Definition set_now (f : nat → nat) (w : World) : World :=
  {| debounceInfo := debounceInfo w; defaultDelay := defaultDelay w;
     now := f (now w); timers := timers w; nextTimer := nextTimer w;
     calls := calls w; closed := closed w; unsubscribed := unsubscribed w;
     delivered := delivered w |}.

Definition set_timers (f : gmap nat Timer → gmap nat Timer) (w : World) : World :=
  {| debounceInfo := debounceInfo w; defaultDelay := defaultDelay w;
     now := now w; timers := f (timers w); nextTimer := nextTimer w;
     calls := calls w; closed := closed w; unsubscribed := unsubscribed w;
     delivered := delivered w |}.

Definition set_nextTimer (f : nat → nat) (w : World) : World :=
  {| debounceInfo := debounceInfo w; defaultDelay := defaultDelay w;
     now := now w; timers := timers w; nextTimer := f (nextTimer w);
     calls := calls w; closed := closed w; unsubscribed := unsubscribed w;
     delivered := delivered w |}.

Definition set_calls (f : list Call → list Call) (w : World) : World :=
  {| debounceInfo := debounceInfo w; defaultDelay := defaultDelay w;
     now := now w; timers := timers w; nextTimer := nextTimer w;
     calls := f (calls w); closed := closed w; unsubscribed := unsubscribed w;
     delivered := delivered w |}.

Definition set_closed (f : gset nat → gset nat) (w : World) : World :=
  {| debounceInfo := debounceInfo w; defaultDelay := defaultDelay w;
     now := now w; timers := timers w; nextTimer := nextTimer w;
     calls := calls w; closed := f (closed w); unsubscribed := unsubscribed w;
     delivered := delivered w |}.

Definition set_unsubscribed (f : list nat → list nat) (w : World) : World :=
  {| debounceInfo := debounceInfo w; defaultDelay := defaultDelay w;
     now := now w; timers := timers w; nextTimer := nextTimer w;
     calls := calls w; closed := closed w; unsubscribed := f (unsubscribed w);
     delivered := delivered w |}.

Definition set_delivered
    (f : list (Observer * ObservableEvent) → list (Observer * ObservableEvent))
    (w : World) : World :=
  {| debounceInfo := debounceInfo w; defaultDelay := defaultDelay w;
     now := now w; timers := timers w; nextTimer := nextTimer w;
     calls := calls w; closed := closed w; unsubscribed := unsubscribed w;
     delivered := f (delivered w) |}.

Definition with_running (r : gmap nat RunningGroup) (dbi : DebounceMetadata) : DebounceMetadata :=
  {| timeout := timeout dbi; runningSubscriptions := r;
     queuedObservers := queuedObservers dbi; currentGroupId := currentGroupId dbi;
     lastRequest := lastRequest dbi |}.

Definition with_queued (q : list Observer) (dbi : DebounceMetadata) : DebounceMetadata :=
  {| timeout := timeout dbi; runningSubscriptions := runningSubscriptions dbi;
     queuedObservers := q; currentGroupId := currentGroupId dbi;
     lastRequest := lastRequest dbi |}.

(** ** The host *)

(** [setTimeout(() => this.flush(key), delay)]: a fresh handle, due
    [delay] after the present instant. *)
Definition setTimeout (key : string) (delay : nat) (w : World) : nat * World :=
  let t := nextTimer w in
  (t, set_nextTimer S
        (set_timers (insert t {| t_key := key; t_deadline := now w + delay |}) w)).

(** The delays a host takes as they are given: whole milliseconds from 1
    to [2^31 - 1].  (Node replaces any other delay by 1 ms.)  Statements
    about when a timer is due are made for delays in this range. *)
Definition TIMEOUT_MAX : Z := 2147483647.

Definition hostDelay (delay : nat) : Prop :=
  (1 ≤ Z.of_nat delay ≤ TIMEOUT_MAX)%Z.

(** [clearTimeout(h)]: nothing happens for [undefined] or for a handle
    that is no longer pending. *)
Definition clearTimeout (h : option nat) (w : World) : World :=
  match h with
  | Some t => set_timers (delete t) w
  | None => w
  end.

(** [subscription.unsubscribe()] on a downstream subscription. *)
Definition sub_unsubscribe (sub : nat) (w : World) : World :=
  set_unsubscribed (λ l, l ++ [sub]) (set_closed (λ s, {[sub]} ∪ s) w).

(** [new DebounceLink(defaultDelay)] in a fresh host. *)
Definition init (delay : nat) : World :=
  {| debounceInfo := ∅; defaultDelay := delay;
     now := 0; timers := ∅; nextTimer := 1;
     calls := []; closed := ∅; unsubscribed := [];
     delivered := [] |}.

(** ** The link *)

Inductive JsError := TypeError.

Inductive Completion (A : Type) :=
| Normal (a : A)
| Throw (e : JsError).
Arguments Normal {A} a.
Arguments Throw {A} e.

(** The record [setupDebounceInfo] stores for a new key. *)
Definition freshDebounceInfo : DebounceMetadata :=
  {| runningSubscriptions := ∅;
     queuedObservers := [];
     currentGroupId := 0;
     timeout := None;
     lastRequest := None |}.

Definition setupDebounceInfo (key : string) (w : World) : DebounceMetadata * World :=
  (freshDebounceInfo, set_debounceInfo (insert key freshDebounceInfo) w).

(** The names every plain object inherits from [Object.prototype]
    (ECMAScript, Annex B included).  Each of them is a function or an
    object: truthy, and without any of the fields of a
    [DebounceMetadata]. *)
Definition objectPrototypeNames : list string :=
  ["constructor"; "hasOwnProperty"; "isPrototypeOf"; "propertyIsEnumerable";
   "toLocaleString"; "toString"; "valueOf"; "__proto__";
   "__defineGetter__"; "__defineSetter__"; "__lookupGetter__"; "__lookupSetter__"].

Definition inherited (key : string) : Prop := key ∈ objectPrototypeNames.

#[global] Instance inherited_dec key : Decision (inherited key).
Proof. unfold inherited. apply _. Defined.

(** What [this.debounceInfo[key]] evaluates to: the record stored under
    [key], or else what the object inherits under that name, or else
    [undefined]. *)
Inductive Property :=
| OwnRecord (dbi : DebounceMetadata)
| InheritedMember
| Undefined.

Definition getDebounceInfo (key : string) (w : World) : Property :=
  match debounceInfo w !! key with
  | Some dbi => OwnRecord dbi
  | None => if decide (inherited key) then InheritedMember else Undefined
  end.

(** The lookup of [key] falls through to an inherited member. *)
Definition findsInherited (key : string) (w : World) : Prop :=
  inherited key ∧ debounceInfo w !! key = None.

#[global] Instance findsInherited_dec key w : Decision (findsInherited key w).
Proof. unfold findsInherited. apply _. Defined.

(** [debounceTimeout || this.defaultDelay] *)
Definition effectiveDelay (override : option nat) (w : World) : nat :=
  match override with
  | Some (S n) => S n
  | _ => defaultDelay w
  end.

(** An inherited member is truthy, so that [||] does not reach
    [setupDebounceInfo]; its [queuedObservers] is [undefined], and
    [dbi.queuedObservers.push] throws before anything was changed. *)
Definition enqueueRequest (key : string) (override : option nat)
    (operation : Operation) (forward : NextLink) (observer : Observer)
    (w : World) : Completion (nat * World) :=
  (* const dbi = this.debounceInfo[debounceKey] || this.setupDebounceInfo(debounceKey) *)
  let found :=
    match getDebounceInfo key w with
    | OwnRecord dbi => Normal (dbi, w)
    | Undefined => Normal (setupDebounceInfo key w)
    | InheritedMember => Throw TypeError
    end in
  match found with
  | Throw e => Throw e
  | Normal (dbi, w) =>
      (* if (dbi.timeout) clearTimeout(dbi.timeout) *)
      let w := clearTimeout (timeout dbi) w in
      (* dbi.timeout = setTimeout(..., debounceTimeout || this.defaultDelay) *)
      let '(t, w) := setTimeout key (effectiveDelay override w) w in
      let dbi' :=
        {| timeout := Some t;
           runningSubscriptions := runningSubscriptions dbi;
           (* dbi.queuedObservers.push(observer) *)
           queuedObservers := queuedObservers dbi ++ [observer];
           currentGroupId := currentGroupId dbi;
           (* dbi.lastRequest = { operation, forward } *)
           lastRequest := Some (operation, forward) |} in
      Normal (currentGroupId dbi, set_debounceInfo (insert key dbi') w)
  end.

(** [cleanup], [flush] and [unsubscribe] are reached with the key of a
    record that [enqueueRequest] made.  They give the state the call
    leaves behind.  Where the key has no record, [cleanup] and
    [unsubscribe] return at [if (!dbi)]; were the key an inherited name,
    they would throw at their first access to a field of [dbi], having
    changed nothing, which is the same state.  [flush] throws at
    [dbi.queuedObservers.length] in both cases. *)
Definition cleanup (key : string) (groupId : nat) (w : World) : World :=
  match debounceInfo w !! key with
  | None => w
  | Some dbi =>
      (* delete dbi.runningSubscriptions[groupId] *)
      let running := delete groupId (runningSubscriptions dbi) in
      let w :=
        if decide (groupId = currentGroupId dbi)
        then clearTimeout (timeout dbi) w else w in
      let noRunningSubscriptions := size running =? 0 in
      let noQueuedObservers := length (queuedObservers dbi) =? 0 in
      if noRunningSubscriptions && noQueuedObservers
      then set_debounceInfo (delete key) w
      else set_debounceInfo (insert key (with_running running dbi)) w
  end.

Definition flush (key : string) (w : World) : Completion World :=
  match debounceInfo w !! key with
  | None => Throw TypeError
  | Some dbi =>
      if length (queuedObservers dbi) =? 0 then Normal w else
      match lastRequest dbi with
      | None => Normal w
      | Some (operation, forward) =>
          let currentObservers := queuedObservers dbi in
          let groupId := currentGroupId dbi in
          (* const sub = forward(operation).subscribe({ next, error, complete }) *)
          let sub := length (calls w) in
          let w := set_calls (λ l, l ++
                     [{| c_operation := operation; c_forward := forward;
                         c_handlers := Some {| h_key := key; h_group := groupId;
                                               h_observers := currentObservers |} |}]) w in
          Normal (set_debounceInfo (insert key
            {| timeout := timeout dbi;
               runningSubscriptions :=
                 <[currentGroupId dbi :=
                     {| subscription := sub; observers := currentObservers |}]>
                   (runningSubscriptions dbi);
               queuedObservers := [];
               currentGroupId := S (currentGroupId dbi);
               lastRequest := lastRequest dbi |}) w)
      end
  end.

Definition unsubscribe (key : string) (debounceGroupId : nat) (observer : Observer)
    (w : World) : World :=
  match debounceInfo w !! key with
  | None => w
  | Some dbi =>
      if decide (debounceGroupId = currentGroupId dbi) then
        let queued := filter (λ obs, obs ≠ observer) (queuedObservers dbi) in
        let w := set_debounceInfo (insert key (with_queued queued dbi)) w in
        if length queued =? 0 then cleanup key debounceGroupId w else w
      else
        match runningSubscriptions dbi !! debounceGroupId with
        | None => w
        | Some observerGroup =>
            let remaining := filter (λ obs, obs ≠ observer) (observers observerGroup) in
            let observerGroup' :=
              {| observers := remaining; subscription := subscription observerGroup |} in
            let w := set_debounceInfo (insert key
                       (with_running (<[debounceGroupId := observerGroup']>
                                        (runningSubscriptions dbi)) dbi)) w in
            if length remaining =? 0
            then cleanup key debounceGroupId (sub_unsubscribe (subscription observerGroup) w)
            else w
        end
  end.

(** What [request] returns: the downstream observable itself, or a new
    observable whose subscriber function enqueues. *)
Inductive Observable :=
| Downstream (call : nat)
| Debounced (key : string) (override : option nat)
            (operation : Operation) (forward : NextLink).

(** [!debounceKey] *)
Definition noKey (k : option string) : bool :=
  match k with
  | None => true
  | Some s => bool_decide (s = EmptyString)
  end.

Definition request (operation : Operation) (forward : NextLink) (w : World)
    : Observable * World :=
  match debounceKey operation with
  | Some key =>
      if noKey (Some key)
      then (* return forward(operation) *)
        (Downstream (length (calls w)),
         set_calls (λ l, l ++ [{| c_operation := operation; c_forward := forward;
                                 c_handlers := None |}]) w)
      else (Debounced key (debounceTimeout operation) operation forward, w)
  | None =>
      (Downstream (length (calls w)),
       set_calls (λ l, l ++ [{| c_operation := operation; c_forward := forward;
                               c_handlers := None |}]) w)
  end.

(** The teardown closure [() => this.unsubscribe(debounceKey,
    debounceGroupId, observer)]. *)
Record Teardown := {
  td_key : string;
  td_group : nat;
  td_observer : Observer;
}.

Definition cancel (h : Teardown) (w : World) : World :=
  unsubscribe (td_key h) (td_group h) (td_observer h) w.

(** Subscribing [observer] to a [Debounced] observable runs its
    subscriber function. *)
Definition subscribe (key : string) (override : option nat)
    (operation : Operation) (forward : NextLink) (observer : Observer)
    (w : World) : Completion (Teardown * World) :=
  match enqueueRequest key override operation forward observer w with
  | Normal (g, w) =>
      Normal ({| td_key := key; td_group := g; td_observer := observer |}, w)
  | Throw e => Throw e
  end.

(** [execute(link, operation).subscribe(observer)]: the state the link
    and the host are left in.  When the subscriber function throws, the
    link has changed nothing and has handed out no teardown. *)
Definition execute (operation : Operation) (forward : NextLink) (observer : Observer)
    (w : World) : World :=
  match request operation forward w with
  | (Downstream _, w) => w
  | (Debounced key override op fwd, w) =>
      match subscribe key override op fwd observer w with
      | Normal (_, w') => w'
      | Throw _ => w
      end
  end.

(** ** Events from the host *)

(** [observer.next && observer.next(v)] and its two siblings. *)
Definition handles (ev : ObservableEvent) (o : Observer) : bool :=
  match ev with
  | EvNext _ => has_next o
  | EvError _ => has_error o
  | EvComplete => has_complete o
  end.

(** [currentObservers.forEach(observer => ...)] for one event. *)
Definition fanOut (currentObservers : list Observer) (ev : ObservableEvent)
    : list (Observer * ObservableEvent) :=
  (λ o, (o, ev)) <$> filter (λ o, handles ev o = true) currentObservers.

(** The downstream observable of call [sub] emits [ev].  A subscription
    that has terminated or was unsubscribed emits nothing more. *)
Definition emit (sub : nat) (ev : ObservableEvent) (w : World) : World :=
  match calls w !! sub with
  | Some {| c_handlers := Some h |} =>
      if decide (sub ∈ closed w) then w else
      let w := set_delivered (λ l, l ++ fanOut (h_observers h) ev) w in
      match ev with
      | EvNext _ => w
      | _ => cleanup (h_key h) (h_group h) (set_closed (λ s, {[sub]} ∪ s) w)
      end
  | _ => w
  end.

(** Timer [t] fires.  An exception thrown by the callback is not caught
    by anything in the link. *)
Definition fire (t : nat) (w : World) : World :=
  match timers w !! t with
  | None => w
  | Some tm =>
      let w := set_timers (delete t) w in
      match flush (t_key tm) w with
      | Normal w' => w'
      | Throw _ => w
      end
  end.

Definition fire_if_due (w : World) (t : nat) : World :=
  match timers w !! t with
  | Some tm => if decide (t_deadline tm ≤ now w) then fire t w else w
  | None => w
  end.

(** Run every due timer, oldest handle first. *)
Definition run_due (w : World) : World :=
  foldl fire_if_due w (seq 0 (nextTimer w)).

Definition tick (w : World) : World := set_now S w.

(** Let [d] milliseconds pass, running timers as they fall due (the
    tests' [jest.runTimersToTime(d)]). *)
Fixpoint advance (d : nat) (w : World) : World :=
  match d with
  | 0 => run_due w
  | S d' => advance d' (tick (run_due w))
  end.

Inductive Action :=
| Execute (operation : Operation) (forward : NextLink) (observer : Observer)
| Fire (t : nat)
| Tick
| Emit (sub : nat) (ev : ObservableEvent)
| Cancel (h : Teardown).

Definition step (a : Action) (w : World) : World :=
  match a with
  | Execute operation forward observer => execute operation forward observer w
  | Fire t => fire t w
  | Tick => tick w
  | Emit sub ev => emit sub ev w
  | Cancel h => cancel h w
  end.

(** States the link can be in after any sequence of events. *)
Inductive reachable (delay : nat) : World → Prop :=
| reachable_init : reachable delay (init delay)
| reachable_step a w : reachable delay w → reachable delay (step a w).

(** ** Observations on a world *)

(** The calls [flush] made for [key], oldest first. *)
Definition isCallOf (key : string) (c : Call) : Prop :=
  h_key <$> c_handlers c = Some key.

#[global] Instance isCallOf_dec key c : Decision (isCallOf key c).
Proof. unfold isCallOf. apply _. Defined.

Definition callsOf (key : string) (w : World) : list Call :=
  filter (isCallOf key) (calls w).

(** The pending timers that will flush [key]. *)
Definition timersOf (key : string) (w : World) : gmap nat Timer :=
  filter (λ p, t_key p.2 = key) (timers w).

(** The group ids under which [key]'s batches were flushed, oldest first. *)
Definition flushedGroups (key : string) (w : World) : list nat :=
  omap (λ c, h_group <$> c_handlers c) (callsOf key w).

(** The events an observer was called with, oldest first. *)
Definition received (o : Observer) (log : list (Observer * ObservableEvent))
    : list ObservableEvent :=
  (filter (λ p, p.1 = o) log).*2.

(** A downstream observable emits any number of [next] and stops at its
    first [error] or [complete]. *)
Fixpoint effective (evs : list ObservableEvent) : list ObservableEvent :=
  match evs with
  | [] => []
  | EvNext v :: rest => EvNext v :: effective rest
  | ev :: _ => [ev]
  end.

Definition emits (sub : nat) (evs : list ObservableEvent) (w : World) : World :=
  foldl (λ w ev, emit sub ev w) w evs.

(** One submission: [execute(link, operation).subscribe(observer)]. *)
Record Submission := {
  sub_operation : Operation;
  sub_forward : NextLink;
  sub_observer : Observer;
}.

Definition submit (s : Submission) (w : World) : World :=
  execute (sub_operation s) (sub_forward s) (sub_observer s) w.

(** A burst: each submission is followed by a pause. *)
Definition burst (l : list (Submission * nat)) (w : World) : World :=
  foldl (λ w p, advance p.2 (submit p.1 w)) w l.

(** The delay a submission arms its timer with. *)
Definition delayOf (s : Submission) (w : World) : nat :=
  effectiveDelay (debounceTimeout (sub_operation s)) w.

(** ** Invariants of reachable worlds *)

(** A record that exists has something queued or something running. *)
Definition busy (dbi : DebounceMetadata) : Prop :=
  queuedObservers dbi ≠ [] ∨ runningSubscriptions dbi ≠ ∅.

Definition noIdleRecord (w : World) : Prop :=
  ∀ k dbi, debounceInfo w !! k = Some dbi → busy dbi.

(** A pending timer is the one its key's record holds, and that record
    has a non-empty queue. *)
Definition timersOwned (w : World) : Prop :=
  ∀ t tm, timers w !! t = Some tm →
    ∃ dbi, debounceInfo w !! t_key tm = Some dbi ∧
           queuedObservers dbi ≠ [] ∧ timeout dbi = Some t.

(** Running generations are older than the accumulating one, and their
    subscriptions are calls that were made. *)
Definition runningBelow (w : World) : Prop :=
  ∀ k dbi g og, debounceInfo w !! k = Some dbi →
    runningSubscriptions dbi !! g = Some og →
    g < currentGroupId dbi ∧ subscription og < length (calls w).

(** Only calls that were made can be closed. *)
Definition closedBound (w : World) : Prop :=
  ∀ c, c ∈ closed w → c < length (calls w).

Record Inv (w : World) : Prop := {
  inv_busy : noIdleRecord w;
  inv_timers : timersOwned w;
  inv_running : runningBelow w;
  inv_closed : closedBound w;
}.

(** ** The link's operations in closed form *)

(** The test at the end of [cleanup]: once [runningSubscriptions[groupId]]
    is deleted, is nothing running and nothing queued? *)
Definition idleAfter (groupId : nat) (dbi : DebounceMetadata) : bool :=
  (size (delete groupId (runningSubscriptions dbi)) =? 0)
  && (length (queuedObservers dbi) =? 0).

(** The world after a flush that goes through. *)
Definition flushed (k : string) (dbi : DebounceMetadata)
    (operation : Operation) (forward : NextLink) (w : World) : World :=
  set_debounceInfo (insert k
    {| timeout := timeout dbi;
       runningSubscriptions :=
         <[currentGroupId dbi :=
             {| subscription := length (calls w); observers := queuedObservers dbi |}]>
           (runningSubscriptions dbi);
       queuedObservers := [];
       currentGroupId := S (currentGroupId dbi);
       lastRequest := lastRequest dbi |})
    (set_calls (λ l, l ++
       [{| c_operation := operation; c_forward := forward;
           c_handlers := Some {| h_key := k; h_group := currentGroupId dbi;
                                 h_observers := queuedObservers dbi |} |}]) w).

(** [this.debounceInfo[key] || this.setupDebounceInfo(key)]: the record
    of [k], or the fresh one it would get. *)
Definition recordOf (k : string) (w : World) : DebounceMetadata :=
  default freshDebounceInfo (debounceInfo w !! k).

(** The world after one [enqueueRequest]. *)
Definition enqueued (k : string) (override : option nat)
    (operation : Operation) (forward : NextLink) (observer : Observer)
    (w : World) : World :=
  let dbi := recordOf k w in
  {| debounceInfo :=
       <[k := {| timeout := Some (nextTimer w);
                 runningSubscriptions := runningSubscriptions dbi;
                 queuedObservers := queuedObservers dbi ++ [observer];
                 currentGroupId := currentGroupId dbi;
                 lastRequest := Some (operation, forward) |}]> (debounceInfo w);
     defaultDelay := defaultDelay w;
     now := now w;
     timers := <[nextTimer w := {| t_key := k;
                                  t_deadline := now w + effectiveDelay override w |}]>
                 (timers (clearTimeout (timeout dbi) w));
     nextTimer := S (nextTimer w);
     calls := calls w; closed := closed w; unsubscribed := unsubscribed w;
     delivered := delivered w |}.

(** ** Relations between worlds *)

(** The events that end in a [cleanup] of [k] which finds both
    collections empty, read off the world [w] in which the event occurs.
    Nothing but generation [g] is running for [k], and either the call of
    generation [g], still open, ends with an error or completes while
    nothing is queued; or the handle addresses the queue and its observer
    is the only one queued; or the handle addresses generation [g], its
    observer is the only one left there, and nothing is queued. *)
Definition deletedByCleanup (k : string) (a : Action) (w : World) : Prop :=
  ∃ dbi g, debounceInfo w !! k = Some dbi ∧
    delete g (runningSubscriptions dbi) = ∅ ∧
    match a with
    | Emit sub ev =>
        (∀ v, ev ≠ EvNext v) ∧ queuedObservers dbi = [] ∧ (sub ∉ closed w) ∧
        ∃ c h, calls w !! sub = Some c ∧ c_handlers c = Some h ∧
               h_key h = k ∧ h_group h = g
    | Cancel h =>
        td_key h = k ∧ td_group h = g ∧
        if decide (g = currentGroupId dbi)
        then filter (λ obs, obs ≠ td_observer h) (queuedObservers dbi) = []
        else queuedObservers dbi = [] ∧
             ∃ og, runningSubscriptions dbi !! g = Some og ∧
                   filter (λ obs, obs ≠ td_observer h) (observers og) = []
    | _ => False
    end.

(** [w'] is reached from [w] without the record of [k] ever being
    deleted on the way. *)
Inductive sameLifetime (k : string) : World → World → Prop :=
| lifetime_refl w :
    is_Some (debounceInfo w !! k) → sameLifetime k w w
| lifetime_step w w' a :
    sameLifetime k w w' → is_Some (debounceInfo (step a w') !! k) →
    sameLifetime k w (step a w').

(** [w'] differs from [w] only in what other keys did: the record, the
    timers and the calls of [k] are the same, no subscription was closed
    and no observer called; calls may have been added for other keys. *)
Record frame (k : string) (w w' : World) : Prop := {
  fr_info : debounceInfo w' !! k = debounceInfo w !! k;
  fr_timers : timersOf k w' = timersOf k w;
  fr_callsOf : callsOf k w' = callsOf k w;
  fr_calls : calls w `prefix_of` calls w';
  fr_closed : closed w' = closed w;
  fr_delivered : delivered w' = delivered w;
  fr_nextTimer : nextTimer w' = nextTimer w;
  fr_defaultDelay : defaultDelay w' = defaultDelay w;
}.

(** No timer of [k] among [l] is due. *)
Definition quietAmong (k : string) (l : list nat) (w : World) : Prop :=
  ∀ t tm, t ∈ l → timersOf k w !! t = Some tm → now w < t_deadline tm.

(** The observers of the accumulating batch leave one after the other,
    each after a pause. *)
Definition cancelBatch (k : string) (g : nat) (script : list (nat * Observer))
    (w : World) : World :=
  foldl (λ w p, unsubscribe k g p.2 (advance p.1 w)) w script.

(** The batch of [k] is gone: no timer of [k] is pending, and the
    record of [k] is deleted if nothing was running, or else kept with an
    empty queue. *)
Definition batchGone (k : string) (dbi : DebounceMetadata) (w : World) : Prop :=
  timersOf k w = ∅ ∧
  debounceInfo w !! k =
    (if decide (runningSubscriptions dbi = ∅) then None
     else Some (with_queued [] dbi)).

(** ** Fixtures, after the repository's test-suite *)

Definition observerN (n : nat) : Observer :=
  {| oid := n; has_next := true; has_error := true; has_complete := true |}.

Definition keyedOp (n : nat) (key : string) : Operation :=
  {| operationName := n; debounceKey := Some key; debounceTimeout := None |}.

Definition opWithoutKey : Operation :=
  {| operationName := 0; debounceKey := None; debounceTimeout := None |}.

Definition DEBOUNCE_TIMEOUT : nat := 500.

(** One subscriber on ["key1"], timer armed. *)
Definition oneQueued : World :=
  execute (keyedOp 1 "key1") 0 (observerN 1) (init DEBOUNCE_TIMEOUT).

(** A record with an empty queue: one subscriber came and left while an
    older generation was still running. *)
Definition emptyQueue : World :=
  unsubscribe "key1" 1 (observerN 2)
    (execute (keyedOp 2 "key1") 0 (observerN 2) (fire 1 oneQueued)).

(** Generation 0 of ["key1"] is running for one observer. *)
Definition oneRunning : World := fire 1 oneQueued.

(** The two-batch run of the test "does not debounce queries that are
    not within the interval": each batch completes before the next
    request arrives. *)
Definition twoBatches : World :=
  fire 2 (execute (keyedOp 2 "key1") 0 (observerN 2)
    (emit 0 EvComplete (emit 0 (EvNext 0) (fire 1 oneQueued)))).

(** Generation 0 of ["key1"] is running for two observers. *)
Definition twoRunning : World :=
  fire 2 (execute (keyedOp 2 "key1") 0 (observerN 2) oneQueued).

(** The [n]-th request of the test "debounces multiple queries within
    the debounce interval", with its own subscriber. *)
Definition submissionN (n : nat) : Submission :=
  {| sub_operation := keyedOp n "key1"; sub_forward := 0; sub_observer := observerN n |}.

(** ** Further invariants of reachable worlds *)

(** A non-empty queue has a request to forward. *)
Definition requestKept (w : World) : Prop :=
  ∀ k dbi, debounceInfo w !! k = Some dbi →
    queuedObservers dbi ≠ [] → is_Some (lastRequest dbi).

(** Handles, pending or remembered in a record, were handed out by
    [setTimeout] before. *)
Definition handlesFresh (w : World) : Prop :=
  (∀ t tm, timers w !! t = Some tm → t < nextTimer w) ∧
  (∀ k dbi t, debounceInfo w !! k = Some dbi → timeout dbi = Some t →
     t < nextTimer w).

(** The handle a record remembers is, as long as it is pending, a timer
    of the record's own key. *)
Definition handlesOwn (w : World) : Prop :=
  ∀ k dbi t tm, debounceInfo w !! k = Some dbi → timeout dbi = Some t →
    timers w !! t = Some tm → t_key tm = k.

(** The timer of a non-empty queue is pending. *)
Definition queueArmed (w : World) : Prop :=
  ∀ k dbi, debounceInfo w !! k = Some dbi → queuedObservers dbi ≠ [] →
    ∃ t, timeout dbi = Some t ∧ is_Some (timers w !! t).

(** Every call the link subscribed to and that is still open is filed
    under its key and generation. *)
Definition callsTracked (w : World) : Prop :=
  ∀ sub c h, calls w !! sub = Some c → c_handlers c = Some h → sub ∉ closed w →
    ∃ dbi og, debounceInfo w !! h_key h = Some dbi ∧
              runningSubscriptions dbi !! h_group h = Some og ∧
              subscription og = sub.

(** The entry [og], filed under [k] and [g], is the open call that
    [flush] made for [k] and [g]; somebody still listens to it, and its
    listeners are among those captured at the flush, in their order. *)
Definition entryLive (w : World) (k : string) (g : nat) (og : RunningGroup) : Prop :=
  (subscription og ∉ closed w) ∧
  observers og ≠ [] ∧
  ∃ c h, calls w !! subscription og = Some c ∧ c_handlers c = Some h ∧
         h_key h = k ∧ h_group h = g ∧
         observers og `sublist_of` h_observers h.

Definition runningLive (w : World) : Prop :=
  ∀ k dbi g og, debounceInfo w !! k = Some dbi →
    runningSubscriptions dbi !! g = Some og → entryLive w k g og.

(** The same, but for the one entry that [cleanup k0 g0] is about to
    delete. *)
Definition runningLiveExcept (k0 : string) (g0 : nat) (w : World) : Prop :=
  ∀ k dbi g og, debounceInfo w !! k = Some dbi →
    runningSubscriptions dbi !! g = Some og → (k, g) ≠ (k0, g0) →
    entryLive w k g og.

Record Coherent (w : World) : Prop := {
  co_inv : Inv w;
  co_request : requestKept w;
  co_fresh : handlesFresh w;
  co_own : handlesOwn w;
  co_armed : queueArmed w;
  co_tracked : callsTracked w;
  co_live : runningLive w;
}.

(** The key an event is about, if any. *)
Definition actionKey (a : Action) (w : World) : option string :=
  match a with
  | Execute operation _ _ =>
      if noKey (debounceKey operation) then None else debounceKey operation
  | Fire t => t_key <$> timers w !! t
  | Tick => None
  | Emit sub _ => h_key <$> (calls w !! sub ≫= c_handlers)
  | Cancel h => Some (td_key h)
  end.

(** [o] is registered in the batch that the handle [(k, g, o)]
    addresses: the queue if [g] is the live generation, the entry of [g]
    otherwise. *)
Definition registered (k : string) (g : nat) (o : Observer) (w : World) : Prop :=
  ∃ dbi, debounceInfo w !! k = Some dbi ∧
    if decide (g = currentGroupId dbi) then o ∈ queuedObservers dbi
    else ∃ og, runningSubscriptions dbi !! g = Some og ∧ o ∈ observers og.

(** ** [mergeObservables] of [TestUtils.ts] *)

(** The closure state of one subscription to the merged observable:
    [completedObservables], and what was called on the merged
    [observer] so far, oldest first. *)
Record MergeState := {
  completedObservables : nat;
  forwarded : list ObservableEvent;
}.

(** One of the merged observables emits.  [next] and [error] are the
    observer's own methods, bound; [complete] counts, and completes the
    observer when the count equals [numObservables]. *)
Definition mergeHandler (numObservables : nat) (st : MergeState)
    (ev : ObservableEvent) : MergeState :=
  match ev with
  | EvNext v =>
      {| completedObservables := completedObservables st;
         forwarded := forwarded st ++ [EvNext v] |}
  | EvError e =>
      {| completedObservables := completedObservables st;
         forwarded := forwarded st ++ [EvError e] |}
  | EvComplete =>
      let completed := S (completedObservables st) in
      {| completedObservables := completed;
         forwarded := forwarded st ++
           (if completed =? numObservables then [EvComplete] else []) |}
  end.

(** Subscribing to [mergeObservables(...observables)] with
    [numObservables = observables.length]: the calls made on the observer
    while the events [arrivals] come in from the merged observables, in
    this order. *)
Definition mergeObservables (numObservables : nat)
    (arrivals : list ObservableEvent) : list ObservableEvent :=
  forwarded (foldl (mergeHandler numObservables)
               {| completedObservables := 0; forwarded := [] |} arrivals).

Definition isComplete (ev : ObservableEvent) : Prop := ev = EvComplete.

#[global] Instance isComplete_dec ev : Decision (isComplete ev).
Proof. unfold isComplete. apply _. Defined.

(** ** Counting requests and observers served *)

(** The number of observers a call was made for. *)
Definition snapshotSize (c : Call) : nat :=
  from_option (λ h, length (h_observers h)) 0 (c_handlers c).

(** The number of observers that the calls made for [key] were made
    for. *)
Definition served (key : string) (w : World) : nat :=
  sum_list (snapshotSize <$> callsOf key w).

(** The event is a request that is debounced under [key]. *)
Definition requestFor (key : string) (a : Action) : Prop :=
  match a with
  | Execute operation _ _ => debounceKey operation = Some key ∧ key ≠ EmptyString
  | _ => False
  end.

#[global] Instance requestFor_dec key a : Decision (requestFor key a).
Proof. destruct a; simpl; apply _. Defined.

Definition isCancel (a : Action) : Prop :=
  match a with
  | Cancel _ => True
  | _ => False
  end.

#[global] Instance isCancel_dec a : Decision (isCancel a).
Proof. destruct a; simpl; apply _. Defined.

(** The world after a sequence of events. *)
Definition run (actions : list Action) (w : World) : World :=
  foldl (λ w a, step a w) w actions.

(** ** Keys that are names of inherited members *)

(** Nothing in the world is filed under the name of an inherited member:
    no record, no timer, no call. *)
Definition ownKeysOnly (w : World) : Prop :=
  ∀ k, inherited k →
    debounceInfo w !! k = None ∧ timersOf k w = ∅ ∧ callsOf k w = [].

(** The [n]-th request of a burst on the key ["constructor"]. *)
Definition constructorN (n : nat) : Submission :=
  {| sub_operation := keyedOp n "constructor"; sub_forward := 0;
     sub_observer := observerN n |}.

(** * Proofs *)

(** ** Basic facts *)

Lemma World_eq (w1 w2 : World) :
  debounceInfo w1 = debounceInfo w2 → defaultDelay w1 = defaultDelay w2 →
  now w1 = now w2 → timers w1 = timers w2 → nextTimer w1 = nextTimer w2 →
  calls w1 = calls w2 → closed w1 = closed w2 →
  unsubscribed w1 = unsubscribed w2 → delivered w1 = delivered w2 →
  w1 = w2.
Proof. destruct w1, w2; simpl; intros; subst; reflexivity. Qed.

Lemma eqb_length_nil {A} (l : list A) : (length l =? 0) = true ↔ l = [].
Proof. destruct l; simpl; split; (done || discriminate). Qed.

Lemma eqb_length_cons {A} (l : list A) : (length l =? 0) = false ↔ l ≠ [].
Proof. destruct l; simpl; split; (done || discriminate). Qed.

Lemma eqb_size_empty (m : gmap nat RunningGroup) : (size m =? 0) = true ↔ m = ∅.
Proof. rewrite Nat.eqb_eq. apply map_size_empty_iff. Qed.

Lemma eqb_size_non_empty (m : gmap nat RunningGroup) : (size m =? 0) = false ↔ m ≠ ∅.
Proof. rewrite Nat.eqb_neq, map_size_empty_iff. done. Qed.

(** *** [cleanup], field by field *)

Lemma idleAfter_true g dbi :
  idleAfter g dbi = true ↔
  queuedObservers dbi = [] ∧ delete g (runningSubscriptions dbi) = ∅.
Proof.
  unfold idleAfter. rewrite andb_true_iff, eqb_size_empty, eqb_length_nil. tauto.
Qed.

Lemma cleanup_absent k g w : debounceInfo w !! k = None → cleanup k g w = w.
Proof. intros H. unfold cleanup. by rewrite H. Qed.

Lemma cleanup_info k g w dbi :
  debounceInfo w !! k = Some dbi →
  debounceInfo (cleanup k g w) =
    if idleAfter g dbi then delete k (debounceInfo w)
    else <[k := with_running (delete g (runningSubscriptions dbi)) dbi]> (debounceInfo w).
Proof.
  intros H. unfold cleanup, idleAfter. rewrite H.
  case_decide; destruct (timeout dbi); simpl; by case_match.
Qed.

Lemma cleanup_timers k g w dbi :
  debounceInfo w !! k = Some dbi →
  timers (cleanup k g w) =
    if decide (g = currentGroupId dbi)
    then timers (clearTimeout (timeout dbi) w) else timers w.
Proof.
  intros H. unfold cleanup. rewrite H.
  case_decide; destruct (timeout dbi); simpl; by case_match.
Qed.

Lemma cleanup_rest k g w :
  defaultDelay (cleanup k g w) = defaultDelay w ∧ now (cleanup k g w) = now w ∧
  nextTimer (cleanup k g w) = nextTimer w ∧ calls (cleanup k g w) = calls w ∧
  closed (cleanup k g w) = closed w ∧ unsubscribed (cleanup k g w) = unsubscribed w ∧
  delivered (cleanup k g w) = delivered w.
Proof.
  unfold cleanup. destruct (debounceInfo w !! k) as [dbi|]; [|done].
  case_decide; destruct (timeout dbi); simpl; by case_match.
Qed.

Lemma cleanup_timers_sub k g w t tm :
  timers (cleanup k g w) !! t = Some tm → timers w !! t = Some tm.
Proof.
  destruct (debounceInfo w !! k) as [dbi|] eqn:H.
  - rewrite (cleanup_timers _ _ _ _ H). case_decide; [|done].
    destruct (timeout dbi); simpl; [|done].
    rewrite lookup_delete_Some. tauto.
  - by rewrite cleanup_absent.
Qed.

Lemma cleanup_other k g w k' :
  k' ≠ k → debounceInfo (cleanup k g w) !! k' = debounceInfo w !! k'.
Proof.
  intros Hne. destruct (debounceInfo w !! k) as [dbi|] eqn:H.
  - rewrite (cleanup_info _ _ _ _ H). case_match.
    + by rewrite lookup_delete_ne.
    + by rewrite lookup_insert_ne.
  - by rewrite cleanup_absent.
Qed.

Lemma cleanup_same k g w dbi :
  debounceInfo w !! k = Some dbi →
  debounceInfo (cleanup k g w) !! k =
    if idleAfter g dbi then None
    else Some (with_running (delete g (runningSubscriptions dbi)) dbi).
Proof.
  intros H. rewrite (cleanup_info _ _ _ _ H). case_match.
  - by rewrite lookup_delete_eq.
  - by rewrite lookup_insert_eq.
Qed.

Lemma idleAfter_false_busy g dbi :
  idleAfter g dbi = false →
  busy (with_running (delete g (runningSubscriptions dbi)) dbi).
Proof.
  unfold idleAfter, busy. simpl. rewrite andb_false_iff.
  rewrite eqb_size_non_empty, eqb_length_cons. tauto.
Qed.

Lemma cleanup_noIdle k g w :
  (∀ k' dbi', k' ≠ k → debounceInfo w !! k' = Some dbi' → busy dbi') →
  noIdleRecord (cleanup k g w).
Proof.
  intros Hw k' dbi' Hk'. destruct (decide (k' = k)) as [->|Hne].
  - destruct (debounceInfo w !! k) as [dbi|] eqn:H.
    + rewrite (cleanup_same _ _ _ _ H) in Hk'.
      destruct (idleAfter g dbi) eqn:Hidle; [done|].
      injection Hk' as <-. by apply idleAfter_false_busy.
    + rewrite cleanup_absent in Hk' by done. congruence.
  - rewrite cleanup_other in Hk' by done. eauto.
Qed.

Lemma cleanup_timersOwned k g w : timersOwned w → timersOwned (cleanup k g w).
Proof.
  intros Hw t tm Ht. apply cleanup_timers_sub in Ht.
  destruct (Hw _ _ Ht) as (dbi & Hdbi & Hq & Hto).
  destruct (decide (t_key tm = k)) as [Hk|Hne].
  - rewrite Hk in *. rewrite (cleanup_same _ _ _ _ Hdbi).
    destruct (idleAfter g dbi) eqn:Hidle.
    + apply idleAfter_true in Hidle. tauto.
    + eexists. split; [done|]. done.
  - exists dbi. by rewrite cleanup_other.
Qed.

(** The accumulating batch of [k] has just been emptied: [cleanup] for
    the live generation removes the one timer [k] may still have. *)
Lemma cleanup_timersOwned_current k w dbi :
  debounceInfo w !! k = Some dbi →
  (∀ t tm, timers w !! t = Some tm →
     (t_key tm = k → timeout dbi = Some t) ∧
     (t_key tm ≠ k → ∃ dbi', debounceInfo w !! t_key tm = Some dbi' ∧
                       queuedObservers dbi' ≠ [] ∧ timeout dbi' = Some t)) →
  timersOwned (cleanup k (currentGroupId dbi) w).
Proof.
  intros Hdbi Hw t tm Ht.
  pose proof (cleanup_timers_sub _ _ _ _ _ Ht) as Ht0.
  destruct (Hw _ _ Ht0) as [Hsame Hother].
  destruct (decide (t_key tm = k)) as [Hk|Hne].
  - exfalso. rewrite (cleanup_timers _ _ _ _ Hdbi) in Ht.
    rewrite decide_True in Ht by done. rewrite (Hsame Hk) in Ht. simpl in Ht.
    by rewrite lookup_delete_eq in Ht.
  - destruct (Hother Hne) as (dbi' & ? & ? & ?).
    exists dbi'. by rewrite cleanup_other.
Qed.

Lemma cleanup_runningBelow k g w : runningBelow w → runningBelow (cleanup k g w).
Proof.
  intros Hw k' dbi' g' og Hk' Hg'.
  destruct (cleanup_rest k g w) as (_ & _ & _ & -> & _).
  destruct (decide (k' = k)) as [->|Hne].
  - destruct (debounceInfo w !! k) as [dbi|] eqn:H.
    + rewrite (cleanup_same _ _ _ _ H) in Hk'.
      destruct (idleAfter g dbi); [done|]. injection Hk' as <-. simpl in *.
      apply lookup_delete_Some in Hg' as [_ Hg']. eauto.
    + rewrite cleanup_absent in Hk' by done. eauto.
  - rewrite cleanup_other in Hk' by done. eauto.
Qed.

Lemma cleanup_closedBound k g w : closedBound w → closedBound (cleanup k g w).
Proof.
  intros Hw c. destruct (cleanup_rest k g w) as (_ & _ & _ & -> & -> & _). apply Hw.
Qed.

Lemma cleanup_Inv k g w : Inv w → Inv (cleanup k g w).
Proof.
  intros [H1 H2 H3 H4]. split.
  - apply cleanup_noIdle. eauto.
  - by apply cleanup_timersOwned.
  - by apply cleanup_runningBelow.
  - by apply cleanup_closedBound.
Qed.

(** *** [unsubscribe] *)

Lemma unsubscribe_absent k g o w :
  debounceInfo w !! k = None → unsubscribe k g o w = w.
Proof. intros H. unfold unsubscribe. by rewrite H. Qed.

(** The two branches of [unsubscribe] on an existing record. *)
Lemma unsubscribe_current k o w dbi :
  debounceInfo w !! k = Some dbi →
  unsubscribe k (currentGroupId dbi) o w =
    let queued := filter (λ obs, obs ≠ o) (queuedObservers dbi) in
    let w' := set_debounceInfo (insert k (with_queued queued dbi)) w in
    if length queued =? 0 then cleanup k (currentGroupId dbi) w' else w'.
Proof. intros H. unfold unsubscribe. rewrite H. by rewrite decide_True. Qed.

Lemma unsubscribe_running k g o w dbi og :
  debounceInfo w !! k = Some dbi → g ≠ currentGroupId dbi →
  runningSubscriptions dbi !! g = Some og →
  unsubscribe k g o w =
    let remaining := filter (λ obs, obs ≠ o) (observers og) in
    let w' := set_debounceInfo (insert k (with_running
                (<[g := {| observers := remaining; subscription := subscription og |}]>
                   (runningSubscriptions dbi)) dbi)) w in
    if length remaining =? 0
    then cleanup k g (sub_unsubscribe (subscription og) w') else w'.
Proof.
  intros H Hne Hog. unfold unsubscribe. rewrite H. rewrite decide_False by done.
  by rewrite Hog.
Qed.

Lemma unsubscribe_stale k g o w dbi :
  debounceInfo w !! k = Some dbi → g ≠ currentGroupId dbi →
  runningSubscriptions dbi !! g = None → unsubscribe k g o w = w.
Proof.
  intros H Hne Hog. unfold unsubscribe. rewrite H. rewrite decide_False by done.
  by rewrite Hog.
Qed.

Lemma unsubscribe_Inv k g o w : Inv w → Inv (unsubscribe k g o w).
Proof.
  intros HI. destruct (debounceInfo w !! k) as [dbi|] eqn:Hdbi;
    [|by rewrite unsubscribe_absent].
  destruct HI as [H1 H2 H3 H4].
  destruct (decide (g = currentGroupId dbi)) as [->|Hne].
  - rewrite (unsubscribe_current _ _ _ _ Hdbi). cbv zeta.
    set (q := filter _ _).
    destruct (length q =? 0) eqn:Hq.
    + apply eqb_length_nil in Hq. split.
      * apply cleanup_noIdle. intros k' dbi' Hk'. simpl.
        rewrite lookup_insert_ne by done. eauto.
      * change (currentGroupId dbi) with (currentGroupId (with_queued q dbi)).
        apply cleanup_timersOwned_current; simpl.
        { by rewrite lookup_insert_eq. }
        intros t tm Ht. destruct (H2 _ _ Ht) as (dbi' & Hdbi' & Hq' & Hto).
        split.
        -- intros Hk. rewrite Hk in Hdbi'. congruence.
        -- intros Hk. exists dbi'. by rewrite lookup_insert_ne.
      * apply cleanup_runningBelow. intros k' dbi' g' og. simpl.
        rewrite lookup_insert. case_decide as Hk; [|eauto].
        intros [= <-]. simpl. subst k'. eauto.
      * by apply cleanup_closedBound.
    + apply eqb_length_cons in Hq. split.
      * intros k' dbi'. simpl. rewrite lookup_insert. case_decide; [|eauto].
        intros [= <-]. by left.
      * intros t tm Ht. simpl in *. destruct (H2 _ _ Ht) as (dbi' & Hdbi' & Hq' & Hto).
        rewrite lookup_insert. case_decide as Hk; [|eauto].
        rewrite <- Hk in Hdbi'. eexists. split; [done|]. simpl.
        split; [done|]. congruence.
      * intros k' dbi' g' og. simpl. rewrite lookup_insert. case_decide as Hk; [|eauto].
        intros [= <-]. simpl. subst k'. eauto.
      * done.
  - destruct (runningSubscriptions dbi !! g) as [og|] eqn:Hog;
      [|rewrite (unsubscribe_stale _ _ _ _ _ Hdbi Hne Hog); by split].
    rewrite (unsubscribe_running _ _ _ _ _ _ Hdbi Hne Hog). cbv zeta.
    set (r := filter _ _).
    assert (noIdleRecord (set_debounceInfo (insert k (with_running
       (<[g := {| observers := r; subscription := subscription og |}]>
          (runningSubscriptions dbi)) dbi)) w)) as H1'.
    { intros k' dbi'. simpl. rewrite lookup_insert. case_decide; [|eauto].
      intros [= <-]. right. simpl. apply insert_non_empty. }
    assert (timersOwned (set_debounceInfo (insert k (with_running
       (<[g := {| observers := r; subscription := subscription og |}]>
          (runningSubscriptions dbi)) dbi)) w)) as H2'.
    { intros t tm Ht. simpl in *. destruct (H2 _ _ Ht) as (dbi' & Hdbi' & Hq' & Hto).
      rewrite lookup_insert. case_decide as Hk; [|eauto].
      rewrite <- Hk in Hdbi'. eexists. split; [done|]. simpl.
      split; congruence. }
    assert (runningBelow (set_debounceInfo (insert k (with_running
       (<[g := {| observers := r; subscription := subscription og |}]>
          (runningSubscriptions dbi)) dbi)) w)) as H3'.
    { intros k' dbi' g' og'. simpl. rewrite lookup_insert. case_decide as Hk; [|eauto].
      intros [= <-]. simpl. subst k'. rewrite lookup_insert.
      case_decide; [subst g'; intros [= <-]; simpl|]; [|eauto].
      destruct (H3 _ _ _ _ Hdbi Hog). eauto. }
    destruct (length r =? 0); [|by split].
    apply cleanup_Inv. split; try done.
    intros c. simpl. rewrite elem_of_union, elem_of_singleton.
    intros [->|Hc]; [|eauto].
    by destruct (H3 _ _ _ _ Hdbi Hog).
Qed.

(** *** [flush] *)

Lemma flush_absent k w : debounceInfo w !! k = None → flush k w = Throw TypeError.
Proof. intros H. unfold flush. by rewrite H. Qed.

Lemma flush_empty k w dbi :
  debounceInfo w !! k = Some dbi → queuedObservers dbi = [] → flush k w = Normal w.
Proof. intros H Hq. unfold flush. by rewrite H, Hq. Qed.

Lemma flush_no_request k w dbi :
  debounceInfo w !! k = Some dbi → lastRequest dbi = None → flush k w = Normal w.
Proof. intros H Hq. unfold flush. rewrite H, Hq. by case_match. Qed.

Lemma flush_go k w dbi operation forward :
  debounceInfo w !! k = Some dbi → queuedObservers dbi ≠ [] →
  lastRequest dbi = Some (operation, forward) →
  flush k w = Normal (flushed k dbi operation forward w).
Proof.
  intros H Hq Hl. unfold flush, flushed. rewrite H, Hl.
  apply eqb_length_cons in Hq. by rewrite Hq.
Qed.

Lemma flush_cases k w :
  flush k w = Throw TypeError ∧ debounceInfo w !! k = None ∨
  flush k w = Normal w ∧
    (∃ dbi, debounceInfo w !! k = Some dbi ∧
            (queuedObservers dbi = [] ∨ lastRequest dbi = None)) ∨
  ∃ dbi operation forward,
    debounceInfo w !! k = Some dbi ∧ queuedObservers dbi ≠ [] ∧
    lastRequest dbi = Some (operation, forward) ∧
    flush k w = Normal (flushed k dbi operation forward w).
Proof.
  destruct (debounceInfo w !! k) as [dbi|] eqn:H.
  - right. destruct (queuedObservers dbi) as [|o q] eqn:Hq.
    { left. split; [by eapply flush_empty|eauto]. }
    destruct (lastRequest dbi) as [[operation forward]|] eqn:Hl.
    + right. exists dbi, operation, forward. rewrite Hq.
      split_and!; try done. apply flush_go; try done. by rewrite Hq.
    + left. split; [by eapply flush_no_request|eauto].
  - left. split; [by apply flush_absent|done].
Qed.

Lemma flushed_Inv k w dbi operation forward :
  Inv w → debounceInfo w !! k = Some dbi →
  (∀ t tm, timers w !! t = Some tm → t_key tm ≠ k) →
  Inv (flushed k dbi operation forward w).
Proof.
  intros [H1 H2 H3 H4] Hdbi Hk. unfold flushed. split.
  - intros k' dbi'. simpl. rewrite lookup_insert. case_decide; [|eauto].
    intros [= <-]. right. simpl. apply insert_non_empty.
  - intros t tm Ht. simpl in *. destruct (H2 _ _ Ht) as (dbi' & Hdbi' & Hq' & Hto).
    rewrite lookup_insert_ne by (intros Heq; by eapply Hk). eauto.
  - intros k' dbi' g' og'. simpl. rewrite length_app. simpl.
    rewrite lookup_insert. case_decide as Hkk.
    + intros [= <-]. simpl. subst k'. rewrite lookup_insert.
      case_decide; [subst g'; intros [= <-]; simpl; lia|].
      intros Hg. destruct (H3 _ _ _ _ Hdbi Hg). lia.
    + intros Hk' Hg. destruct (H3 _ _ _ _ Hk' Hg). lia.
  - intros c Hc. simpl in *. rewrite length_app. apply H4 in Hc. lia.
Qed.

Lemma set_timers_delete_Inv t w : Inv w → Inv (set_timers (delete t) w).
Proof.
  intros [H1 H2 H3 H4]. split; try done.
  intros t' tm. simpl. rewrite lookup_delete_Some. intros [_ Ht]. eauto.
Qed.

Lemma fire_Inv t w : Inv w → Inv (fire t w).
Proof.
  intros HI. unfold fire. destruct (timers w !! t) as [tm|] eqn:Ht; [|done].
  pose proof (set_timers_delete_Inv t _ HI) as HI'.
  destruct (flush_cases (t_key tm) (set_timers (delete t) w))
    as [[-> _]|[[-> _]|(dbi & op & fwd & Hdbi & Hq & Hl & ->)]]; try done.
  apply flushed_Inv; try done.
  intros t' tm'. simpl. rewrite lookup_delete_Some. intros [Hne Ht'] Hk.
  destruct (inv_timers _ HI _ _ Ht) as (d1 & Hd1 & _ & Hto1).
  destruct (inv_timers _ HI _ _ Ht') as (d2 & Hd2 & _ & Hto2).
  rewrite Hk in Hd2. congruence.
Qed.

(** *** [enqueueRequest] *)

Lemma enqueueRequest_eq k override operation forward observer w :
  ¬ findsInherited k w →
  enqueueRequest k override operation forward observer w =
    Normal (currentGroupId (recordOf k w),
            enqueued k override operation forward observer w).
Proof.
  intros Hown.
  unfold enqueueRequest, getDebounceInfo, enqueued, recordOf, setupDebounceInfo.
  destruct (debounceInfo w !! k) as [dbi|] eqn:H; simpl.
  - do 2 f_equal. apply World_eq; simpl; try done; destruct (timeout dbi); done.
  - rewrite decide_False by (intros Hin; by apply Hown). simpl.
    do 2 f_equal. apply World_eq; simpl; try done.
    by rewrite insert_insert_eq.
Qed.

Lemma enqueueRequest_throws k override operation forward observer w :
  findsInherited k w →
  enqueueRequest k override operation forward observer w = Throw TypeError.
Proof.
  intros [Hin Hnone]. unfold enqueueRequest, getDebounceInfo.
  rewrite Hnone. by rewrite decide_True.
Qed.

(** A request with a key: either the lookup falls through to an inherited
    member and nothing is changed, or the request is queued. *)
Lemma execute_keyed operation forward observer w k :
  debounceKey operation = Some k → k ≠ EmptyString →
  execute operation forward observer w =
    if decide (findsInherited k w) then w
    else enqueued k (debounceTimeout operation) operation forward observer w.
Proof.
  intros Hk Hne. unfold execute, request, subscribe. rewrite Hk.
  assert (noKey (Some k) = false) as -> by (by apply bool_decide_eq_false).
  case_decide.
  - by rewrite enqueueRequest_throws.
  - by rewrite enqueueRequest_eq.
Qed.

Lemma execute_noKey operation forward observer w :
  noKey (debounceKey operation) = true →
  execute operation forward observer w =
    set_calls (λ l, l ++ [{| c_operation := operation; c_forward := forward;
                            c_handlers := None |}]) w.
Proof.
  intros Hno. unfold execute, request.
  destruct (debounceKey operation) as [key|]; [|done]. by rewrite Hno.
Qed.

(** The key and the delay of the repository's tests. *)
Lemma key1_own : ¬ inherited "key1".
Proof. apply (proj1 (bool_decide_eq_false _)). vm_compute. reflexivity. Defined.

Lemma delay_500 : hostDelay 500.
Proof. unfold hostDelay, TIMEOUT_MAX. lia. Defined.

Lemma noKey_false k : noKey k = false ↔ ∃ key, k = Some key ∧ key ≠ EmptyString.
Proof.
  destruct k as [key|]; simpl.
  - rewrite bool_decide_eq_false. split; [eauto|]. by intros (? & [= <-] & ?).
  - split; [done|]. by intros (? & ? & ?).
Qed.

Lemma enqueued_Inv k override operation forward observer w :
  Inv w → Inv (enqueued k override operation forward observer w).
Proof.
  intros [H1 H2 H3 H4]. unfold enqueued. split.
  - intros k' dbi'. simpl. rewrite lookup_insert. case_decide; [|eauto].
    intros [= <-]. left. simpl. by destruct (queuedObservers _).
  - intros t tm. simpl. rewrite lookup_insert. case_decide as Ht.
    + intros [= <-]. simpl. rewrite lookup_insert_eq. eexists. split; [done|].
      simpl. split; [|congruence]. by destruct (queuedObservers _).
    + intros Htm.
      assert (timers w !! t = Some tm ∧ timeout (recordOf k w) ≠ Some t) as [Htm0 Hold].
      { destruct (timeout (recordOf k w)) as [t0|]; simpl in Htm; [|done].
        apply lookup_delete_Some in Htm as [? ?]. split; congruence. }
      destruct (H2 _ _ Htm0) as (dbi' & Hdbi' & Hq' & Hto).
      rewrite lookup_insert. case_decide as Hk; [|eauto].
      exfalso. apply Hold. unfold recordOf. rewrite Hk, Hdbi'. done.
  - intros k' dbi' g' og'. simpl. rewrite lookup_insert. case_decide as Hk; [|eauto].
    intros [= <-]. simpl. subst k'. unfold recordOf.
    destruct (debounceInfo w !! k) as [dbi|] eqn:Hdbi; simpl; [eauto|].
    by rewrite lookup_empty.
  - done.
Qed.

Ltac enqueue_cases key w :=
  destruct (decide (findsInherited key w)) as [?Hin|?Hown];
  [rewrite enqueueRequest_throws by done|rewrite enqueueRequest_eq by done].

Lemma execute_Inv operation forward observer w :
  Inv w → Inv (execute operation forward observer w).
Proof.
  intros HI. unfold execute, request, subscribe.
  assert (Inv (set_calls (λ l, l ++ [{| c_operation := operation; c_forward := forward;
                               c_handlers := None |}]) w)) as Hpass.
  { destruct HI as [H1 H2 H3 H4]. split; try done.
    - intros k dbi g og Hk Hg. simpl in *. rewrite length_app.
      destruct (H3 _ _ _ _ Hk Hg). lia.
    - intros c Hc. simpl in *. rewrite length_app. apply H4 in Hc. lia. }
  destruct (debounceKey operation) as [key|]; [|done].
  destruct (noKey (Some key)); [done|].
  enqueue_cases key w; [done|]. simpl. by apply enqueued_Inv.
Qed.

(** *** [emit] *)

Lemma emit_Inv sub ev w : Inv w → Inv (emit sub ev w).
Proof.
  intros HI. unfold emit.
  destruct (calls w !! sub) as [[op fwd [h|]]|] eqn:Hc; try done.
  case_decide; [done|].
  assert (Inv (set_delivered (λ l, l ++ fanOut (h_observers h) ev) w)) as HI'.
  { by destruct HI. }
  assert (Inv (set_closed (λ s, {[sub]} ∪ s)
            (set_delivered (λ l, l ++ fanOut (h_observers h) ev) w))) as HI''.
  { destruct HI as [H1 H2 H3 H4]. split; try done.
    intros c. simpl. rewrite elem_of_union, elem_of_singleton.
    intros [->|?]; [|eauto]. by eapply lookup_lt_Some. }
  destruct ev; try done; by apply cleanup_Inv.
Qed.

Lemma init_Inv delay : Inv (init delay).
Proof. split; intros ?; intros; simpl in *; try done; set_solver. Qed.

Lemma step_Inv a w : Inv w → Inv (step a w).
Proof.
  intros HI. destruct a; simpl.
  - by apply execute_Inv.
  - by apply fire_Inv.
  - by destruct HI.
  - by apply emit_Inv.
  - by apply unsubscribe_Inv.
Qed.

Lemma reachable_Inv delay w : reachable delay w → Inv w.
Proof. induction 1; [apply init_Inv|by apply step_Inv]. Qed.

(** * The claims *)

(** ** C9: no key, no debouncing *)

(** C9. A request whose debounce key is undefined or the empty string is
    handed to [forward] at once: [request] returns the downstream
    observable itself (so subscribing to it and unsubscribing from it are
    the downstream call's own), logs exactly that one call, touches no
    record, timer, subscription or observer, and is a total function:
    nothing is thrown. *)
Theorem C9_passthrough_without_key operation forward w :
  noKey (debounceKey operation) = true →
  let call := {| c_operation := operation; c_forward := forward; c_handlers := None |} in
  let w' := (request operation forward w).2 in
  (request operation forward w).1 = Downstream (length (calls w)) ∧
  calls w' = calls w ++ [call] ∧
  calls w' !! length (calls w) = Some call ∧
  debounceInfo w' = debounceInfo w ∧
  timers w' = timers w ∧ nextTimer w' = nextTimer w ∧ now w' = now w ∧
  closed w' = closed w ∧ unsubscribed w' = unsubscribed w ∧
  delivered w' = delivered w ∧
  (∀ observer, execute operation forward observer w = w').
Proof.
  intros Hk. cbv zeta. unfold execute, request.
  destruct (debounceKey operation) as [key|].
  - rewrite Hk. simpl. split_and!; try done.
    rewrite lookup_app_r by done. by rewrite Nat.sub_diag.
  - simpl. split_and!; try done.
    rewrite lookup_app_r by done. by rewrite Nat.sub_diag.
Qed.

Lemma C9_passthrough_without_key_witness :
  (request opWithoutKey 7 oneQueued).1 = Downstream 0 ∧
  debounceInfo (request opWithoutKey 7 oneQueued).2 = debounceInfo oneQueued.
Proof.
  pose proof (C9_passthrough_without_key opWithoutKey 7 oneQueued eq_refl) as H.
  cbv zeta in H. destruct H as (H1 & _ & _ & H2 & _). split; [exact H1|exact H2].
Defined.

(** ** C4: the guard of [flush] *)

(** C4, as the specification states it, fails: with no record for the
    key, [flush] reads [dbi.queuedObservers] of [undefined] and throws. *)
Lemma C4_flush_absent_throws :
  debounceInfo (init DEBOUNCE_TIMEOUT) !! "key1" = None ∧
  flush "key1" (init DEBOUNCE_TIMEOUT) = Throw TypeError ∧
  flush "key1" (init DEBOUNCE_TIMEOUT) ≠ Normal (init DEBOUNCE_TIMEOUT).
Proof. split_and!; done. Qed.

(** C4, amended. [flush] on a record whose queue is empty returns the
    world it was given: no call, no change, no exception.  With no
    record it throws; but a timer never finds its record missing: in
    every reachable world, the [flush] a pending timer would run
    completes normally. *)
Theorem C4_flush_guard k w :
  (∀ dbi, debounceInfo w !! k = Some dbi → queuedObservers dbi = [] →
     flush k w = Normal w) ∧
  (debounceInfo w !! k = None → flush k w = Throw TypeError) ∧
  (∀ delay t tm, reachable delay w → timers w !! t = Some tm → t_key tm = k →
     ∃ w', flush k (set_timers (delete t) w) = Normal w').
Proof.
  split_and!.
  - intros dbi. apply flush_empty.
  - apply flush_absent.
  - intros delay t tm Hr Ht <-. apply reachable_Inv in Hr.
    destruct (inv_timers _ Hr _ _ Ht) as (dbi & Hdbi & _ & _).
    destruct (flush_cases (t_key tm) (set_timers (delete t) w))
      as [[_ Hnone]|[[-> _]|(? & ? & ? & _ & _ & _ & ->)]]; eauto.
    simpl in Hnone. congruence.
Qed.

Lemma C4_flush_guard_witness :
  flush "key1" emptyQueue = Normal emptyQueue ∧
  flush "key2" emptyQueue = Throw TypeError ∧
  ∃ w', flush "key1" (set_timers (delete 1) oneQueued) = Normal w'.
Proof.
  destruct (C4_flush_guard "key1" emptyQueue) as (H1 & _ & _).
  destruct (C4_flush_guard "key2" emptyQueue) as (_ & H2 & _).
  destruct (C4_flush_guard "key1" oneQueued) as (_ & _ & H3).
  split_and!.
  - eapply H1; [vm_compute; reflexivity|reflexivity].
  - apply H2. reflexivity.
  - apply (H3 DEBOUNCE_TIMEOUT 1 {| t_key := "key1"; t_deadline := 500 |}).
    + apply (reachable_step _ (Execute _ _ _)), reachable_init.
    + reflexivity.
    + reflexivity.
Defined.

(** ** C5: what [flush] leaves behind *)

(** C5, as stated, fails in one place: [flush] never assigns
    [dbi.timeout], so the record still holds the handle of the timer that
    has just fired. *)
Lemma C5_timer_handle_kept :
  ∃ w' dbi dbi',
    debounceInfo oneQueued !! "key1" = Some dbi ∧ queuedObservers dbi ≠ [] ∧
    flush "key1" (set_timers (delete 1) oneQueued) = Normal w' ∧
    debounceInfo w' !! "key1" = Some dbi' ∧
    timeout dbi' = Some 1 ∧ timeout dbi' ≠ None.
Proof.
  eexists _, _, _. split_and!.
  - vm_compute. reflexivity.
  - done.
  - vm_compute. reflexivity.
  - vm_compute. reflexivity.
  - reflexivity.
  - done.
Qed.

(** C5, amended.  On a record with a non-empty queue and a last request,
    [flush] completes normally; it calls [forward] once, with the last
    request, and subscribes handlers that capture the key, the live
    generation [g] and a snapshot of the queue; it files the subscription
    and the snapshot under [runningSubscriptions[g]], empties the queue
    and moves [currentGroupId] to [g + 1].  The [timeout] field and the
    host's timer table are left as they were. *)
Theorem C5_flush_postconditions k w dbi operation forward :
  debounceInfo w !! k = Some dbi →
  queuedObservers dbi ≠ [] →
  lastRequest dbi = Some (operation, forward) →
  ∃ w' dbi',
    flush k w = Normal w' ∧
    let g := currentGroupId dbi in
    let snapshot := queuedObservers dbi in
    calls w' = calls w ++
      [{| c_operation := operation; c_forward := forward;
          c_handlers := Some {| h_key := k; h_group := g; h_observers := snapshot |} |}] ∧
    debounceInfo w' !! k = Some dbi' ∧
    runningSubscriptions dbi' =
      <[g := {| observers := snapshot; subscription := length (calls w) |}]>
        (runningSubscriptions dbi) ∧
    queuedObservers dbi' = [] ∧
    currentGroupId dbi' = S g ∧
    timeout dbi' = timeout dbi ∧
    lastRequest dbi' = lastRequest dbi ∧
    timers w' = timers w ∧
    (∀ k', k' ≠ k → debounceInfo w' !! k' = debounceInfo w !! k').
Proof.
  intros Hdbi Hq Hl. eexists _, _. split; [by apply flush_go|].
  unfold flushed. simpl. rewrite lookup_insert_eq. split_and!; try done.
  intros k' Hne. by rewrite lookup_insert_ne.
Qed.

Lemma C5_flush_postconditions_witness :
  ∃ w' dbi', flush "key1" oneQueued = Normal w' ∧
    debounceInfo w' !! "key1" = Some dbi' ∧
    queuedObservers dbi' = [] ∧ currentGroupId dbi' = 1.
Proof.
  destruct (C5_flush_postconditions "key1" oneQueued
    {| timeout := Some 1; runningSubscriptions := ∅;
       queuedObservers := [observerN 1]; currentGroupId := 0;
       lastRequest := Some (keyedOp 1 "key1", 0) |} (keyedOp 1 "key1") 0)
    as (w' & dbi' & Hf & H); [reflexivity|discriminate|reflexivity|].
  cbv zeta in H. destruct H as (_ & Hk & _ & Hq & Hg & _).
  exists w', dbi'. split_and!; [exact Hf|exact Hk|exact Hq|exact Hg].
Defined.

(** ** C3: the last observer of a running generation leaves *)

Lemma sub_unsubscribe_info s w :
  debounceInfo (sub_unsubscribe s w) = debounceInfo w.
Proof. done. Qed.

(** C3. Let [g] be a flushed generation of [k] whose call is still in
    flight.  If [o] is all that is left of its observers,
    [unsubscribe k g o] calls [subscription.unsubscribe()] on that call,
    once, and runs [cleanup k g], after which no record of [k] has an
    entry for [g].  If somebody else is left, the call is not cancelled
    and the entry stays, without [o]. *)
Theorem C3_last_observer_cancels_call k g o w dbi og :
  debounceInfo w !! k = Some dbi →
  g ≠ currentGroupId dbi →
  runningSubscriptions dbi !! g = Some og →
  subscription og ∉ closed w →
  let remaining := filter (λ obs, obs ≠ o) (observers og) in
  let entry := {| observers := remaining; subscription := subscription og |} in
  let w1 := set_debounceInfo (insert k
              (with_running (<[g := entry]> (runningSubscriptions dbi)) dbi)) w in
  let w' := unsubscribe k g o w in
  (remaining = [] →
     w' = cleanup k g (sub_unsubscribe (subscription og) w1) ∧
     unsubscribed w' = unsubscribed w ++ [subscription og] ∧
     subscription og ∈ closed w' ∧
     (∀ dbi', debounceInfo w' !! k = Some dbi' →
        runningSubscriptions dbi' !! g = None)) ∧
  (remaining ≠ [] →
     w' = w1 ∧
     unsubscribed w' = unsubscribed w ∧
     subscription og ∉ closed w').
Proof.
  intros Hdbi Hne Hog Hlive. cbv zeta.
  rewrite (unsubscribe_running _ _ _ _ _ _ Hdbi Hne Hog). cbv zeta.
  set (remaining := filter _ _). split.
  - intros Hrem. rewrite Hrem. simpl (length _ =? 0).
    cbv iota. split; [done|].
    match goal with |- context [cleanup k g ?x] => set (w1 := x) end.
    destruct (cleanup_rest k g w1) as (_ & _ & _ & _ & Hcl & Hun & _).
    rewrite Hun, Hcl. split_and!; [done|simpl; apply elem_of_union_l; by apply elem_of_singleton|].
    intros dbi'.
    assert (debounceInfo w1 !! k = Some (with_running
      (<[g := {| observers := []; subscription := subscription og |}]>
         (runningSubscriptions dbi)) dbi)) as Hw1.
    { unfold w1. simpl. by rewrite lookup_insert_eq. }
    rewrite (cleanup_same _ _ _ _ Hw1). case_match; [done|].
    intros [= <-]. simpl. by rewrite lookup_delete_eq.
  - intros Hrem. apply eqb_length_cons in Hrem. rewrite Hrem. done.
Qed.

Lemma C3_last_observer_cancels_call_witness :
  unsubscribed (unsubscribe "key1" 0 (observerN 1) oneRunning) = [0] ∧
  debounceInfo (unsubscribe "key1" 0 (observerN 1) oneRunning) !! "key1" = None.
Proof.
  pose proof (C3_last_observer_cancels_call "key1" 0 (observerN 1) oneRunning
    {| timeout := Some 1;
       runningSubscriptions := {[ 0 := {| observers := [observerN 1]; subscription := 0 |} ]};
       queuedObservers := []; currentGroupId := 1;
       lastRequest := Some (keyedOp 1 "key1", 0) |}
    {| observers := [observerN 1]; subscription := 0 |}) as H.
  cbv zeta in H.
  destruct H as [H _]; [reflexivity|simpl; lia|reflexivity|vm_compute; set_solver|].
  destruct H as (Heq & Hun & _ & _); [reflexivity|].
  split; [exact Hun|]. rewrite Heq. reflexivity.
Defined.

(** ** C7: cancelling twice *)

Lemma with_queued_same dbi : with_queued (queuedObservers dbi) dbi = dbi.
Proof. by destruct dbi. Qed.

Lemma set_debounceInfo_insert_id k dbi w :
  debounceInfo w !! k = Some dbi → set_debounceInfo (insert k dbi) w = w.
Proof. intros H. apply World_eq; simpl; try done. by apply insert_id. Qed.

Lemma filter_ne_idemp (o : Observer) (l : list Observer) :
  filter (λ obs, obs ≠ o) (filter (λ obs, obs ≠ o) l) = filter (λ obs, obs ≠ o) l.
Proof.
  induction l as [|x l IH]; [done|].
  rewrite filter_cons. case_decide; [|done].
  rewrite filter_cons_True by done. by rewrite IH.
Qed.

Lemma cleanup_twice k g w : cleanup k g (cleanup k g w) = cleanup k g w.
Proof.
  destruct (debounceInfo w !! k) as [dbi|] eqn:Hdbi;
    [|by rewrite !cleanup_absent by (by rewrite ?cleanup_absent)].
  pose proof (cleanup_same _ g _ _ Hdbi) as Hk.
  destruct (idleAfter g dbi) eqn:Hidle; [by apply cleanup_absent|].
  set (w' := cleanup k g w) in *.
  set (dbi' := with_running (delete g (runningSubscriptions dbi)) dbi) in *.
  assert (idleAfter g dbi' = false) as Hidle'.
  { unfold idleAfter in *. simpl. by rewrite delete_delete_eq. }
  destruct (cleanup_rest k g w') as (? & ? & ? & ? & ? & ? & ?).
  apply World_eq; try done.
  - rewrite (cleanup_info _ _ _ _ Hk), Hidle'. apply insert_id.
    rewrite Hk. f_equal. unfold dbi', with_running. simpl.
    by rewrite delete_delete_eq.
  - rewrite (cleanup_timers _ _ _ _ Hk). simpl. case_decide as Hg; [|done].
    destruct (timeout dbi) as [t|] eqn:Hto; [|done]. simpl.
    unfold w'. rewrite (cleanup_timers _ _ _ _ Hdbi). rewrite decide_True by done.
    rewrite Hto. simpl. by rewrite delete_delete_eq.
Qed.

(** C7. Whatever the world, cancelling on the same handle a second time
    changes nothing: the world after two cancellations (records, timers,
    and the logs of downstream calls, downstream cancellations and
    observer callbacks) is the world after one.  If the key has no
    record, the first cancellation already changes nothing.
    [unsubscribe] is a total function: it cannot throw. *)
Theorem C7_cancel_idempotent (h : Teardown) (w : World) :
  cancel h (cancel h w) = cancel h w ∧
  (debounceInfo w !! td_key h = None → cancel h w = w).
Proof.
  destruct h as [k g o]. unfold cancel. simpl.
  split; [|apply unsubscribe_absent].
  destruct (debounceInfo w !! k) as [dbi|] eqn:Hdbi;
    [|by rewrite !unsubscribe_absent by (by rewrite ?unsubscribe_absent)].
  destruct (decide (g = currentGroupId dbi)) as [->|Hne].
  - rewrite (unsubscribe_current _ _ _ _ Hdbi). cbv zeta.
    set (q := filter _ _).
    set (w1 := set_debounceInfo (insert k (with_queued q dbi)) w).
    assert (debounceInfo w1 !! k = Some (with_queued q dbi)) as Hw1.
    { unfold w1. simpl. by rewrite lookup_insert_eq. }
    destruct (length q =? 0) eqn:Hq.
    + apply eqb_length_nil in Hq.
      pose proof (cleanup_same _ (currentGroupId dbi) _ _ Hw1) as Hk.
      destruct (idleAfter _ _); [by apply unsubscribe_absent|].
      change (currentGroupId dbi) with (currentGroupId (with_running
        (delete (currentGroupId dbi) (runningSubscriptions (with_queued q dbi)))
        (with_queued q dbi))) at 1.
      rewrite (unsubscribe_current _ _ _ _ Hk). cbv zeta. simpl.
      rewrite Hq. simpl. rewrite set_debounceInfo_insert_id.
      * apply cleanup_twice.
      * rewrite Hk. by rewrite Hq.
    + change (currentGroupId dbi) with (currentGroupId (with_queued q dbi)).
      rewrite (unsubscribe_current _ _ _ _ Hw1). cbv zeta. simpl.
      assert (filter (λ obs, obs ≠ o) q = q) as -> by apply filter_ne_idemp.
      rewrite Hq. apply set_debounceInfo_insert_id. rewrite Hw1. reflexivity.
  - destruct (runningSubscriptions dbi !! g) as [og|] eqn:Hog.
    2:{ rewrite (unsubscribe_stale _ _ _ _ _ Hdbi Hne Hog).
        by apply (unsubscribe_stale _ _ _ _ _ Hdbi Hne Hog). }
    rewrite (unsubscribe_running _ _ _ _ _ _ Hdbi Hne Hog). cbv zeta.
    set (r := filter _ _).
    set (og' := {| observers := r; subscription := subscription og |}).
    set (dbi1 := with_running (<[g := og']> (runningSubscriptions dbi)) dbi).
    set (w1 := set_debounceInfo (insert k dbi1) w).
    assert (debounceInfo w1 !! k = Some dbi1) as Hw1.
    { unfold w1. simpl. by rewrite lookup_insert_eq. }
    destruct (length r =? 0) eqn:Hr.
    + assert (debounceInfo (sub_unsubscribe (subscription og) w1) !! k = Some dbi1)
        as Hw2 by done.
      pose proof (cleanup_same _ g _ _ Hw2) as Hk.
      destruct (idleAfter _ _); [by apply unsubscribe_absent|].
      eapply unsubscribe_stale; [exact Hk|done|].
      simpl. by rewrite lookup_delete_eq.
    + assert (runningSubscriptions dbi1 !! g = Some og') as Hog'.
      { unfold dbi1. simpl. by rewrite lookup_insert_eq. }
      rewrite (unsubscribe_running _ _ _ _ _ _ Hw1 Hne Hog'). cbv zeta. simpl.
      assert (filter (λ obs, obs ≠ o) r = r) as -> by apply filter_ne_idemp.
      rewrite Hr. apply World_eq; simpl; try done.
      rewrite !insert_insert_eq. done.
Qed.

Lemma C7_cancel_idempotent_witness :
  let h := {| td_key := "key1"; td_group := 0; td_observer := observerN 1 |} in
  cancel h (cancel h oneRunning) = cancel h oneRunning ∧
  cancel h (init DEBOUNCE_TIMEOUT) = init DEBOUNCE_TIMEOUT.
Proof.
  intros h. split.
  - exact (proj1 (C7_cancel_idempotent h oneRunning)).
  - apply (proj2 (C7_cancel_idempotent h (init DEBOUNCE_TIMEOUT))). reflexivity.
Defined.

(** ** C6: when a record is deleted *)

Lemma execute_keeps operation forward observer w k :
  is_Some (debounceInfo w !! k) →
  is_Some (debounceInfo (execute operation forward observer w) !! k).
Proof.
  intros Hk. unfold execute, request, subscribe.
  destruct (debounceKey operation) as [key|]; [|done].
  destruct (noKey (Some key)); [done|].
  enqueue_cases key w; [done|]. simpl. rewrite lookup_insert. by case_decide.
Qed.

Lemma fire_keeps t w k :
  is_Some (debounceInfo w !! k) → is_Some (debounceInfo (fire t w) !! k).
Proof.
  intros Hk. unfold fire. destruct (timers w !! t) as [tm|]; [|done].
  destruct (flush_cases (t_key tm) (set_timers (delete t) w))
    as [[-> _]|[[-> _]|(dbi & op & fwd & _ & _ & _ & ->)]]; try done.
  unfold flushed. simpl. rewrite lookup_insert. by case_decide.
Qed.

Lemma emit_deletes sub ev w k :
  is_Some (debounceInfo w !! k) →
  debounceInfo (emit sub ev w) !! k = None ↔ deletedByCleanup k (Emit sub ev) w.
Proof.
  intros [dbi Hdbi]. unfold emit, deletedByCleanup.
  assert (∀ P : Prop, ¬ P → debounceInfo w !! k = None ↔ P) as Hkept.
  { intros P HP. rewrite Hdbi. split; [done|]. by intros ?%HP. }
  destruct (calls w !! sub) as [[cop cfwd [h|]]|] eqn:Hc.
  2:{ apply Hkept. by intros (? & ? & _ & _ & _ & _ & _ & ? & ? & [= <-] & ? & _). }
  2:{ apply Hkept. by intros (? & ? & _ & _ & _ & _ & _ & ? & ? & ? & _). }
  case_decide as Hcl.
  { apply Hkept. by intros (? & ? & _ & _ & _ & _ & ? & _). }
  assert (∀ w1, debounceInfo w1 = debounceInfo w →
    debounceInfo (cleanup (h_key h) (h_group h) w1) !! k = None ↔
    ∃ dbi0 g, debounceInfo w !! k = Some dbi0 ∧
      delete g (runningSubscriptions dbi0) = ∅ ∧
      queuedObservers dbi0 = [] ∧
      h_key h = k ∧ h_group h = g) as Hcleanup.
  { intros w1 Hw1. destruct (decide (k = h_key h)) as [->|Hne].
    - rewrite (cleanup_same _ _ _ dbi) by (by rewrite Hw1).
      destruct (idleAfter (h_group h) dbi) eqn:Hidle.
      + apply idleAfter_true in Hidle as [Hq Hrun]. split; [intros _|done].
        by exists dbi, (h_group h).
      + split; [done|]. intros (dbi0 & g & Hd & Hrun & Hq & _ & <-).
        rewrite Hdbi in Hd. injection Hd as <-.
        assert (idleAfter (h_group h) dbi = true) by (by apply idleAfter_true).
        congruence.
    - rewrite cleanup_other by done. rewrite Hw1, Hdbi. split; [done|].
      by intros (? & ? & _ & _ & _ & ? & _). }
  destruct ev as [v| |].
  - simpl. apply Hkept. intros (? & ? & _ & _ & Hv & _). by apply (Hv v).
  - rewrite Hcleanup by done. split.
    + intros (dbi0 & g & ? & ? & ? & ? & ?). exists dbi0, g. split_and!; try done.
      by eexists _, h.
    + intros (dbi0 & g & ? & ? & _ & ? & _ & c & h' & [= <-] & [= <-] & ? & ?).
      by exists dbi0, g.
  - rewrite Hcleanup by done. split.
    + intros (dbi0 & g & ? & ? & ? & ? & ?). exists dbi0, g. split_and!; try done.
      by eexists _, h.
    + intros (dbi0 & g & ? & ? & _ & ? & _ & c & h' & [= <-] & [= <-] & ? & ?).
      by exists dbi0, g.
Qed.

Lemma cancel_deletes h w k :
  is_Some (debounceInfo w !! k) →
  debounceInfo (cancel h w) !! k = None ↔ deletedByCleanup k (Cancel h) w.
Proof.
  intros [dbi Hdbi]. destruct h as [k0 g o]. unfold cancel, deletedByCleanup. simpl.
  assert (∀ P : Prop, ¬ P → debounceInfo w !! k = None ↔ P) as Hkept.
  { intros P HP. rewrite Hdbi. split; [done|]. by intros ?%HP. }
  destruct (decide (k0 = k)) as [->|Hne].
  2:{ assert (debounceInfo (unsubscribe k0 g o w) !! k = debounceInfo w !! k) as ->.
      { destruct (debounceInfo w !! k0) as [dbi0|] eqn:Hdbi0;
          [|by rewrite unsubscribe_absent].
        destruct (decide (g = currentGroupId dbi0)) as [->|Hg].
        - rewrite (unsubscribe_current _ _ _ _ Hdbi0). cbv zeta.
          destruct (length _ =? 0); [rewrite cleanup_other by done|];
            simpl; by rewrite lookup_insert_ne.
        - destruct (runningSubscriptions dbi0 !! g) as [og|] eqn:Hog;
            [|by rewrite (unsubscribe_stale _ _ _ _ _ Hdbi0 Hg Hog)].
          rewrite (unsubscribe_running _ _ _ _ _ _ Hdbi0 Hg Hog). cbv zeta.
          destruct (length _ =? 0); [rewrite cleanup_other by done|];
            simpl; by rewrite lookup_insert_ne. }
      apply Hkept. by intros (? & ? & _ & _ & ? & _). }
  destruct (decide (g = currentGroupId dbi)) as [->|Hg].
  - rewrite (unsubscribe_current _ _ _ _ Hdbi). cbv zeta.
    set (queued := filter (λ obs, obs ≠ o) (queuedObservers dbi)).
    destruct (length queued =? 0) eqn:Hlen.
    + apply eqb_length_nil in Hlen.
      rewrite (cleanup_same _ _ _ (with_queued queued dbi))
        by (simpl; by rewrite lookup_insert_eq).
      destruct (idleAfter _ _) eqn:Hidle.
      * apply idleAfter_true in Hidle as [_ Hrun]. simpl in Hrun.
        split; [intros _|done]. exists dbi, (currentGroupId dbi).
        split_and!; try done. by rewrite decide_True.
      * split; [done|]. intros (dbi0 & g & Hd & Hrun & _ & <- & _).
        rewrite Hdbi in Hd. injection Hd as <-.
        assert (idleAfter (currentGroupId dbi) (with_queued queued dbi) = true)
          by (by apply idleAfter_true).
        congruence.
    + apply eqb_length_cons in Hlen. simpl. rewrite lookup_insert_eq.
      split; [done|]. intros (dbi0 & g & Hd & _ & _ & <- & Hcase).
      rewrite Hdbi in Hd. injection Hd as <-. by rewrite decide_True in Hcase.
  - destruct (runningSubscriptions dbi !! g) as [og|] eqn:Hog.
    2:{ rewrite (unsubscribe_stale _ _ _ _ _ Hdbi Hg Hog). apply Hkept.
        intros (dbi0 & g' & Hd & _ & _ & <- & Hcase).
        rewrite Hdbi in Hd. injection Hd as <-.
        rewrite decide_False in Hcase by done.
        destruct Hcase as (_ & og & Hog' & _). congruence. }
    rewrite (unsubscribe_running _ _ _ _ _ _ Hdbi Hg Hog). cbv zeta.
    set (remaining := filter (λ obs, obs ≠ o) (observers og)).
    set (dbi1 := with_running _ dbi).
    destruct (length remaining =? 0) eqn:Hlen.
    + apply eqb_length_nil in Hlen.
      rewrite (cleanup_same _ _ _ dbi1) by (simpl; by rewrite lookup_insert_eq).
      assert (delete g (runningSubscriptions dbi1) = delete g (runningSubscriptions dbi))
        as Hdel by (unfold dbi1; simpl; apply delete_insert_eq).
      destruct (idleAfter _ _) eqn:Hidle.
      * apply idleAfter_true in Hidle as [Hq Hrun]. rewrite Hdel in Hrun.
        split; [intros _|done]. exists dbi, g.
        split_and!; try done. rewrite decide_False by done. split; [done|].
        by exists og.
      * split; [done|]. intros (dbi0 & g' & Hd & Hrun & _ & <- & Hcase).
        rewrite Hdbi in Hd. injection Hd as <-.
        rewrite decide_False in Hcase by done. destruct Hcase as [Hq _].
        assert (idleAfter g dbi1 = true)
          by (apply idleAfter_true; by rewrite Hdel).
        congruence.
    + apply eqb_length_cons in Hlen. simpl. rewrite lookup_insert_eq.
      split; [done|]. intros (dbi0 & g' & Hd & _ & _ & <- & Hcase).
      rewrite Hdbi in Hd. injection Hd as <-.
      rewrite decide_False in Hcase by done.
      destruct Hcase as (_ & og' & Hog' & Hfil).
      rewrite Hog in Hog'. injection Hog' as <-. by destruct Hlen.
Qed.

Lemma step_deletes a w k :
  is_Some (debounceInfo w !! k) →
  debounceInfo (step a w) !! k = None ↔ deletedByCleanup k a w.
Proof.
  intros Hk. destruct a as [op fwd o|t| |sub ev|h].
  - pose proof (execute_keeps op fwd o _ _ Hk) as Hs. simpl.
    split; [intros Hn; rewrite Hn in Hs; by destruct Hs|].
    by intros (? & ? & _ & _ & ?).
  - pose proof (fire_keeps t _ _ Hk) as Hs. simpl.
    split; [intros Hn; rewrite Hn in Hs; by destruct Hs|].
    by intros (? & ? & _ & _ & ?).
  - simpl. split; [intros Hn; rewrite Hn in Hk; by destruct Hk|].
    by intros (? & ? & _ & _ & ?).
  - by apply emit_deletes.
  - by apply cancel_deletes.
Qed.

(** C6. In a reachable world: (1) [cleanup] deletes the record of its
    key exactly when, once [runningSubscriptions[groupId]] is removed,
    nothing is queued and nothing is running; otherwise the record stays,
    minus that entry.  (2) An event deletes the record of [k] exactly when
    it ends in such a [cleanup]: it is the error or the completion of the
    only call still open for [k] while nothing is queued, or it is the
    unsubscription of the last observer queued while nothing is running,
    or of the last observer of the only call still open while nothing is
    queued.  A request, a timer, the clock or a [next] never delete a
    record, and no event deletes one that it leaves with something queued
    or something running.  (3) No record is left with both collections
    empty, before or after any event: an idle key has no state. *)
Theorem C6_deleted_exactly_when_idle delay w :
  reachable delay w →
  (∀ k g dbi, debounceInfo w !! k = Some dbi →
     let running := delete g (runningSubscriptions dbi) in
     (queuedObservers dbi = [] ∧ running = ∅ →
        debounceInfo (cleanup k g w) !! k = None) ∧
     (¬ (queuedObservers dbi = [] ∧ running = ∅) →
        debounceInfo (cleanup k g w) !! k = Some (with_running running dbi))) ∧
  (∀ a k, is_Some (debounceInfo w !! k) →
     debounceInfo (step a w) !! k = None ↔ deletedByCleanup k a w) ∧
  (∀ k dbi, debounceInfo w !! k = Some dbi →
     ¬ (queuedObservers dbi = [] ∧ runningSubscriptions dbi = ∅)) ∧
  (∀ a k dbi, debounceInfo (step a w) !! k = Some dbi →
     ¬ (queuedObservers dbi = [] ∧ runningSubscriptions dbi = ∅)).
Proof.
  intros Hr. split_and!.
  - intros k g dbi Hdbi. cbv zeta. rewrite (cleanup_same _ _ _ _ Hdbi).
    destruct (idleAfter g dbi) eqn:Hidle.
    + apply idleAfter_true in Hidle. tauto.
    + split; [|done]. intros Hidle'. apply idleAfter_true in Hidle'. congruence.
  - intros a k. apply step_deletes.
  - intros k dbi Hdbi [Hq Hrun]. apply reachable_Inv in Hr.
    destruct (inv_busy _ Hr _ _ Hdbi); done.
  - intros a k dbi Hdbi [Hq Hrun].
    pose proof (reachable_Inv _ _ (reachable_step _ a _ Hr)) as HI.
    destruct (inv_busy _ HI _ _ Hdbi); done.
Qed.

(** The only call of ["key1"] completes: the record goes. *)
Lemma C6_deleted_exactly_when_idle_witness :
  debounceInfo (cleanup "key1" 0 oneRunning) !! "key1" = None ∧
  debounceInfo (step (Emit 0 EvComplete) oneRunning) !! "key1" = None.
Proof.
  assert (reachable DEBOUNCE_TIMEOUT oneRunning) as Hr.
  { apply (reachable_step _ (Fire 1)), (reachable_step _ (Execute _ _ _)),
      reachable_init. }
  destruct (C6_deleted_exactly_when_idle DEBOUNCE_TIMEOUT oneRunning Hr)
    as (H1 & H2 & _).
  split.
  - eapply H1; [reflexivity|]. split; reflexivity.
  - apply H2; [by eexists|].
    eexists _, 0. split; [reflexivity|]. split; [reflexivity|].
    split; [done|]. split; [reflexivity|]. split; [vm_compute; set_solver|].
    eexists _, _. split; [reflexivity|]. split; [reflexivity|]. split; reflexivity.
Defined.

(** ** C8: generation ids *)

Lemma flushedGroups_app k w c :
  flushedGroups k (set_calls (λ l, l ++ [c]) w) =
    flushedGroups k w ++
      (if decide (isCallOf k c) then from_option (λ h, [h_group h]) [] (c_handlers c)
       else []).
Proof.
  unfold flushedGroups, callsOf. simpl. rewrite filter_app, omap_app. f_equal.
  rewrite filter_cons, filter_nil. case_decide as Hc; [|done].
  simpl. destruct (c_handlers c); done.
Qed.

Lemma unsubscribe_rest k g o w :
  defaultDelay (unsubscribe k g o w) = defaultDelay w ∧
  now (unsubscribe k g o w) = now w ∧
  nextTimer (unsubscribe k g o w) = nextTimer w ∧
  calls (unsubscribe k g o w) = calls w ∧
  delivered (unsubscribe k g o w) = delivered w.
Proof.
  unfold unsubscribe. destruct (debounceInfo w !! k) as [dbi|]; [|done].
  case_decide.
  - case_match; [|done].
    match goal with |- context [cleanup k g ?x] =>
      destruct (cleanup_rest k g x) as (-> & -> & -> & -> & _ & _ & ->) end. done.
  - destruct (runningSubscriptions dbi !! g) as [og|]; [|done].
    case_match; [|done].
    match goal with |- context [cleanup k g ?x] =>
      destruct (cleanup_rest k g x) as (-> & -> & -> & -> & _ & _ & ->) end. done.
Qed.

Lemma cleanup_generation k0 g w k dbi dbi' :
  debounceInfo w !! k = Some dbi → debounceInfo (cleanup k0 g w) !! k = Some dbi' →
  currentGroupId dbi' = currentGroupId dbi.
Proof.
  intros Hdbi Hdbi'. destruct (decide (k = k0)) as [->|Hne].
  - rewrite (cleanup_same _ _ _ _ Hdbi) in Hdbi'. case_match; [done|].
    by injection Hdbi' as <-.
  - rewrite cleanup_other in Hdbi' by done. congruence.
Qed.

Lemma unsubscribe_generation k0 g o w k dbi dbi' :
  debounceInfo w !! k = Some dbi → debounceInfo (unsubscribe k0 g o w) !! k = Some dbi' →
  currentGroupId dbi' = currentGroupId dbi.
Proof.
  intros Hdbi. unfold unsubscribe.
  destruct (debounceInfo w !! k0) as [dbi0|] eqn:Hdbi0; [|congruence].
  assert (∀ d, currentGroupId d = currentGroupId dbi0 →
            ∀ w1, debounceInfo w1 = <[k0 := d]> (debounceInfo w) →
            ∀ d1, debounceInfo w1 !! k = Some d1 → currentGroupId d1 = currentGroupId dbi)
    as Hins.
  { intros d Hd w1 -> d1. rewrite lookup_insert. case_decide; [|congruence].
    intros [= <-]. subst k0. congruence. }
  case_decide.
  - case_match.
    + intros Hc.
      match type of Hc with (debounceInfo (cleanup _ _ ?x) !! _ = _) =>
        destruct (debounceInfo x !! k) as [d1|] eqn:Hd1 end.
      * rewrite (cleanup_generation _ _ _ _ _ _ Hd1 Hc).
        eapply (Hins (with_queued _ dbi0)); [done| |exact Hd1]. done.
      * simpl in Hd1. rewrite lookup_insert in Hd1. case_decide; [done|congruence].
    + eapply (Hins (with_queued _ dbi0)); done.
  - destruct (runningSubscriptions dbi0 !! g) as [og|]; [|congruence].
    case_match.
    + intros Hc.
      match type of Hc with (debounceInfo (cleanup _ _ ?x) !! _ = _) =>
        destruct (debounceInfo x !! k) as [d1|] eqn:Hd1 end.
      * rewrite (cleanup_generation _ _ _ _ _ _ Hd1 Hc).
        eapply (Hins (with_running _ dbi0)); [done| |exact Hd1]. done.
      * simpl in Hd1. rewrite lookup_insert in Hd1. case_decide; [done|congruence].
    + eapply (Hins (with_running _ dbi0)); done.
Qed.

Lemma flushed_groups k k0 dbi0 operation forward w :
  flushedGroups k (flushed k0 dbi0 operation forward w) =
    flushedGroups k w ++ (if decide (k0 = k) then [currentGroupId dbi0] else []).
Proof.
  unfold flushed.
  change (flushedGroups k (set_debounceInfo ?f ?x)) with (flushedGroups k x).
  rewrite flushedGroups_app. f_equal. unfold isCallOf. simpl.
  case_decide as H1; case_decide as H2; try done; congruence.
Qed.

Lemma flushedGroups_set_timers k f w :
  flushedGroups k (set_timers f w) = flushedGroups k w.
Proof. done. Qed.

(** One event, seen from a record that survives it: either the
    generation counter and the list of flushed generations are as
    before, or the event flushed the key and both advanced by one. *)
Lemma step_generation a w k dbi dbi' :
  debounceInfo w !! k = Some dbi → debounceInfo (step a w) !! k = Some dbi' →
  (currentGroupId dbi' = currentGroupId dbi ∧
   flushedGroups k (step a w) = flushedGroups k w) ∨
  (currentGroupId dbi' = S (currentGroupId dbi) ∧
   flushedGroups k (step a w) = flushedGroups k w ++ [currentGroupId dbi]).
Proof.
  intros Hdbi. destruct a as [op fwd o|t| |sub ev|[k0 g o]]; simpl.
  - unfold execute, request, subscribe.
    assert (∀ c, c_handlers c = None →
      debounceInfo (set_calls (λ l, l ++ [c]) w) !! k = Some dbi' →
      (currentGroupId dbi' = currentGroupId dbi ∧
       flushedGroups k (set_calls (λ l, l ++ [c]) w) = flushedGroups k w) ∨
      (currentGroupId dbi' = S (currentGroupId dbi) ∧
       flushedGroups k (set_calls (λ l, l ++ [c]) w) =
         flushedGroups k w ++ [currentGroupId dbi])) as Hpass.
    { intros c Hc Hd. left. simpl in Hd. split; [congruence|].
      rewrite flushedGroups_app. rewrite decide_False; [by rewrite app_nil_r|].
      unfold isCallOf. by rewrite Hc. }
    destruct (debounceKey op) as [key|]; [|by apply Hpass].
    destruct (noKey (Some key)); [by apply Hpass|].
    enqueue_cases key w; [intros Hd; left; split; [congruence|done]|].
    simpl. rewrite lookup_insert.
    case_decide as Hk; [|left; split; [congruence|done]].
    intros [= <-]. left. simpl. unfold recordOf. subst key. by rewrite Hdbi.
  - unfold fire. destruct (timers w !! t) as [tm|]; [|left; split; [congruence|done]].
    destruct (flush_cases (t_key tm) (set_timers (delete t) w))
      as [[-> _]|[[-> _]|(dbi0 & op & fwd & Hdbi0 & _ & _ & ->)]];
      try (left; split; [simpl in *; congruence|done]).
    rewrite flushed_groups, flushedGroups_set_timers.
    unfold flushed. simpl in Hdbi0. simpl debounceInfo. rewrite lookup_insert.
    case_decide as Hk.
    + intros [= <-]. right. simpl. subst k. split; congruence.
    + intros Hd. left. split; [congruence|by rewrite app_nil_r].
  - left. split; [congruence|done].
  - unfold emit. destruct (calls w !! sub) as [[cop cfwd [h|]]|];
      try (left; split; [congruence|done]).
    case_decide; [left; split; [congruence|done]|].
    destruct ev; [left; split; [simpl in *; congruence|done]| |];
      (intros Hc; left; split;
       [eapply cleanup_generation; [|exact Hc]; done|];
       unfold flushedGroups, callsOf;
       match goal with |- context [cleanup ?a ?b ?x] =>
         destruct (cleanup_rest a b x) as (_ & _ & _ & -> & _) end; done).
  - unfold cancel. simpl. intros Hc. left. split.
    + by eapply unsubscribe_generation.
    + unfold flushedGroups, callsOf.
      by destruct (unsubscribe_rest k0 g o w) as (_ & _ & _ & -> & _).
Qed.

Lemma sameLifetime_alive k w w' :
  sameLifetime k w w' → is_Some (debounceInfo w' !! k).
Proof. by destruct 1. Qed.

(** C8, as stated, fails: once a batch has completed and the record is
    deleted, the next batch of the same key is flushed under generation 0
    again. *)
Lemma C8_generation_restarts :
  reachable DEBOUNCE_TIMEOUT twoBatches ∧
  flushedGroups "key1" twoBatches = [0; 0] ∧
  ¬ StronglySorted lt (flushedGroups "key1" twoBatches).
Proof.
  split_and!.
  - apply (reachable_step _ (Fire 2)), (reachable_step _ (Execute _ _ _)),
      (reachable_step _ (Emit 0 EvComplete)), (reachable_step _ (Emit 0 (EvNext 0))),
      (reachable_step _ (Fire 1)), (reachable_step _ (Execute _ _ _)), reachable_init.
  - reflexivity.
  - change (flushedGroups "key1" twoBatches) with [0; 0].
    intros H. apply StronglySorted_inv in H as [_ H].
    apply Forall_inv in H. lia.
Qed.

(** C8, amended.  A record is created with generation 0.  While it
    lives, each event either leaves its generation counter and the list of
    generations flushed for its key alone, or is a flush, which files the
    batch under the current value and adds one.  So between two worlds of
    one lifetime the counter grows by the number [n] of flushes, and the
    batches flushed in between carry the consecutive ids
    [g, g+1, ..., g+n-1]. *)
Theorem C8_generations_within_lifetime k w :
  (∀ a dbi', debounceInfo w !! k = None → debounceInfo (step a w) !! k = Some dbi' →
     currentGroupId dbi' = 0) ∧
  (∀ a dbi dbi', debounceInfo w !! k = Some dbi →
     debounceInfo (step a w) !! k = Some dbi' →
     (currentGroupId dbi' = currentGroupId dbi ∧
      flushedGroups k (step a w) = flushedGroups k w) ∨
     (currentGroupId dbi' = S (currentGroupId dbi) ∧
      flushedGroups k (step a w) = flushedGroups k w ++ [currentGroupId dbi])) ∧
  (∀ w' dbi dbi', sameLifetime k w w' →
     debounceInfo w !! k = Some dbi → debounceInfo w' !! k = Some dbi' →
     ∃ n, currentGroupId dbi' = currentGroupId dbi + n ∧
          flushedGroups k w' = flushedGroups k w ++ seq (currentGroupId dbi) n).
Proof.
  split_and!.
  - intros a dbi' Hnone.
    destruct a as [op fwd o|t| |sub ev|[k0 g o]]; simpl.
    + unfold execute, request, subscribe.
      destruct (debounceKey op) as [key|]; [|simpl; congruence].
      destruct (noKey (Some key)); [simpl; congruence|].
      enqueue_cases key w; [congruence|]. simpl. rewrite lookup_insert.
      case_decide as Hk; [|congruence].
      intros [= <-]. simpl. unfold recordOf. subst key. by rewrite Hnone.
    + unfold fire. destruct (timers w !! t) as [tm|]; [|congruence].
      destruct (flush_cases (t_key tm) (set_timers (delete t) w))
        as [[-> _]|[[-> _]|(dbi0 & op & fwd & Hdbi0 & _ & _ & ->)]];
        try (simpl; congruence).
      unfold flushed. simpl in *. rewrite lookup_insert.
      case_decide; [congruence|congruence].
    + simpl. congruence.
    + unfold emit. destruct (calls w !! sub) as [[cop cfwd [h|]]|]; try congruence.
      case_decide; [congruence|].
      destruct ev; [simpl; congruence| |]; intros Hc.
      * destruct (decide (k = h_key h)) as [->|Hne].
        -- destruct (debounceInfo w !! h_key h) eqn:E; [done|].
           rewrite cleanup_absent in Hc by done. simpl in Hc. congruence.
        -- rewrite cleanup_other in Hc by done. simpl in Hc. congruence.
      * destruct (decide (k = h_key h)) as [->|Hne].
        -- destruct (debounceInfo w !! h_key h) eqn:E; [done|].
           rewrite cleanup_absent in Hc by done. simpl in Hc. congruence.
        -- rewrite cleanup_other in Hc by done. simpl in Hc. congruence.
    + unfold cancel. simpl. intros Hc. exfalso.
      assert (is_Some (debounceInfo (unsubscribe k0 g o w) !! k)) as Hs by eauto.
      clear Hc. revert Hs. unfold unsubscribe.
      destruct (debounceInfo w !! k0) as [dbi0|] eqn:Hdbi0;
        [|rewrite Hnone; by intros []].
      assert (k ≠ k0) as Hne by congruence.
      case_decide.
      * case_match; [rewrite cleanup_other by done|]; simpl;
          rewrite lookup_insert_ne by done; rewrite Hnone; by intros [].
      * destruct (runningSubscriptions dbi0 !! g); [|rewrite Hnone; by intros []].
        case_match; [rewrite cleanup_other by done|]; simpl;
          rewrite lookup_insert_ne by done; rewrite Hnone; by intros [].
  - intros a dbi dbi'. apply step_generation.
  - intros w' dbi dbi' Hl Hdbi. revert dbi'.
    induction Hl as [w|w w' a Hl IH Halive]; intros dbi'.
    + intros Hdbi'. exists 0. rewrite Hdbi in Hdbi'. injection Hdbi' as <-.
      split; [lia|by rewrite app_nil_r].
    + intros Hdbi'. destruct (sameLifetime_alive _ _ _ Hl) as [dbi1 Hdbi1].
      destruct (IH Hdbi _ Hdbi1) as (n & Hn & Hfl).
      destruct (step_generation _ _ _ _ _ Hdbi1 Hdbi') as [[Hg Hf]|[Hg Hf]].
      * exists n. split; congruence.
      * exists (S n). split; [lia|].
        rewrite Hf, Hfl, seq_S, app_assoc. do 2 f_equal. lia.
Qed.

Lemma C8_generations_within_lifetime_witness :
  ∃ n, 1 = 0 + n ∧ flushedGroups "key1" oneRunning = flushedGroups "key1" oneQueued ++ seq 0 n.
Proof.
  destruct (C8_generations_within_lifetime "key1" oneQueued) as (_ & _ & H).
  apply (H oneRunning
    {| timeout := Some 1; runningSubscriptions := ∅;
       queuedObservers := [observerN 1]; currentGroupId := 0;
       lastRequest := Some (keyedOp 1 "key1", 0) |}
    {| timeout := Some 1;
       runningSubscriptions := {[ 0 := {| observers := [observerN 1]; subscription := 0 |} ]};
       queuedObservers := []; currentGroupId := 1;
       lastRequest := Some (keyedOp 1 "key1", 0) |}).
  - apply (lifetime_step _ _ _ (Fire 1)).
    + apply lifetime_refl. vm_compute. eauto.
    + vm_compute. eauto.
  - reflexivity.
  - reflexivity.
Defined.

(** ** Fan-out *)

Lemma emit_closed sub ev w : sub ∈ closed w → emit sub ev w = w.
Proof.
  intros Hc. unfold emit. destruct (calls w !! sub) as [[cop cfwd [h|]]|]; try done.
  by rewrite decide_True.
Qed.

Lemma emits_closed sub evs w : sub ∈ closed w → emits sub evs w = w.
Proof.
  intros Hc. induction evs as [|ev evs IH]; [done|].
  unfold emits in *. simpl. by rewrite emit_closed.
Qed.

Lemma emits_delivered sub evs w c h :
  calls w !! sub = Some c → c_handlers c = Some h → sub ∉ closed w →
  delivered (emits sub evs w) =
    delivered w ++ concat (fanOut (h_observers h) <$> effective evs).
Proof.
  revert w. induction evs as [|ev evs IH]; intros w Hc Hh Hlive.
  { simpl. by rewrite app_nil_r. }
  change (emits sub (ev :: evs) w) with (emits sub evs (emit sub ev w)).
  assert (∀ w1, delivered w1 = delivered w ++ fanOut (h_observers h) ev →
            sub ∈ closed w1 →
            delivered (emits sub evs w1) =
              delivered w ++ concat (fanOut (h_observers h) <$> [ev])) as Hterminal.
  { intros w1 Hd Hcl. rewrite emits_closed by done. simpl. by rewrite app_nil_r. }
  unfold emit. rewrite Hc. destruct c as [cop cfwd ch]. simpl in Hh. subst ch.
  rewrite decide_False by done.
  destruct ev as [v|e|].
  - erewrite IH; [|exact Hc|done|done]. simpl. by rewrite app_assoc.
  - apply Hterminal.
    + match goal with |- context [cleanup ?a ?b ?x] =>
        destruct (cleanup_rest a b x) as (_ & _ & _ & _ & _ & _ & ->) end. done.
    + match goal with |- context [cleanup ?a ?b ?x] =>
        destruct (cleanup_rest a b x) as (_ & _ & _ & _ & -> & _) end.
      simpl. apply elem_of_union_l. by apply elem_of_singleton.
  - apply Hterminal.
    + match goal with |- context [cleanup ?a ?b ?x] =>
        destruct (cleanup_rest a b x) as (_ & _ & _ & _ & _ & _ & ->) end. done.
    + match goal with |- context [cleanup ?a ?b ?x] =>
        destruct (cleanup_rest a b x) as (_ & _ & _ & _ & -> & _) end.
      simpl. apply elem_of_union_l. by apply elem_of_singleton.
Qed.

Lemma received_app o l1 l2 : received o (l1 ++ l2) = received o l1 ++ received o l2.
Proof. unfold received. by rewrite filter_app, fmap_app. Qed.

Lemma received_fanOut_absent o obs ev : o ∉ obs → received o (fanOut obs ev) = [].
Proof.
  induction obs as [|x obs IH]; [done|].
  intros Hx. apply not_elem_of_cons in Hx as [Hne Hx].
  unfold fanOut, received in *. rewrite filter_cons. case_decide.
  - rewrite fmap_cons, filter_cons_False by (simpl; congruence). by apply IH.
  - by apply IH.
Qed.

Lemma received_fanOut o obs ev :
  NoDup obs → o ∈ obs →
  received o (fanOut obs ev) = if handles ev o then [ev] else [].
Proof.
  induction obs as [|x obs IH]; [by intros _ ?%elem_of_nil|].
  intros [Hx Hnd]%NoDup_cons Ho.
  assert (fanOut (x :: obs) ev =
    (if handles ev x then [(x, ev)] else []) ++ fanOut obs ev) as ->.
  { unfold fanOut. rewrite filter_cons. case_decide as Hh.
    - by rewrite Hh.
    - apply not_true_is_false in Hh. by rewrite Hh. }
  rewrite received_app.
  destruct (decide (x = o)) as [->|Hne].
  - rewrite received_fanOut_absent by done. rewrite app_nil_r.
    destruct (handles ev o); [|done].
    unfold received. by rewrite filter_cons_True.
  - apply elem_of_cons in Ho as [?|Ho]; [congruence|].
    rewrite IH by done.
    destruct (handles ev x); [|done].
    unfold received at 1. by rewrite filter_cons_False.
Qed.

Lemma received_fanOut_all o obs evs :
  NoDup obs → o ∈ obs →
  received o (concat (fanOut obs <$> evs)) = filter (λ ev, handles ev o = true) evs.
Proof.
  intros Hnd Ho. induction evs as [|ev evs IH]; [done|].
  rewrite fmap_cons. cbn [concat].
  rewrite received_app, received_fanOut, IH by done.
  rewrite filter_cons. destruct (handles ev o) eqn:Hh.
  - by rewrite decide_True.
  - by rewrite decide_False by congruence.
Qed.

(** ** C10: an observer that left a running generation *)

(** C10. A generation of [k] is running, its call [sub] in flight, with
    handlers that captured the observers [h_observers h] at flush time.
    One of them, [o], unsubscribes while somebody else remains.  Then the
    call stays open, and whatever it emits afterwards is dispatched over
    the captured array, [o] included: for every event up to and including
    the first terminal one, the callback of [o] for that event, if [o]
    has one, is invoked. *)
Theorem C10_departed_observer_still_notified k g o w dbi og c h :
  debounceInfo w !! k = Some dbi →
  g ≠ currentGroupId dbi →
  runningSubscriptions dbi !! g = Some og →
  calls w !! subscription og = Some c →
  c_handlers c = Some h →
  subscription og ∉ closed w →
  o ∈ h_observers h →
  filter (λ obs, obs ≠ o) (observers og) ≠ [] →
  let w' := unsubscribe k g o w in
  (subscription og ∉ closed w') ∧
  (∀ dbi', debounceInfo w' !! k = Some dbi' →
     observers <$> (runningSubscriptions dbi' !! g) =
       Some (filter (λ obs, obs ≠ o) (observers og))) ∧
  ∀ evs,
    delivered (emits (subscription og) evs w') =
      delivered w ++ concat (fanOut (h_observers h) <$> effective evs) ∧
    (∀ ev, ev ∈ effective evs → handles ev o = true →
       (o, ev) ∈ delivered (emits (subscription og) evs w')).
Proof.
  intros Hdbi Hne Hog Hc Hh Hlive Ho Hrem. cbv zeta.
  rewrite (unsubscribe_running _ _ _ _ _ _ Hdbi Hne Hog). cbv zeta.
  apply eqb_length_cons in Hrem. rewrite Hrem.
  split; [done|]. split.
  { intros dbi'. simpl. rewrite lookup_insert_eq. intros [= <-]. simpl.
    by rewrite lookup_insert_eq. }
  intros evs.
  match goal with |- context [emits _ _ ?x] => set (w1 := x) end.
  assert (delivered (emits (subscription og) evs w1) =
          delivered w ++ concat (fanOut (h_observers h) <$> effective evs)) as Hd.
  { by rewrite (emits_delivered _ _ w1 c h). }
  split; [done|].
  intros ev Hev Hhandles. rewrite Hd. apply elem_of_app. right.
  apply list_elem_of_In, in_concat. exists (fanOut (h_observers h) ev). split.
  - apply list_elem_of_In, list_elem_of_fmap. eauto.
  - apply list_elem_of_In. unfold fanOut. apply list_elem_of_fmap.
    exists o. split; [done|]. by apply list_elem_of_filter.
Qed.

Lemma C10_departed_observer_still_notified_witness :
  let w' := unsubscribe "key1" 0 (observerN 1) twoRunning in
  received (observerN 1) (delivered (emits 0 [EvNext 7; EvComplete] w')) =
    [EvNext 7; EvComplete].
Proof.
  pose proof (C10_departed_observer_still_notified "key1" 0 (observerN 1) twoRunning
    {| timeout := Some 2;
       runningSubscriptions :=
         {[ 0 := {| observers := [observerN 1; observerN 2]; subscription := 0 |} ]};
       queuedObservers := []; currentGroupId := 1;
       lastRequest := Some (keyedOp 2 "key1", 0) |}
    {| observers := [observerN 1; observerN 2]; subscription := 0 |}
    {| c_operation := keyedOp 2 "key1"; c_forward := 0;
       c_handlers := Some {| h_key := "key1"; h_group := 0;
                             h_observers := [observerN 1; observerN 2] |} |}
    {| h_key := "key1"; h_group := 0; h_observers := [observerN 1; observerN 2] |})
    as H.
  cbv zeta in H.
  destruct H as (_ & _ & H);
    [reflexivity|simpl; lia|reflexivity|reflexivity|reflexivity
    |vm_compute; set_solver|simpl; set_solver|vm_compute; discriminate|].
  intros w'. destruct (H [EvNext 7; EvComplete]) as [Hd _].
  unfold w'. simpl subscription in Hd. rewrite Hd. reflexivity.
Defined.

(** ** What the rest of the world does to one key *)

Lemma frame_refl k w : frame k w w.
Proof. by split. Qed.

Lemma frame_trans k w1 w2 w3 : frame k w1 w2 → frame k w2 w3 → frame k w1 w3.
Proof.
  intros [] []. split; try congruence. by etrans.
Qed.

Lemma timersOf_lookup k w t tm :
  timersOf k w !! t = Some tm ↔ timers w !! t = Some tm ∧ t_key tm = k.
Proof. unfold timersOf. by rewrite map_lookup_filter_Some. Qed.

Lemma timersOf_delete k t w :
  timersOf k (set_timers (delete t) w) = delete t (timersOf k w).
Proof. unfold timersOf. simpl. apply map_filter_delete. Qed.

Lemma callsOf_app k w c :
  callsOf k (set_calls (λ l, l ++ [c]) w) =
    callsOf k w ++ (if decide (isCallOf k c) then [c] else []).
Proof.
  unfold callsOf. simpl. rewrite filter_app. by f_equal.
Qed.

Lemma fire_absent t w : timers w !! t = None → fire t w = w.
Proof. intros H. unfold fire. by rewrite H. Qed.

Lemma fire_now t w : now (fire t w) = now w.
Proof.
  unfold fire. destruct (timers w !! t) as [tm|]; [|done].
  destruct (flush_cases (t_key tm) (set_timers (delete t) w))
    as [[-> _]|[[-> _]|(dbi & op & fwd & _ & _ & _ & ->)]]; done.
Qed.

Lemma fire_timersOf k t w : timersOf k (fire t w) = delete t (timersOf k w).
Proof.
  unfold fire. destruct (timers w !! t) as [tm|] eqn:Ht.
  - destruct (flush_cases (t_key tm) (set_timers (delete t) w))
      as [[-> _]|[[-> _]|(dbi & op & fwd & _ & _ & _ & ->)]];
      apply timersOf_delete.
  - symmetry. apply delete_id. apply eq_None_not_Some. intros [tm Htm].
    apply timersOf_lookup in Htm as [? _]. congruence.
Qed.

Lemma fire_other k t w tm :
  timers w !! t = Some tm → t_key tm ≠ k → frame k w (fire t w).
Proof.
  intros Ht Hne.
  assert (timersOf k (fire t w) = timersOf k w) as Htimers.
  { rewrite fire_timersOf. apply delete_id. apply eq_None_not_Some. intros [tm' Htm'].
    apply timersOf_lookup in Htm' as [? ?]. congruence. }
  split; try exact Htimers; clear Htimers; unfold fire; rewrite Ht;
    destruct (flush_cases (t_key tm) (set_timers (delete t) w))
      as [[-> _]|[[-> _]|(dbi & op & fwd & _ & _ & _ & ->)]]; try done.
  - unfold flushed. simpl. by rewrite lookup_insert_ne.
  - unfold flushed.
    change (callsOf k (set_debounceInfo ?f (set_calls ?h (set_timers ?d w))))
      with (callsOf k (set_calls h w)).
    rewrite callsOf_app. rewrite decide_False; [by rewrite app_nil_r|].
    unfold isCallOf. simpl. congruence.
  - unfold flushed. simpl. by apply prefix_app_r.
Qed.

Lemma fire_if_due_now w t : now (fire_if_due w t) = now w.
Proof.
  unfold fire_if_due. destruct (timers w !! t); [|done].
  case_decide; [apply fire_now|done].
Qed.

Lemma fire_if_due_frame k w t :
  quietAmong k [t] w → frame k w (fire_if_due w t).
Proof.
  intros Hq. unfold fire_if_due. destruct (timers w !! t) as [tm|] eqn:Ht;
    [|apply frame_refl].
  case_decide as Hdue; [|apply frame_refl].
  apply (fire_other _ _ _ tm); [done|]. intros Hk.
  assert (now w < t_deadline tm); [|lia].
  apply (Hq t); [apply list_elem_of_singleton; done|]. by apply timersOf_lookup.
Qed.

Lemma quietAmong_frame k l w w' :
  frame k w w' → now w' = now w → quietAmong k l w → quietAmong k l w'.
Proof.
  intros Hf Hn Hq t tm Ht. rewrite (fr_timers _ _ _ Hf), Hn. by apply Hq.
Qed.

Lemma foldl_fire_frame k l w :
  quietAmong k l w →
  frame k w (foldl fire_if_due w l) ∧ now (foldl fire_if_due w l) = now w.
Proof.
  revert w. induction l as [|t l IH]; intros w Hq; [split; [apply frame_refl|done]|].
  simpl.
  assert (frame k w (fire_if_due w t)) as Hf.
  { apply fire_if_due_frame. intros t' tm Ht'. apply Hq.
    apply list_elem_of_singleton in Ht' as ->. by left. }
  pose proof (fire_if_due_now w t) as Hn.
  destruct (IH (fire_if_due w t)) as [Hf' Hn'].
  { apply (quietAmong_frame _ _ w); [done|done|].
    intros t' tm Ht'. apply Hq. by right. }
  split; [by eapply frame_trans|congruence].
Qed.

Lemma run_due_frame k w :
  (∀ t tm, timersOf k w !! t = Some tm → now w < t_deadline tm) →
  frame k w (run_due w) ∧ now (run_due w) = now w.
Proof. intros Hq. apply foldl_fire_frame. intros t tm _. apply Hq. Qed.

Lemma tick_frame k w : frame k w (tick w).
Proof. by split. Qed.

(** While no timer of [k] falls due, time passing leaves [k] alone. *)
Lemma advance_frame k d w :
  (∀ t tm, timersOf k w !! t = Some tm → now w + d < t_deadline tm) →
  frame k w (advance d w) ∧ now (advance d w) = now w + d.
Proof.
  revert w. induction d as [|d IH]; intros w Hq.
  - simpl. destruct (run_due_frame k w) as [Hf Hn].
    { intros t tm Ht. specialize (Hq _ _ Ht). lia. }
    split; [done|lia].
  - simpl. destruct (run_due_frame k w) as [Hf Hn].
    { intros t tm Ht. specialize (Hq _ _ Ht). lia. }
    destruct (IH (tick (run_due w))) as [Hf' Hn'].
    { intros t tm. change (timersOf k (tick (run_due w))) with (timersOf k (run_due w)).
      rewrite (fr_timers _ _ _ Hf). intros Ht. specialize (Hq _ _ Ht).
      simpl. lia. }
    split.
    + eapply frame_trans; [exact Hf|]. eapply frame_trans; [apply (tick_frame k)|done].
    + rewrite Hn'. simpl. lia.
Qed.

Lemma advance_frame_idle k d w :
  timersOf k w = ∅ → frame k w (advance d w).
Proof.
  intros He. apply advance_frame. intros t tm. by rewrite He, lookup_empty.
Qed.

(** The one timer of [k] is due: [run_due] runs it, between timers of
    other keys. *)
Lemma run_due_fires k w t tm :
  timersOf k w = {[t := tm]} → t < nextTimer w → t_deadline tm ≤ now w →
  ∃ wa, frame k w wa ∧ frame k (fire t wa) (run_due w).
Proof.
  intros Hk Ht Hdue. unfold run_due.
  replace (nextTimer w) with (t + S (nextTimer w - S t)) by lia.
  rewrite seq_app, foldl_app. simpl.
  set (wa := foldl fire_if_due w (seq 0 t)).
  destruct (foldl_fire_frame k (seq 0 t) w) as [Hf Hn].
  { intros t' tm' Ht'. rewrite Hk. intros [<- _]%lookup_singleton_Some.
    apply elem_of_seq in Ht'. lia. }
  fold wa in Hf, Hn. exists wa. split; [done|].
  assert (timers wa !! t = Some tm) as Hta.
  { apply (timersOf_lookup k). rewrite (fr_timers _ _ _ Hf), Hk.
    by rewrite lookup_singleton_eq. }
  assert (fire_if_due wa t = fire t wa) as ->.
  { unfold fire_if_due. rewrite Hta. rewrite decide_True; [done|lia]. }
  apply foldl_fire_frame. intros t' tm' _.
  rewrite fire_timersOf, (fr_timers _ _ _ Hf), Hk, delete_singleton_eq.
  by rewrite lookup_empty.
Qed.

(** Once the window has elapsed, [advance] has run the timer of [k]
    exactly once, and otherwise left [k] alone. *)
Lemma advance_fires k d w t tm :
  timersOf k w = {[t := tm]} → t < nextTimer w → t_deadline tm ≤ now w + d →
  ∃ wa, frame k w wa ∧ frame k (fire t wa) (advance d w).
Proof.
  revert w. induction d as [|d IH]; intros w Hk Ht Hdue.
  - simpl. apply (run_due_fires _ _ _ tm); [done|done|lia].
  - simpl. destruct (decide (t_deadline tm ≤ now w)) as [Hnow|Hlater].
    + destruct (run_due_fires _ _ _ _ Hk Ht Hnow) as (wa & Hfa & Hfb).
      exists wa. split; [done|].
      eapply frame_trans; [exact Hfb|].
      eapply frame_trans; [apply (tick_frame k)|].
      apply advance_frame_idle.
      change (timersOf k (tick (run_due w))) with (timersOf k (run_due w)).
      rewrite (fr_timers _ _ _ Hfb), fire_timersOf, (fr_timers _ _ _ Hfa), Hk.
      apply delete_singleton_eq.
    + destruct (run_due_frame k w) as [Hf Hn].
      { intros t' tm'. rewrite Hk. intros [_ <-]%lookup_singleton_Some. lia. }
      destruct (IH (tick (run_due w))) as (wa & Hfa & Hfb).
      * change (timersOf k (tick (run_due w))) with (timersOf k (run_due w)).
        by rewrite (fr_timers _ _ _ Hf).
      * simpl. by rewrite (fr_nextTimer _ _ _ Hf).
      * simpl. lia.
      * exists wa. split; [|done].
        eapply frame_trans; [exact Hf|].
        eapply frame_trans; [apply (tick_frame k)|done].
Qed.

Lemma advance_Inv d w : Inv w → Inv (advance d w).
Proof.
  assert (∀ l w, Inv w → Inv (foldl fire_if_due w l)) as Hfold.
  { induction l as [|t l IH]; intros w0 HI; [done|]. simpl. apply IH.
    unfold fire_if_due. destruct (timers w0 !! t); [|done].
    case_decide; [by apply fire_Inv|done]. }
  revert w. induction d as [|d IH]; intros w HI; simpl.
  - by apply Hfold.
  - apply IH. by destruct (Hfold (seq 0 (nextTimer w)) w HI).
Qed.

(** ** C2: a batch that is cancelled before its timer fires *)

Lemma timersOf_clearTimeout k h w :
  timersOf k (clearTimeout h w) =
    match h with Some t => delete t (timersOf k w) | None => timersOf k w end.
Proof. destruct h; [apply timersOf_delete|done]. Qed.

Lemma cleanup_timersOf k0 g w k dbi :
  debounceInfo w !! k0 = Some dbi →
  timersOf k (cleanup k0 g w) =
    if decide (g = currentGroupId dbi)
    then timersOf k (clearTimeout (timeout dbi) w) else timersOf k w.
Proof.
  intros H. unfold timersOf. rewrite (cleanup_timers _ _ _ _ H). by case_decide.
Qed.

Lemma current_not_running w k dbi :
  runningBelow w → debounceInfo w !! k = Some dbi →
  delete (currentGroupId dbi) (runningSubscriptions dbi) = runningSubscriptions dbi.
Proof.
  intros H3 Hdbi. apply delete_id. apply eq_None_not_Some. intros [og Hog].
  destruct (H3 _ _ _ _ Hdbi Hog). lia.
Qed.

Lemma with_running_same dbi : with_running (runningSubscriptions dbi) dbi = dbi.
Proof. by destruct dbi. Qed.

(** Emptying the queue of the live generation. *)
Lemma cleanup_emptied k w dbi :
  Inv w → debounceInfo w !! k = Some dbi →
  batchGone k dbi
    (cleanup k (currentGroupId dbi)
       (set_debounceInfo (insert k (with_queued [] dbi)) w)).
Proof.
  intros HI Hdbi.
  set (w1 := set_debounceInfo (insert k (with_queued [] dbi)) w).
  assert (debounceInfo w1 !! k = Some (with_queued [] dbi)) as Hw1.
  { unfold w1. simpl. by rewrite lookup_insert_eq. }
  pose proof (current_not_running _ _ _ (inv_running _ HI) Hdbi) as Hdel.
  split.
  - rewrite (cleanup_timersOf _ _ _ _ _ Hw1). simpl. rewrite decide_True by done.
    rewrite timersOf_clearTimeout. apply map_empty. intros t.
    apply eq_None_not_Some. intros [tm Htm].
    assert (timersOf k w !! t = Some tm) as Htm0.
    { destruct (timeout dbi); [|done].
      apply lookup_delete_Some in Htm as [_ Htm]. done. }
    apply timersOf_lookup in Htm0 as [Htm0 Hk].
    destruct (inv_timers _ HI _ _ Htm0) as (dbi' & Hdbi' & _ & Hto).
    rewrite Hk, Hdbi in Hdbi'. injection Hdbi' as <-. rewrite Hto in Htm.
    by rewrite lookup_delete_eq in Htm.
  - rewrite (cleanup_same _ _ _ _ Hw1). unfold idleAfter. simpl. rewrite Hdel.
    case_decide as Hr.
    + rewrite Hr. done.
    + apply eqb_size_non_empty in Hr. rewrite Hr. reflexivity.
Qed.

Lemma batchGone_unsubscribe k dbi o w :
  Inv w → batchGone k dbi w →
  batchGone k dbi (unsubscribe k (currentGroupId dbi) o w) ∧
  calls (unsubscribe k (currentGroupId dbi) o w) = calls w.
Proof.
  intros HI [Ht Hk].
  split; [|by destruct (unsubscribe_rest k (currentGroupId dbi) o w) as (_ & _ & _ & -> & _)].
  destruct (decide (runningSubscriptions dbi = ∅)) as [Hr|Hr].
  { rewrite unsubscribe_absent by done. split; [done|]. by rewrite decide_True. }
  change (currentGroupId dbi) with (currentGroupId (with_queued [] dbi)) at 1.
  rewrite (unsubscribe_current _ _ _ _ Hk). cbv zeta. simpl.
  destruct (cleanup_emptied k w (with_queued [] dbi) HI Hk) as [Ht' Hk'].
  split; [exact Ht'|]. etrans; [exact Hk'|]. simpl. by rewrite !decide_False.
Qed.

Lemma cancelBatch_gone k dbi script w :
  Inv w → batchGone k dbi w →
  batchGone k dbi (cancelBatch k (currentGroupId dbi) script w) ∧
  Inv (cancelBatch k (currentGroupId dbi) script w) ∧
  callsOf k (cancelBatch k (currentGroupId dbi) script w) = callsOf k w.
Proof.
  revert w. induction script as [|[gap o] script IH]; intros w HI Hgone; [done|].
  unfold cancelBatch in *. simpl.
  pose proof (advance_frame_idle k gap w (proj1 Hgone)) as Hf.
  pose proof (advance_Inv gap w HI) as HI'.
  assert (batchGone k dbi (advance gap w)) as Hgone'.
  { destruct Hgone as [Ht Hk]. split.
    - by rewrite (fr_timers _ _ _ Hf).
    - by rewrite (fr_info _ _ _ Hf). }
  destruct (batchGone_unsubscribe k dbi o _ HI' Hgone') as [Hgone'' Hcalls].
  destruct (IH _ (unsubscribe_Inv _ _ _ _ HI') Hgone'') as (? & ? & Hc).
  split_and!; try done. rewrite Hc. unfold callsOf. rewrite Hcalls.
  apply (fr_callsOf _ _ _ Hf).
Qed.

Lemma cancelBatch_accumulating k script w dbi :
  Inv w → debounceInfo w !! k = Some dbi →
  (∀ o, o ∈ queuedObservers dbi → o ∈ script.*2) →
  queuedObservers dbi ≠ [] →
  (∀ t tm, timersOf k w !! t = Some tm → now w + sum_list script.*1 < t_deadline tm) →
  batchGone k dbi (cancelBatch k (currentGroupId dbi) script w) ∧
  Inv (cancelBatch k (currentGroupId dbi) script w) ∧
  callsOf k (cancelBatch k (currentGroupId dbi) script w) = callsOf k w.
Proof.
  revert w dbi. induction script as [|[gap o] script IH];
    intros w dbi HI Hdbi Hcover Hq Hquiet.
  { destruct (queuedObservers dbi) as [|x q]; [done|].
    assert (x ∈ ([] : list (nat * Observer)).*2) as Hx by (apply Hcover; left).
    by apply elem_of_nil in Hx. }
  unfold cancelBatch in *. simpl.
  assert (∀ t tm, timersOf k w !! t = Some tm →
            now w + (gap + sum_list script.*1) < t_deadline tm) as Hquiet'
    by exact Hquiet.
  clear Hquiet. rename Hquiet' into Hquiet.
  destruct (advance_frame k gap w) as [Hf Hn].
  { intros t tm Ht. specialize (Hquiet _ _ Ht). lia. }
  pose proof (advance_Inv gap w HI) as HI'.
  set (wa := advance gap w) in *.
  assert (debounceInfo wa !! k = Some dbi) as Hdbi'
    by (by rewrite (fr_info _ _ _ Hf)).
  pose proof (unsubscribe_Inv k (currentGroupId dbi) o wa HI') as HI''.
  assert (callsOf k (unsubscribe k (currentGroupId dbi) o wa) = callsOf k w) as Hc.
  { unfold callsOf at 1.
    destruct (unsubscribe_rest k (currentGroupId dbi) o wa) as (_ & _ & _ & -> & _).
    apply (fr_callsOf _ _ _ Hf). }
  revert HI'' Hc. rewrite (unsubscribe_current _ _ _ _ Hdbi'). cbv zeta.
  set (q := filter _ _).
  destruct (length q =? 0) eqn:Hlen; intros HI'' Hc.
  - apply eqb_length_nil in Hlen. revert HI'' Hc. rewrite Hlen. intros HI'' Hc.
    pose proof (cleanup_emptied k wa dbi HI' Hdbi') as Hgone.
    destruct (cancelBatch_gone k dbi script _ HI'' Hgone) as (? & ? & Hc').
    unfold cancelBatch in *. split_and!; try done. by rewrite Hc'.
  - apply eqb_length_cons in Hlen.
    set (w1 := set_debounceInfo (insert k (with_queued q dbi)) wa) in *.
    destruct (IH w1 (with_queued q dbi)) as ((Ht & Hk) & ? & Hc'); try done.
    + unfold w1. simpl. by rewrite lookup_insert_eq.
    + intros x. simpl. unfold q. rewrite list_elem_of_filter. intros [Hne Hx].
      apply Hcover in Hx. simpl in Hx. apply elem_of_cons in Hx as [?|?]; done.
    + intros t tm. change (timersOf k w1) with (timersOf k wa).
      rewrite (fr_timers _ _ _ Hf). intros Ht. specialize (Hquiet _ _ Ht).
      change (now w1) with (now wa). lia.
    + simpl in *. split_and!; [done|done|by rewrite Hc'].
Qed.

(** C2. In a reachable world, [k] has a non-empty accumulating batch of
    generation [g].  Its observers unsubscribe, in any order and with any
    pauses, all of them before the timer of [k] is due (other keys'
    timers may fire meanwhile).  Then no call is made for [k] on the way;
    afterwards no timer of [k] is pending, the record of [k] is deleted if
    no generation is running and otherwise kept with an empty queue; and
    however much time passes from then on, no call is made for [k]. *)
Theorem C2_cancelled_batch_never_flushes delay k w dbi script :
  reachable delay w →
  debounceInfo w !! k = Some dbi →
  queuedObservers dbi ≠ [] →
  (∀ o, o ∈ queuedObservers dbi → o ∈ script.*2) →
  (∀ t tm, timersOf k w !! t = Some tm →
     now w + sum_list script.*1 < t_deadline tm) →
  let w' := cancelBatch k (currentGroupId dbi) script w in
  callsOf k w' = callsOf k w ∧
  timersOf k w' = ∅ ∧
  (runningSubscriptions dbi = ∅ → debounceInfo w' !! k = None) ∧
  (runningSubscriptions dbi ≠ ∅ →
     debounceInfo w' !! k = Some (with_queued [] dbi)) ∧
  (∀ d, callsOf k (advance d w') = callsOf k w).
Proof.
  intros Hr Hdbi Hq Hcover Hquiet. cbv zeta.
  apply reachable_Inv in Hr.
  destruct (cancelBatch_accumulating k script w dbi) as ((Ht & Hk) & HI & Hc);
    try done.
  split_and!; try done.
  - intros He. by rewrite Hk, decide_True.
  - intros He. by rewrite Hk, decide_False.
  - intros d. rewrite (fr_callsOf _ _ _ (advance_frame_idle k d _ Ht)). done.
Qed.

(** The test "does not make any query if you unsubscribe before interval
    is over": subscribe, wait 499 ms, unsubscribe, wait 501 ms. *)
Lemma C2_cancelled_batch_never_flushes_witness :
  let w' := cancelBatch "key1" 0 [(499, observerN 1)] oneQueued in
  debounceInfo w' !! "key1" = None ∧ callsOf "key1" (advance 501 w') = [].
Proof.
  pose proof (C2_cancelled_batch_never_flushes DEBOUNCE_TIMEOUT "key1" oneQueued
    {| timeout := Some 1; runningSubscriptions := ∅;
       queuedObservers := [observerN 1]; currentGroupId := 0;
       lastRequest := Some (keyedOp 1 "key1", 0) |}
    [(499, observerN 1)]) as H.
  cbv zeta in H. destruct H as (_ & _ & Hnone & _ & Hcalls).
  - apply (reachable_step _ (Execute _ _ _)), reachable_init.
  - reflexivity.
  - discriminate.
  - intros o. simpl. set_solver.
  - intros t tm Ht. apply timersOf_lookup in Ht as [Ht _].
    change (timers oneQueued) with
      ({[ 1 := {| t_key := "key1"; t_deadline := 500 |} ]} : gmap nat Timer) in Ht.
    apply lookup_singleton_Some in Ht as [_ <-]. change (0 + (499 + 0) < 500). lia.
  - intros w'. split; [apply Hnone; reflexivity|apply Hcalls].
Defined.

(** ** X16: a burst is coalesced into one call *)

Lemma submit_keyed k s w :
  debounceKey (sub_operation s) = Some k → k ≠ EmptyString → ¬ inherited k →
  submit s w =
    enqueued k (debounceTimeout (sub_operation s)) (sub_operation s)
      (sub_forward s) (sub_observer s) w.
Proof.
  intros Hk Hne Hown. unfold submit. rewrite (execute_keyed _ _ _ _ k) by done.
  rewrite decide_False; [done|]. by intros [? _].
Qed.

Lemma enqueued_timersOf k override operation forward observer w :
  Inv w →
  timersOf k (enqueued k override operation forward observer w) =
    {[ nextTimer w := {| t_key := k;
                         t_deadline := now w + effectiveDelay override w |} ]}.
Proof.
  intros HI. unfold timersOf, enqueued. simpl.
  rewrite map_filter_insert_True by done.
  rewrite <- insert_empty. f_equal. apply map_empty. intros t.
  apply eq_None_not_Some. intros [tm Htm].
  apply map_lookup_filter_Some in Htm as [Htm Hk]. simpl in Hk.
  assert (timers w !! t = Some tm ∧ timeout (recordOf k w) ≠ Some t) as [Htm0 Hold].
  { destruct (timeout (recordOf k w)) as [t0|]; simpl in Htm; [|done].
    apply lookup_delete_Some in Htm as [? ?]. split; congruence. }
  destruct (inv_timers _ HI _ _ Htm0) as (dbi' & Hdbi' & _ & Hto).
  apply Hold. unfold recordOf. rewrite <- Hk, Hdbi'. done.
Qed.

Lemma delayOf_frame s w w' : defaultDelay w' = defaultDelay w → delayOf s w' = delayOf s w.
Proof. intros H. unfold delayOf, effectiveDelay. by rewrite H. Qed.

(** While every submission comes before the timer armed by the one
    before it is due, observers accumulate and nothing is forwarded. *)
Lemma burst_accumulates k pre w :
  Inv w → k ≠ EmptyString → ¬ inherited k →
  Forall (λ p, debounceKey (sub_operation p.1) = Some k ∧ p.2 < delayOf p.1 w) pre →
  let w' := burst pre w in
  Inv w' ∧ defaultDelay w' = defaultDelay w ∧
  callsOf k w' = callsOf k w ∧
  queuedObservers (recordOf k w') =
    queuedObservers (recordOf k w) ++ (sub_observer <$> pre.*1) ∧
  currentGroupId (recordOf k w') = currentGroupId (recordOf k w) ∧
  runningSubscriptions (recordOf k w') = runningSubscriptions (recordOf k w).
Proof.
  intros HI Hne Hown. revert w HI. induction pre as [|[s gap] pre IH]; intros w HI Hall.
  { cbv zeta. simpl. by rewrite app_nil_r. }
  apply Forall_cons in Hall as [[Hk Hgap] Hall]. simpl in Hk, Hgap.
  cbv zeta. unfold burst. simpl. fold (burst pre (advance gap (submit s w))).
  pose proof (execute_Inv (sub_operation s) (sub_forward s) (sub_observer s) w HI)
    as HI1. fold (submit s w) in HI1.
  pose proof (submit_keyed k s w Hk Hne Hown) as Hs.
  destruct (advance_frame k gap (submit s w)) as [Hf Hn].
  { intros t tm. rewrite Hs, enqueued_timersOf by done.
    intros [_ <-]%lookup_singleton_Some. simpl. unfold delayOf in Hgap. lia. }
  set (w2 := advance gap (submit s w)) in *.
  assert (defaultDelay w2 = defaultDelay w) as Hd.
  { rewrite (fr_defaultDelay _ _ _ Hf), Hs. done. }
  destruct (IH w2) as (HI' & Hd' & Hc' & Hq' & Hg' & Hr').
  { by apply advance_Inv. }
  { eapply Forall_impl; [exact Hall|]. intros p [? ?]. split; [done|].
    by rewrite (delayOf_frame _ _ _ Hd). }
  assert (recordOf k w2 =
    {| timeout := Some (nextTimer w);
       runningSubscriptions := runningSubscriptions (recordOf k w);
       queuedObservers := queuedObservers (recordOf k w) ++ [sub_observer s];
       currentGroupId := currentGroupId (recordOf k w);
       lastRequest := Some (sub_operation s, sub_forward s) |}) as Hrec.
  { unfold recordOf at 1. rewrite (fr_info _ _ _ Hf), Hs. unfold enqueued. simpl.
    by rewrite lookup_insert_eq. }
  rewrite Hrec in Hq', Hg', Hr'. simpl in Hq', Hg', Hr'.
  split_and!; try done.
  - congruence.
  - rewrite Hc', (fr_callsOf _ _ _ Hf), Hs. done.
  - rewrite Hq'. simpl. by rewrite <- app_assoc.
Qed.

(** X16. In a reachable world, submissions arrive for one key [k] that
    is not the name of an inherited member, each ([pre]) before the timer
    armed by the previous one is due, and after the last one the window
    elapses ([wait]); the delays are delays the host takes as given, and
    timers of other keys run whenever they are due.  Then, over the whole
    run, exactly one call is
    made for [k], none while the burst lasts; it carries the operation and
    [forward] of the last submission; its handlers captured the observers
    that were queued, in the order they joined; and whatever that call
    then emits is dispatched event by event, each event to the observers
    in that order, so that every observer (each queued once) is called
    with the same sequence of events, as far as it has callbacks for
    them.  (Bursts of two or more submissions are those with [pre]
    non-empty.) *)
Theorem X16_burst_coalesces delay k w pre last wait :
  reachable delay w →
  k ≠ EmptyString →
  ¬ inherited k →
  Forall (λ p, debounceKey (sub_operation p.1) = Some k ∧
               hostDelay (delayOf p.1 w) ∧ p.2 < delayOf p.1 w) pre →
  debounceKey (sub_operation last) = Some k →
  hostDelay (delayOf last w) →
  delayOf last w ≤ wait →
  let w' := burst (pre ++ [(last, wait)]) w in
  let g := currentGroupId (recordOf k w) in
  let snapshot :=
    queuedObservers (recordOf k w) ++ (sub_observer <$> (pre.*1 ++ [last])) in
  let call :=
    {| c_operation := sub_operation last; c_forward := sub_forward last;
       c_handlers := Some {| h_key := k; h_group := g; h_observers := snapshot |} |} in
  callsOf k (burst pre w) = callsOf k w ∧
  (∀ early, early < delayOf last w →
     callsOf k (burst (pre ++ [(last, early)]) w) = callsOf k w) ∧
  callsOf k w' = callsOf k w ++ [call] ∧
  ∃ sub,
    calls w' !! sub = Some call ∧ (sub ∉ closed w') ∧
    (∃ dbi', debounceInfo w' !! k = Some dbi' ∧
       runningSubscriptions dbi' !! g =
         Some {| observers := snapshot; subscription := sub |} ∧
       queuedObservers dbi' = [] ∧ currentGroupId dbi' = S g) ∧
    ∀ evs,
      delivered (emits sub evs w') =
        delivered w' ++ concat (fanOut snapshot <$> effective evs) ∧
      (NoDup snapshot → ∀ o, o ∈ snapshot →
         received o (concat (fanOut snapshot <$> effective evs)) =
           filter (λ ev, handles ev o = true) (effective evs)).
Proof.
  intros Hr Hne Hown Hpre0 Hlast _ Hwait. cbv zeta. apply reachable_Inv in Hr.
  assert (Forall (λ p, debounceKey (sub_operation p.1) = Some k ∧ p.2 < delayOf p.1 w) pre)
    as Hpre by (eapply Forall_impl; [exact Hpre0|]; simpl; tauto).
  destruct (burst_accumulates k pre w Hr Hne Hown Hpre)
    as (HI1 & Hd1 & Hc1 & Hq1 & Hg1 & Hr1).
  split; [done|]. split.
  { intros early Hearly.
    destruct (burst_accumulates k (pre ++ [(last, early)]) w Hr Hne Hown)
      as (_ & _ & Hc & _); [|done].
    apply Forall_app. split; [done|]. apply Forall_singleton. done. }
  assert (burst (pre ++ [(last, wait)]) w = advance wait (submit last (burst pre w)))
    as -> by (unfold burst; by rewrite foldl_app).
  set (w1 := burst pre w) in *.
  pose proof (submit_keyed k last w1 Hlast Hne Hown) as Hs.
  pose proof (execute_Inv (sub_operation last) (sub_forward last) (sub_observer last)
                w1 HI1) as HI2. fold (submit last w1) in HI2.
  set (w2 := submit last w1) in *.
  set (dbi2 :=
    {| timeout := Some (nextTimer w1);
       runningSubscriptions := runningSubscriptions (recordOf k w1);
       queuedObservers := queuedObservers (recordOf k w1) ++ [sub_observer last];
       currentGroupId := currentGroupId (recordOf k w1);
       lastRequest := Some (sub_operation last, sub_forward last) |}).
  assert (debounceInfo w2 !! k = Some dbi2) as Hdbi2.
  { rewrite Hs. unfold enqueued. simpl. by rewrite lookup_insert_eq. }
  set (tm := {| t_key := k;
                t_deadline := now w1 + effectiveDelay (debounceTimeout (sub_operation last)) w1 |}).
  assert (timersOf k w2 = {[ nextTimer w1 := tm ]}) as Ht2.
  { rewrite Hs. by apply enqueued_timersOf. }
  destruct (advance_fires k wait w2 (nextTimer w1) tm) as (wa & Hfa & Hfb).
  { done. }
  { rewrite Hs. simpl. lia. }
  { rewrite Hs. simpl. rewrite <- (delayOf_frame last w w1) in Hwait by done.
    unfold delayOf in Hwait. lia. }
  set (w' := advance wait w2) in *.
  assert (timers wa !! nextTimer w1 = Some tm) as Hta.
  { apply (timersOf_lookup k). rewrite (fr_timers _ _ _ Hfa), Ht2.
    by rewrite lookup_singleton_eq. }
  assert (debounceInfo wa !! k = Some dbi2) as Hdbia
    by (by rewrite (fr_info _ _ _ Hfa)).
  assert (queuedObservers dbi2 =
    queuedObservers (recordOf k w) ++ (sub_observer <$> (pre.*1 ++ [last]))) as Hsnap.
  { simpl. rewrite Hq1, fmap_app, app_assoc. done. }
  set (call := {| c_operation := sub_operation last; c_forward := sub_forward last;
       c_handlers := Some {| h_key := k; h_group := currentGroupId (recordOf k w);
         h_observers := queuedObservers (recordOf k w) ++
                          (sub_observer <$> (pre.*1 ++ [last])) |} |}).
  assert (fire (nextTimer w1) wa =
    flushed k dbi2 (sub_operation last) (sub_forward last)
      (set_timers (delete (nextTimer w1)) wa)) as Hfire.
  { unfold fire. rewrite Hta. simpl t_key.
    rewrite (flush_go k _ dbi2 (sub_operation last) (sub_forward last)); try done.
    simpl. by destruct (queuedObservers (recordOf k w1)). }
  set (wb := fire (nextTimer w1) wa) in *.
  assert (calls wb = calls wa ++ [call]) as Hcalls.
  { rewrite Hfire. unfold flushed, call. simpl calls. rewrite <- Hsnap, <- Hg1. done. }
  assert (callsOf k wb = callsOf k w ++ [call]) as HcallsOf.
  { unfold callsOf at 1. rewrite Hcalls, filter_app.
    fold (callsOf k wa). rewrite (fr_callsOf _ _ _ Hfa).
    rewrite Hs.
    change (callsOf k (enqueued ?a ?b ?c ?d ?e w1)) with (callsOf k w1).
    rewrite Hc1. f_equal. by rewrite filter_cons_True. }
  split.
  { by rewrite (fr_callsOf _ _ _ Hfb). }
  exists (length (calls wa)). split_and!.
  - apply (prefix_lookup_Some (calls wb)); [|apply (fr_calls _ _ _ Hfb)].
    rewrite Hcalls. rewrite lookup_app_r by done. by rewrite Nat.sub_diag.
  - rewrite (fr_closed _ _ _ Hfb).
    assert (closed wb = closed wa) as -> by (by rewrite Hfire).
    rewrite (fr_closed _ _ _ Hfa). intros Hcl.
    apply (inv_closed _ HI2) in Hcl.
    pose proof (prefix_length _ _ (fr_calls _ _ _ Hfa)). lia.
  - eexists. split.
    + rewrite (fr_info _ _ _ Hfb), Hfire. unfold flushed. simpl.
      by rewrite lookup_insert_eq.
    + simpl. rewrite Hg1, lookup_insert_eq, <- Hsnap. done.
  - intros evs. split.
    + erewrite (emits_delivered _ _ _ call); cycle 1.
      * apply (prefix_lookup_Some (calls wb)); [|apply (fr_calls _ _ _ Hfb)].
        rewrite Hcalls. rewrite lookup_app_r by done. by rewrite Nat.sub_diag.
      * reflexivity.
      * rewrite (fr_closed _ _ _ Hfb).
        assert (closed wb = closed wa) as -> by (by rewrite Hfire).
        rewrite (fr_closed _ _ _ Hfa). intros Hcl.
        apply (inv_closed _ HI2) in Hcl.
        pose proof (prefix_length _ _ (fr_calls _ _ _ Hfa)). lia.
      * reflexivity.
    + intros Hnd o Ho. by apply received_fanOut_all.
Qed.

(** Three requests on ["key1"], 499 ms apart, then 501 ms of silence. *)
Lemma X16_burst_coalesces_witness :
  callsOf "key1"
    (burst [(submissionN 1, 499); (submissionN 2, 499); (submissionN 3, 501)]
       (init DEBOUNCE_TIMEOUT)) =
  [{| c_operation := keyedOp 3 "key1"; c_forward := 0;
      c_handlers := Some {| h_key := "key1"; h_group := 0;
                            h_observers := [observerN 1; observerN 2; observerN 3] |} |}].
Proof.
  pose proof (X16_burst_coalesces DEBOUNCE_TIMEOUT "key1" (init DEBOUNCE_TIMEOUT)
    [(submissionN 1, 499); (submissionN 2, 499)] (submissionN 3) 501) as H.
  cbv zeta in H. destruct H as (_ & _ & H & _).
  - apply reachable_init.
  - discriminate.
  - apply key1_own.
  - repeat (apply Forall_cons; split;
              [split; [reflexivity|split; [apply delay_500|change (499 < 500); lia]]|]).
    apply Forall_nil. done.
  - reflexivity.
  - apply delay_500.
  - change (500 ≤ 501). lia.
  - exact H.
Defined.

(** ** C1: coalescing, for every key? *)

(** C1, at the input where it fails.  Two requests with the key
    ["constructor"] arrive on a fresh link 499 ms apart, and 501 ms of
    silence follow.  The specification has exactly one call made, with the
    second request.  In the code, [enqueueRequest] throws at each of the
    two requests, each leaves the world as it was, and when the window has
    elapsed no call was made at all: nothing was queued, no timer was
    set, no observer was called. *)
Theorem C1_inherited_key_is_not_coalesced :
  let w := init DEBOUNCE_TIMEOUT in
  let w' := burst [(constructorN 1, 499); (constructorN 2, 501)] w in
  enqueueRequest "constructor" None (keyedOp 1 "constructor") 0 (observerN 1) w =
    Throw TypeError ∧
  submit (constructorN 1) w = w ∧
  submit (constructorN 2) (advance 499 w) = advance 499 w ∧
  now w' = 1000 ∧ calls w' = [] ∧ timers w' = ∅ ∧ debounceInfo w' = ∅ ∧
  delivered w' = [].
Proof. vm_compute. done. Qed.

(** ** The test-suite, run on the model *)

Example test_debounces_multiple_queries :
  let w := burst [(submissionN 1, 499); (submissionN 2, 499); (submissionN 3, 501)]
             (init DEBOUNCE_TIMEOUT) in
  length (calls w) = 1 ∧
  delivered (emits 0 [EvNext 3; EvComplete] w) =
    [(observerN 1, EvNext 3); (observerN 2, EvNext 3); (observerN 3, EvNext 3);
     (observerN 1, EvComplete); (observerN 2, EvComplete); (observerN 3, EvComplete)].
Proof. vm_compute. done. Qed.

Example test_does_not_debounce_outside_the_interval :
  let w := burst [(submissionN 1, 501)] (init DEBOUNCE_TIMEOUT) in
  let w := emits 0 [EvNext 1; EvComplete] w in
  let w := burst [(submissionN 2, 501)] w in
  c_operation <$> calls w = [keyedOp 1 "key1"; keyedOp 2 "key1"] ∧
  debounceInfo (emits 1 [EvNext 2; EvComplete] w) = ∅.
Proof. vm_compute. done. Qed.

Example test_runs_second_to_last_if_last_unsubscribed :
  let w := submit (submissionN 2) (submit (submissionN 1) (init DEBOUNCE_TIMEOUT)) in
  let w := unsubscribe "key1" 0 (observerN 2) (advance 499 w) in
  let w := emits 0 [EvNext 2; EvComplete] (advance 501 w) in
  length (calls w) = 1 ∧
  delivered w = [(observerN 1, EvNext 2); (observerN 1, EvComplete)].
Proof. vm_compute. done. Qed.

(** * More on the link *)

(** ** The further invariants hold in every reachable world *)

Lemma cleanup_lookup k g w k' dbi' :
  debounceInfo (cleanup k g w) !! k' = Some dbi' →
  ∃ dbi, debounceInfo w !! k' = Some dbi ∧
    ((k' ≠ k ∧ dbi' = dbi) ∨
     (k' = k ∧ dbi' = with_running (delete g (runningSubscriptions dbi)) dbi)).
Proof.
  intros Hk'. destruct (decide (k' = k)) as [->|Hne].
  - destruct (debounceInfo w !! k) as [dbi|] eqn:H.
    + rewrite (cleanup_same _ _ _ _ H) in Hk'.
      destruct (idleAfter g dbi); [done|]. injection Hk' as <-. eauto.
    + rewrite cleanup_absent in Hk' by done. congruence.
  - rewrite cleanup_other in Hk' by done. eauto.
Qed.

Lemma cleanup_requestKept k g w : requestKept w → requestKept (cleanup k g w).
Proof.
  intros H k' dbi' Hk'.
  destruct (cleanup_lookup _ _ _ _ _ Hk') as (dbi & Hdbi & [[_ ->]|[_ ->]]);
    simpl; eauto.
Qed.

Lemma cleanup_handlesFresh k g w : handlesFresh w → handlesFresh (cleanup k g w).
Proof.
  intros [H1 H2].
  destruct (cleanup_rest k g w) as (_ & _ & Hn & _). split.
  - intros t tm Ht. rewrite Hn. apply cleanup_timers_sub in Ht. eauto.
  - intros k' dbi' t Hk'. rewrite Hn.
    destruct (cleanup_lookup _ _ _ _ _ Hk') as (dbi & Hdbi & [[_ ->]|[_ ->]]);
      simpl; eauto.
Qed.

Lemma cleanup_handlesOwn k g w : handlesOwn w → handlesOwn (cleanup k g w).
Proof.
  intros H k' dbi' t tm Hk' Hto Ht. apply cleanup_timers_sub in Ht.
  destruct (cleanup_lookup _ _ _ _ _ Hk') as (dbi & Hdbi & [[_ ->]|[_ ->]]);
    simpl in *; eauto.
Qed.

Lemma cleanup_queueArmed k g w :
  queueArmed w → handlesOwn w →
  (∀ dbi, debounceInfo w !! k = Some dbi → g = currentGroupId dbi →
     queuedObservers dbi = []) →
  queueArmed (cleanup k g w).
Proof.
  intros Harmed Hown Hempty k' dbi' Hk' Hq.
  assert (∃ dbi, debounceInfo w !! k' = Some dbi ∧
            queuedObservers dbi = queuedObservers dbi' ∧ timeout dbi = timeout dbi')
    as (dbi & Hdbi & Hq' & Hto').
  { destruct (cleanup_lookup _ _ _ _ _ Hk') as (dbi & Hdbi & [[_ ->]|[_ ->]]); eauto. }
  rewrite <- Hq' in Hq. destruct (Harmed _ _ Hdbi Hq) as (t & Hto & [tm Ht]).
  exists t. split; [congruence|].
  destruct (debounceInfo w !! k) as [dbik|] eqn:Hk;
    [|rewrite cleanup_absent by done; eauto].
  rewrite (cleanup_timers _ _ _ _ Hk). case_decide as Hg; [|eauto].
  destruct (timeout dbik) as [t0|] eqn:Hto0; simpl; [|eauto].
  rewrite lookup_delete_ne; [eauto|]. intros <-.
  assert (k' = k) as ->.
  { rewrite <- (Hown _ _ _ _ Hdbi Hto Ht). by apply (Hown _ _ _ _ Hk Hto0 Ht). }
  rewrite Hk in Hdbi. injection Hdbi as <-. apply Hq. by apply Hempty.
Qed.

Lemma cleanup_callsTracked k g w :
  callsTracked w →
  (∀ sub c h, calls w !! sub = Some c → c_handlers c = Some h → sub ∉ closed w →
     ¬ (h_key h = k ∧ h_group h = g)) →
  callsTracked (cleanup k g w).
Proof.
  intros Htr Hnot sub c h.
  destruct (cleanup_rest k g w) as (_ & _ & _ & -> & -> & _).
  intros Hc Hh Hlive. destruct (Htr _ _ _ Hc Hh Hlive) as (dbi & og & Hdbi & Hog & Hsub).
  destruct (decide (h_key h = k)) as [Hk|Hne].
  - rewrite Hk in *. rewrite (cleanup_same _ _ _ _ Hdbi).
    assert (h_group h ≠ g) as Hg.
    { intros Hg. apply (Hnot _ _ _ Hc Hh Hlive). by rewrite Hk. }
    destruct (idleAfter g dbi) eqn:Hidle.
    + apply idleAfter_true in Hidle as [_ Hidle].
      assert (delete g (runningSubscriptions dbi) !! h_group h = Some og) as Hin
        by (by rewrite lookup_delete_ne).
      rewrite Hidle in Hin. by rewrite lookup_empty in Hin.
    + eexists _, og. split; [done|]. simpl. by rewrite lookup_delete_ne.
  - exists dbi, og. by rewrite cleanup_other.
Qed.

Lemma entryLive_same w w' k g og :
  closed w' = closed w → calls w' = calls w → entryLive w k g og → entryLive w' k g og.
Proof. unfold entryLive. by intros -> ->. Qed.

Lemma cleanup_runningLive k g w : runningLiveExcept k g w → runningLive (cleanup k g w).
Proof.
  intros Hl k' dbi' g' og' Hk' Hog'.
  destruct (cleanup_rest k g w) as (_ & _ & _ & Hcalls & Hclosed & _).
  apply (entryLive_same w); [done|done|].
  destruct (cleanup_lookup _ _ _ _ _ Hk') as (dbi & Hdbi & [[Hne ->]|[-> ->]]).
  - apply (Hl _ _ _ _ Hdbi Hog'). congruence.
  - simpl in Hog'. apply lookup_delete_Some in Hog' as [Hg Hog'].
    apply (Hl _ _ _ _ Hdbi Hog'). congruence.
Qed.

Lemma runningLive_except k g w : runningLive w → runningLiveExcept k g w.
Proof. intros H k' dbi g' og ? ? _. eauto. Qed.

(** Two entries that hold the same subscription are one entry. *)
Lemma entryLive_unique w k1 g1 og1 k2 g2 og2 :
  entryLive w k1 g1 og1 → entryLive w k2 g2 og2 →
  subscription og1 = subscription og2 → (k1, g1) = (k2, g2).
Proof.
  intros (_ & _ & c1 & h1 & Hc1 & Hh1 & <- & <- & _)
         (_ & _ & c2 & h2 & Hc2 & Hh2 & <- & <- & _) Heq.
  rewrite Heq in Hc1. congruence.
Qed.

Lemma emit_Coherent sub ev w : Coherent w → Coherent (emit sub ev w).
Proof.
  intros HC. pose proof (emit_Inv sub ev w (co_inv _ HC)) as HI.
  unfold emit in *. destruct (calls w !! sub) as [[cop cfwd [h|]]|] eqn:Hc; try done.
  case_decide as Hlive; [done|].
  destruct (co_tracked _ HC _ _ _ Hc eq_refl Hlive) as (dbi & og & Hdbi & Hog & Hsub).
  simpl in Hdbi, Hog.
  destruct (inv_running _ (co_inv _ HC) _ _ _ _ Hdbi Hog) as [Hbelow _].
  pose proof (co_live _ HC _ _ _ _ Hdbi Hog) as Hoglive.
  set (w2 := set_closed (λ s, {[sub]} ∪ s)
               (set_delivered (λ l, l ++ fanOut (h_observers h) ev) w)) in *.
  assert (Coherent (cleanup (h_key h) (h_group h) w2)) as Hterminal.
  { assert (∀ sub', sub' ∉ closed w2 → sub' ≠ sub ∧ sub' ∉ closed w) as Hcl.
    { intros sub'. unfold w2. simpl. rewrite elem_of_union, elem_of_singleton. tauto. }
    clear HI. destruct HC as [HI H1 H2 H3 H4 H5 H6].
    split.
    - apply cleanup_Inv. destruct HI as [I1 I2 I3 I4]. split; try done.
      intros c. unfold w2. simpl. rewrite elem_of_union, elem_of_singleton.
      intros [->|?]; [by eapply lookup_lt_Some|eauto].
    - by apply cleanup_requestKept.
    - by apply cleanup_handlesFresh.
    - by apply cleanup_handlesOwn.
    - apply cleanup_queueArmed; [done|done|]. intros dbi'. simpl.
      rewrite Hdbi. intros [= <-] Hg. lia.
    - apply cleanup_callsTracked.
      + intros sub' c' h' Hc' Hh' Hl'. apply Hcl in Hl' as [_ Hl']. by eapply H5.
      + intros sub' c' h' Hc' Hh' Hl' [Hk Hg]. apply Hcl in Hl' as [Hne Hl'].
        destruct (H5 _ _ _ Hc' Hh' Hl') as (dbi' & og' & Hdbi' & Hog' & Hsub').
        rewrite Hk, Hdbi in Hdbi'. injection Hdbi' as <-.
        rewrite Hg, Hog in Hog'. injection Hog' as <-. congruence.
    - apply cleanup_runningLive. intros k' dbi' g' og' Hdbi' Hog' Hne.
      pose proof (H6 _ _ _ _ Hdbi' Hog') as Hl'.
      destruct Hl' as (Hcl' & Hobs & Hcall). split_and!; try done.
      unfold w2. simpl. rewrite elem_of_union, elem_of_singleton.
      intros [Heq|?]; [|done]. apply Hne.
      apply (entryLive_unique w _ _ og' _ _ og); [by split_and!|done|congruence]. }
  destruct ev; [|exact Hterminal|exact Hterminal].
  destruct HC. by split.
Qed.

Lemma filter_ne_sublist (o : Observer) (l : list Observer) :
  filter (λ obs, obs ≠ o) l `sublist_of` l.
Proof. apply sublist_filter. Qed.

Lemma filter_ne_nil_inv (o : Observer) (l : list Observer) :
  filter (λ obs, obs ≠ o) l ≠ [] → l ≠ [].
Proof. by destruct l. Qed.

Lemma unsubscribe_Coherent k g o w : Coherent w → Coherent (unsubscribe k g o w).
Proof.
  intros HC. pose proof (unsubscribe_Inv k g o w (co_inv _ HC)) as HI.
  destruct (debounceInfo w !! k) as [dbi|] eqn:Hdbi;
    [|by rewrite unsubscribe_absent].
  destruct HC as [HI0 H1 H2 H3 H4 H5 H6].
  destruct (decide (g = currentGroupId dbi)) as [->|Hne].
  - revert HI. rewrite (unsubscribe_current _ _ _ _ Hdbi). cbv zeta.
    set (q := filter _ _).
    set (w1 := set_debounceInfo (insert k (with_queued q dbi)) w).
    assert (handlesFresh w1) as H2'.
    { destruct H2 as [H2a H2b]. split; [done|]. intros k' dbi' t. simpl.
      rewrite lookup_insert. case_decide as Hk; [|eauto].
      intros [= <-]. simpl. subst k'. eauto. }
    assert (handlesOwn w1) as H3'.
    { intros k' dbi' t tm. simpl. rewrite lookup_insert. case_decide as Hk; [|eauto].
      intros [= <-]. simpl. subst k'. eauto. }
    assert (callsTracked w1) as H5'.
    { intros sub c h Hc Hh Hl. destruct (H5 _ _ _ Hc Hh Hl) as (d & og & Hd & Hog & Hs).
      simpl. rewrite lookup_insert. case_decide as Hk; [|eauto].
      rewrite <- Hk, Hdbi in Hd. injection Hd as <-. eauto. }
    assert (runningLive w1) as H6'.
    { intros k' dbi' g' og'. simpl. rewrite lookup_insert. case_decide as Hk; [|eauto].
      intros [= <-]. simpl. subst k'. eauto. }
    destruct (length q =? 0) eqn:Hq; intros HI.
    + apply eqb_length_nil in Hq. split; try done.
      * apply cleanup_requestKept. intros k' dbi'. simpl.
        rewrite lookup_insert. case_decide as Hk; [|eauto].
        intros [= <-]. simpl. by rewrite Hq.
      * by apply cleanup_handlesFresh.
      * by apply cleanup_handlesOwn.
      * apply cleanup_queueArmed; [|done|].
        -- intros k' dbi'. simpl. rewrite lookup_insert. case_decide as Hk; [|eauto].
           intros [= <-]. simpl. by rewrite Hq.
        -- intros dbi'. simpl. rewrite lookup_insert_eq. by intros [= <-] _.
      * apply cleanup_callsTracked; [done|].
        intros sub c h Hc Hh Hl [Hk Hg].
        destruct (H5 _ _ _ Hc Hh Hl) as (d & og & Hd & Hog & Hs).
        rewrite Hk, Hdbi in Hd. injection Hd as <-.
        destruct (inv_running _ HI0 _ _ _ _ Hdbi Hog). lia.
      * apply cleanup_runningLive. by apply runningLive_except.
    + apply eqb_length_cons in Hq. split; try done.
      * intros k' dbi'. simpl. rewrite lookup_insert. case_decide as Hk; [|eauto].
        intros [= <-]. simpl. intros _. apply (H1 _ _ Hdbi).
        by apply (filter_ne_nil_inv o).
      * intros k' dbi'. simpl. rewrite lookup_insert. case_decide as Hk; [|eauto].
        intros [= <-]. simpl. intros _. apply (H4 _ _ Hdbi).
        by apply (filter_ne_nil_inv o).
  - destruct (runningSubscriptions dbi !! g) as [og|] eqn:Hog;
      [|rewrite (unsubscribe_stale _ _ _ _ _ Hdbi Hne Hog); by split].
    revert HI. rewrite (unsubscribe_running _ _ _ _ _ _ Hdbi Hne Hog). cbv zeta.
    set (r := filter _ _).
    set (og' := {| observers := r; subscription := subscription og |}).
    set (w1 := set_debounceInfo (insert k (with_running
                 (<[g := og']> (runningSubscriptions dbi)) dbi)) w).
    pose proof (H6 _ _ _ _ Hdbi Hog) as Hoglive.
    assert (requestKept w1) as H1'.
    { intros k' dbi'. simpl. rewrite lookup_insert. case_decide as Hk; [|eauto].
      intros [= <-]. simpl. subst k'. eauto. }
    assert (handlesFresh w1) as H2'.
    { destruct H2 as [H2a H2b]. split; [done|]. intros k' dbi' t. simpl.
      rewrite lookup_insert. case_decide as Hk; [|eauto].
      intros [= <-]. simpl. subst k'. eauto. }
    assert (handlesOwn w1) as H3'.
    { intros k' dbi' t tm. simpl. rewrite lookup_insert. case_decide as Hk; [|eauto].
      intros [= <-]. simpl. subst k'. eauto. }
    assert (queueArmed w1) as H4'.
    { intros k' dbi'. simpl. rewrite lookup_insert. case_decide as Hk; [|eauto].
      intros [= <-]. simpl. subst k'. eauto. }
    assert (callsTracked w1) as H5'.
    { intros sub c h Hc Hh Hl. destruct (H5 _ _ _ Hc Hh Hl) as (d & og1 & Hd & Hog1 & Hs).
      simpl. rewrite lookup_insert. case_decide as Hk; [|eauto].
      rewrite <- Hk, Hdbi in Hd. injection Hd as <-.
      destruct (decide (g = h_group h)) as [Hg|Hg].
      - eexists _, og'. split; [done|]. simpl. rewrite <- Hg, lookup_insert_eq.
        rewrite <- Hg, Hog in Hog1. injection Hog1 as <-. done.
      - eexists _, og1. split; [done|]. simpl. by rewrite lookup_insert_ne. }
    assert (runningLiveExcept k g w1) as H6'.
    { intros k' dbi' g' og1. simpl. rewrite lookup_insert. case_decide as Hk.
      - intros [= <-]. simpl. subst k'. rewrite lookup_insert. case_decide as Hg.
        + intros _ Hpair. congruence.
        + intros Hog1 _. by apply (H6 _ _ _ _ Hdbi).
      - intros Hd Hog1 _. by apply (H6 _ _ _ _ Hd). }
    destruct (length r =? 0) eqn:Hr; intros HI.
    + set (w2 := sub_unsubscribe (subscription og) w1) in *.
      assert (∀ sub', sub' ∉ closed w2 → sub' ≠ subscription og ∧ sub' ∉ closed w)
        as Hcl.
      { intros sub'. unfold w2. simpl. rewrite elem_of_union, elem_of_singleton. tauto. }
      split; try done.
      * by apply cleanup_requestKept.
      * by apply cleanup_handlesFresh.
      * by apply cleanup_handlesOwn.
      * apply cleanup_queueArmed; [done|done|].
        intros dbi'. simpl. rewrite lookup_insert_eq. intros [= <-]. simpl. done.
      * apply cleanup_callsTracked.
        -- intros sub' c' h' Hc' Hh' Hl'. apply Hcl in Hl' as [_ Hl']. by eapply H5'.
        -- intros sub' c' h' Hc' Hh' Hl' [Hk Hg]. apply Hcl in Hl' as [Hne' Hl'].
           destruct (H5 _ _ _ Hc' Hh' Hl') as (d & og1 & Hd & Hog1 & Hs).
           rewrite Hk, Hdbi in Hd. injection Hd as <-.
           rewrite Hg, Hog in Hog1. injection Hog1 as <-. congruence.
      * apply cleanup_runningLive. intros k' dbi' g' og1 Hd Hog1 Hpair.
        destruct (H6' _ _ _ _ Hd Hog1 Hpair) as (Hcl' & Hobs & Hcall).
        split_and!; try done.
        unfold w2. simpl. rewrite elem_of_union, elem_of_singleton.
        intros [Heq|?]; [|done]. apply Hpair.
        apply (entryLive_unique w _ _ og1 _ _ og); [by split_and!|done|done].
    + apply eqb_length_cons in Hr. split; try done.
      intros k' dbi' g' og1 Hd Hog1.
      destruct (decide ((k', g') = (k, g))) as [[= -> ->]|Hpair];
        [|by apply (H6' _ _ _ _ Hd Hog1)].
      revert Hd Hog1. simpl. rewrite lookup_insert_eq. intros [= <-]. simpl.
      rewrite lookup_insert_eq. intros [= <-].
      destruct Hoglive as (Hcl' & Hobs & c & h & Hc & Hh & Hk & Hg & Hsub).
      split_and!; try done. exists c, h. split_and!; try done.
      simpl. etrans; [apply filter_ne_sublist|done].
Qed.

Lemma fire_Coherent t w : Coherent w → Coherent (fire t w).
Proof.
  intros HC. pose proof (fire_Inv t w (co_inv _ HC)) as HI.
  unfold fire in *. destruct (timers w !! t) as [tm|] eqn:Ht; [|done].
  destruct (inv_timers _ (co_inv _ HC) _ _ Ht) as (dbi & Hdbi & Hq & Hto).
  destruct (co_request _ HC _ _ Hdbi Hq) as [[op fwd] Hl].
  set (k := t_key tm) in *.
  revert HI. rewrite (flush_go k _ dbi op fwd); [|done..]. intros HI.
  destruct HC as [HI0 H1 H2 H3 H4 H5 H6]. unfold flushed in *. split; try done.
  - intros k' dbi'. simpl. rewrite lookup_insert. case_decide as Hk; [|eauto].
    by intros [= <-].
  - destruct H2 as [H2a H2b]. split.
    + intros t' tm'. simpl. rewrite lookup_delete_Some. intros [_ ?]. eauto.
    + intros k' dbi' t'. simpl. rewrite lookup_insert. case_decide as Hk; [|eauto].
      intros [= <-]. simpl. eauto.
  - intros k' dbi' t' tm'. simpl. rewrite lookup_delete_Some.
    rewrite lookup_insert. case_decide as Hk.
    + intros [= <-]. simpl. subst k'. intros ? [_ ?]. eauto.
    + intros ? ? [_ ?]. eauto.
  - intros k' dbi'. simpl. rewrite lookup_insert. case_decide as Hk.
    { by intros [= <-]. }
    intros Hd Hq'. destruct (H4 _ _ Hd Hq') as (t' & Hto' & [tm' Ht']).
    exists t'. split; [done|]. rewrite lookup_delete_ne; [eauto|].
    intros <-. rewrite Ht in Ht'. injection Ht' as <-.
    apply Hk. by apply (H3 _ _ _ _ Hd Hto' Ht).
  - intros sub c h. simpl. intros Hc Hh Hlive.
    apply lookup_app_Some in Hc as [Hc|[Hlen Hc]].
    + destruct (H5 _ _ _ Hc Hh Hlive) as (d & og & Hd & Hog & Hs).
      rewrite lookup_insert. case_decide as Hk; [|eauto].
      rewrite <- Hk, Hdbi in Hd. injection Hd as <-.
      eexists _, og. split; [done|]. simpl. rewrite lookup_insert_ne; [done|].
      destruct (inv_running _ HI0 _ _ _ _ Hdbi Hog). lia.
    + apply list_lookup_singleton_Some in Hc as [Hz <-]. simpl in Hh.
      injection Hh as <-. simpl. rewrite lookup_insert_eq.
      eexists _, _. split; [done|]. simpl. rewrite lookup_insert_eq.
      split; [done|]. simpl. lia.
  - assert (∀ k' g' og', entryLive w k' g' og' →
              entryLive
                (set_debounceInfo (insert k
                   {| timeout := timeout dbi;
                      runningSubscriptions :=
                        <[currentGroupId dbi :=
                            {| observers := queuedObservers dbi;
                               subscription := length (calls w) |}]>
                          (runningSubscriptions dbi);
                      queuedObservers := [];
                      currentGroupId := S (currentGroupId dbi);
                      lastRequest := lastRequest dbi |})
                   (set_calls (λ l, l ++
                      [{| c_operation := op; c_forward := fwd;
                          c_handlers := Some {| h_key := k; h_group := currentGroupId dbi;
                                                h_observers := queuedObservers dbi |} |}])
                      (set_timers (delete t) w))) k' g' og') as Hkeep.
    { intros k' g' og' (Hcl & Hobs & c & h & Hc & Hh & Hrest).
      split_and!; try done. exists c, h. split; [|done]. simpl.
      by apply lookup_app_l_Some. }
    intros k' dbi' g' og'. simpl. rewrite lookup_insert. case_decide as Hk.
    + intros [= <-]. simpl. subst k'. rewrite lookup_insert. case_decide as Hg.
      * intros [= <-]. unfold entryLive. simpl. split_and!; try done.
        -- intros Hcl. apply (inv_closed _ HI0) in Hcl. lia.
        -- exists {| c_operation := op; c_forward := fwd;
                     c_handlers := Some {| h_key := k; h_group := currentGroupId dbi;
                                           h_observers := queuedObservers dbi |} |},
                  {| h_key := k; h_group := currentGroupId dbi;
                     h_observers := queuedObservers dbi |}.
           split_and!; try done.
           rewrite lookup_app_r by done. by rewrite Nat.sub_diag.
      * intros Hog'. apply Hkeep. eauto.
    + intros Hd Hog'. apply Hkeep. eauto.
Qed.

Lemma execute_Coherent operation forward observer w :
  Coherent w → Coherent (execute operation forward observer w).
Proof.
  intros HC.
  pose proof (execute_Inv operation forward observer w (co_inv _ HC)) as HI.
  destruct HC as [HI0 H1 H2 H3 H4 H5 H6].
  unfold execute, request, subscribe in *.
  assert (Inv (set_calls (λ l, l ++ [{| c_operation := operation; c_forward := forward;
                               c_handlers := None |}]) w) →
          Coherent (set_calls (λ l, l ++ [{| c_operation := operation;
                               c_forward := forward; c_handlers := None |}]) w))
    as Hpass.
  { intros HI'. split; try done.
    - intros sub c h. simpl. intros Hc Hh Hlive.
      apply lookup_app_Some in Hc as [Hc|[_ Hc]]; [eauto|].
      apply list_lookup_singleton_Some in Hc as [_ <-]. done.
    - intros k dbi g og Hd Hog.
      destruct (H6 _ _ _ _ Hd Hog) as (Hcl & Hobs & c & h & Hc & Hrest).
      split_and!; try done. exists c, h. split; [|done]. simpl.
      by apply lookup_app_l_Some. }
  destruct (debounceKey operation) as [key|]; [|by apply Hpass].
  destruct (noKey (Some key)); [by apply Hpass|].
  revert HI. enqueue_cases key w; [done|]. simpl. intros HI.
  assert (∀ t tm, timers (clearTimeout (timeout (recordOf key w)) w) !! t = Some tm →
            timers w !! t = Some tm ∧ timeout (recordOf key w) ≠ Some t) as Hclear.
  { intros t tm. destruct (timeout (recordOf key w)) as [t0|]; simpl; [|done].
    rewrite lookup_delete_Some. intros [? ?]. split; congruence. }
  destruct H2 as [H2a H2b].
  unfold enqueued in *. split; try done.
  - intros k dbi. simpl. rewrite lookup_insert. case_decide as Hk; [|eauto].
    intros [= <-]. simpl. eauto.
  - split.
    + intros t tm. simpl. rewrite lookup_insert. case_decide as Ht.
      * intros _. lia.
      * intros Htm. apply Hclear in Htm as [Htm _]. apply H2a in Htm. lia.
    + intros k dbi t. simpl. rewrite lookup_insert. case_decide as Hk.
      * intros [= <-]. simpl. intros [= <-]. lia.
      * intros Hd Hto. pose proof (H2b _ _ _ Hd Hto). lia.
  - intros k dbi t tm. simpl. rewrite lookup_insert. case_decide as Hk.
    + intros [= <-]. simpl. intros [= <-]. rewrite lookup_insert_eq.
      by intros [= <-].
    + intros Hd Hto. pose proof (H2b _ _ _ Hd Hto).
      rewrite lookup_insert_ne by lia. intros Htm.
      apply Hclear in Htm as [Htm _]. eauto.
  - intros k dbi. simpl. rewrite lookup_insert. case_decide as Hk.
    + intros [= <-]. simpl. intros _. eexists. split; [done|].
      rewrite lookup_insert_eq. eauto.
    + intros Hd Hq. destruct (H4 _ _ Hd Hq) as (t & Hto & [tm Htm]).
      exists t. split; [done|]. pose proof (H2b _ _ _ Hd Hto).
      rewrite lookup_insert_ne by lia.
      destruct (timeout (recordOf key w)) as [t0|] eqn:Hto0; simpl; [|eauto].
      rewrite lookup_delete_ne; [eauto|]. intros <-.
      unfold recordOf in Hto0.
      destruct (debounceInfo w !! key) as [dk|] eqn:Hdk; simpl in Hto0; [|done].
      apply Hk. rewrite <- (H3 _ _ _ _ Hd Hto Htm). symmetry.
      by apply (H3 _ _ _ _ Hdk Hto0 Htm).
  - intros sub c h Hc Hh Hlive. simpl in *.
    destruct (H5 _ _ _ Hc Hh Hlive) as (d & og & Hd & Hog & Hs).
    rewrite lookup_insert. case_decide as Hk; [|eauto].
    eexists _, og. split; [done|]. simpl. unfold recordOf.
    rewrite Hk, Hd. done.
  - intros k dbi g og. simpl. rewrite lookup_insert. case_decide as Hk; [|eauto].
    intros [= <-]. simpl. subst k. unfold recordOf.
    destruct (debounceInfo w !! key) as [dk|] eqn:Hdk; simpl; [eauto|].
    by rewrite lookup_empty.
Qed.

Lemma init_Coherent delay : Coherent (init delay).
Proof.
  split.
  - apply init_Inv.
  - intros k dbi H. simpl in H. by rewrite lookup_empty in H.
  - split.
    + intros t tm H. simpl in H. by rewrite lookup_empty in H.
    + intros k dbi t H. simpl in H. by rewrite lookup_empty in H.
  - intros k dbi t tm H. simpl in H. by rewrite lookup_empty in H.
  - intros k dbi H. simpl in H. by rewrite lookup_empty in H.
  - intros sub c h H. simpl in H. by rewrite lookup_nil in H.
  - intros k dbi g og H. simpl in H. by rewrite lookup_empty in H.
Qed.

Lemma step_Coherent a w : Coherent w → Coherent (step a w).
Proof.
  intros HC. destruct a; simpl.
  - by apply execute_Coherent.
  - by apply fire_Coherent.
  - destruct HC as [HI H1 H2 H3 H4 H5 H6]. split; try done. by destruct HI.
  - by apply emit_Coherent.
  - by apply unsubscribe_Coherent.
Qed.

Lemma reachable_Coherent delay w : reachable delay w → Coherent w.
Proof. induction 1; [apply init_Coherent|by apply step_Coherent]. Qed.

Lemma advance_Coherent d w : Coherent w → Coherent (advance d w).
Proof.
  assert (∀ l w, Coherent w → Coherent (foldl fire_if_due w l)) as Hfold.
  { induction l as [|t l IH]; intros w0 HI; [done|]. simpl. apply IH.
    unfold fire_if_due. destruct (timers w0 !! t); [|done].
    case_decide; [by apply fire_Coherent|done]. }
  revert w. induction d as [|d IH]; intros w HI; simpl.
  - by apply Hfold.
  - apply IH. apply (step_Coherent Tick). by apply Hfold.
Qed.

(** ** The fixtures are reachable *)

Lemma oneQueued_reachable : reachable DEBOUNCE_TIMEOUT oneQueued.
Proof. apply (reachable_step _ (Execute _ _ _)), reachable_init. Qed.

Lemma oneRunning_reachable : reachable DEBOUNCE_TIMEOUT oneRunning.
Proof. apply (reachable_step _ (Fire 1)), oneQueued_reachable. Qed.

Lemma twoRunning_reachable : reachable DEBOUNCE_TIMEOUT twoRunning.
Proof.
  apply (reachable_step _ (Fire 2)), (reachable_step _ (Execute _ _ _)),
    oneQueued_reachable.
Qed.

(** ** X1: a key has a pending timer exactly while its queue is non-empty *)

(** X1. In every reachable world: a key whose queue is empty (or that
    has no record) has no pending timer; a key whose queue is non-empty
    has exactly one, the one its record remembers in [timeout], and it has
    a request to forward.  So a batch that was accepted is always
    scheduled, and never twice. *)
Theorem X1_timer_iff_queue delay k w :
  reachable delay w →
  (queuedObservers (recordOf k w) = [] → timersOf k w = ∅) ∧
  (queuedObservers (recordOf k w) ≠ [] →
     ∃ t tm, timeout (recordOf k w) = Some t ∧ timersOf k w = {[ t := tm ]} ∧
             is_Some (lastRequest (recordOf k w))).
Proof.
  intros Hr. apply reachable_Coherent in Hr. split.
  - intros Hq. apply map_empty. intros t. apply eq_None_not_Some. intros [tm Ht].
    apply timersOf_lookup in Ht as [Ht <-].
    destruct (inv_timers _ (co_inv _ Hr) _ _ Ht) as (dbi & Hdbi & Hq' & _).
    unfold recordOf in Hq. rewrite Hdbi in Hq. done.
  - intros Hq. unfold recordOf in *.
    destruct (debounceInfo w !! k) as [dbi|] eqn:Hdbi; simpl in *; [|done].
    destruct (co_armed _ Hr _ _ Hdbi Hq) as (t & Hto & [tm Ht]).
    exists t, tm. split_and!; [done| |by apply (co_request _ Hr _ _ Hdbi)].
    pose proof (co_own _ Hr _ _ _ _ Hdbi Hto Ht) as Hk.
    apply map_eq. intros t'. destruct (timersOf k w !! t') as [tm'|] eqn:Ht'.
    + apply timersOf_lookup in Ht' as [Ht' Hk'].
      destruct (inv_timers _ (co_inv _ Hr) _ _ Ht') as (dbi' & Hdbi' & _ & Hto').
      rewrite Hk', Hdbi in Hdbi'. injection Hdbi' as <-.
      assert (t' = t) as -> by congruence.
      rewrite lookup_singleton_eq. congruence.
    + destruct (decide (t' = t)) as [->|Hne]; [|by rewrite lookup_singleton_ne].
      assert (timersOf k w !! t = Some tm) as Hin by (by apply timersOf_lookup).
      congruence.
Qed.

Lemma X1_timer_iff_queue_witness :
  timersOf "key1" (init DEBOUNCE_TIMEOUT) = ∅ ∧
  ∃ t tm, timeout (recordOf "key1" oneQueued) = Some t ∧
          timersOf "key1" oneQueued = {[ t := tm ]} ∧
          is_Some (lastRequest (recordOf "key1" oneQueued)).
Proof.
  split.
  - apply (proj1 (X1_timer_iff_queue DEBOUNCE_TIMEOUT "key1" (init DEBOUNCE_TIMEOUT)
                    (reachable_init _))). reflexivity.
  - apply (proj2 (X1_timer_iff_queue DEBOUNCE_TIMEOUT "key1" oneQueued
                    oneQueued_reachable)).
    discriminate.
Defined.

(** ** X2: running generations and open calls correspond *)

(** X2. In every reachable world the entries of [runningSubscriptions]
    and the open calls of the link are the same thing.  Each entry, filed
    under key [k] and generation [g], is older than the live generation,
    holds a call that is open and was subscribed by [flush] for [k] and
    [g], and has at least one observer left, its observers being among
    those captured at the flush, in the same order.  And each open call
    that [flush] subscribed to is held by the entry of its key and
    generation: no call is lost track of, none is kept after it ended. *)
Theorem X2_running_entries_are_open_calls delay w :
  reachable delay w →
  (∀ k dbi g og, debounceInfo w !! k = Some dbi →
     runningSubscriptions dbi !! g = Some og →
     g < currentGroupId dbi ∧ (subscription og ∉ closed w) ∧ observers og ≠ [] ∧
     ∃ c h, calls w !! subscription og = Some c ∧ c_handlers c = Some h ∧
            h_key h = k ∧ h_group h = g ∧
            observers og `sublist_of` h_observers h) ∧
  (∀ sub c h, calls w !! sub = Some c → c_handlers c = Some h → sub ∉ closed w →
     ∃ dbi og, debounceInfo w !! h_key h = Some dbi ∧
               runningSubscriptions dbi !! h_group h = Some og ∧
               subscription og = sub).
Proof.
  intros Hr. apply reachable_Coherent in Hr. split.
  - intros k dbi g og Hdbi Hog. split.
    + by destruct (inv_running _ (co_inv _ Hr) _ _ _ _ Hdbi Hog).
    + apply (co_live _ Hr _ _ _ _ Hdbi Hog).
  - apply (co_tracked _ Hr).
Qed.

Lemma X2_running_entries_are_open_calls_witness :
  ∃ dbi og, debounceInfo twoRunning !! "key1" = Some dbi ∧
            runningSubscriptions dbi !! 0 = Some og ∧ subscription og = 0.
Proof.
  destruct (X2_running_entries_are_open_calls DEBOUNCE_TIMEOUT twoRunning
              twoRunning_reachable) as [_ H].
  apply (H 0
    {| c_operation := keyedOp 2 "key1"; c_forward := 0;
       c_handlers := Some {| h_key := "key1"; h_group := 0;
                             h_observers := [observerN 1; observerN 2] |} |}
    {| h_key := "key1"; h_group := 0; h_observers := [observerN 1; observerN 2] |}).
  - reflexivity.
  - reflexivity.
  - vm_compute. set_solver.
Defined.

(** ** X3: keys do not interfere *)

Lemma timersOf_clearTimeout_other k k0 w dbi :
  handlesOwn w → debounceInfo w !! k0 = Some dbi → k0 ≠ k →
  timersOf k (clearTimeout (timeout dbi) w) = timersOf k w.
Proof.
  intros Hown Hdbi Hne. rewrite timersOf_clearTimeout.
  destruct (timeout dbi) as [t|] eqn:Hto; [|done].
  apply delete_id. apply eq_None_not_Some. intros [tm Htm].
  apply timersOf_lookup in Htm as [Htm Hk].
  apply Hne. rewrite <- Hk. symmetry. by apply (Hown _ _ _ _ Hdbi Hto Htm).
Qed.

Lemma cleanup_timersOf_other k k0 g w :
  handlesOwn w → k0 ≠ k → timersOf k (cleanup k0 g w) = timersOf k w.
Proof.
  intros Hown Hne. destruct (debounceInfo w !! k0) as [dbi|] eqn:Hdbi;
    [|by rewrite cleanup_absent].
  rewrite (cleanup_timersOf _ _ _ _ _ Hdbi). case_decide; [|done].
  by apply (timersOf_clearTimeout_other _ k0).
Qed.

Lemma unsubscribe_other k k0 g o w :
  handlesOwn w → k0 ≠ k →
  debounceInfo (unsubscribe k0 g o w) !! k = debounceInfo w !! k ∧
  timersOf k (unsubscribe k0 g o w) = timersOf k w.
Proof.
  intros Hown Hne. unfold unsubscribe.
  destruct (debounceInfo w !! k0) as [dbi|] eqn:Hdbi; [|done].
  assert (∀ d, timeout d = timeout dbi →
            handlesOwn (set_debounceInfo (insert k0 d) w)) as Hown'.
  { intros d Hd k' dbi' t tm. simpl. rewrite lookup_insert. case_decide as Hk; [|eauto].
    intros [= <-]. rewrite Hd. subst k'. eauto. }
  case_decide.
  - case_match.
    + rewrite cleanup_other by done. rewrite cleanup_timersOf_other; [|by apply Hown'|done].
      simpl. by rewrite lookup_insert_ne.
    + simpl. by rewrite lookup_insert_ne.
  - destruct (runningSubscriptions dbi !! g) as [og|]; [|done].
    case_match.
    + rewrite cleanup_other by done.
      rewrite cleanup_timersOf_other; [|by apply (Hown' (with_running _ dbi))|done].
      simpl. by rewrite lookup_insert_ne.
    + simpl. by rewrite lookup_insert_ne.
Qed.

(** X3. In a reachable world, an event about another key (a request with
    another key or with none, another key's timer firing, an event of a
    call made for another key, an unsubscription from another key), or
    the clock ticking, leaves the record of [k], the pending timers of [k]
    and the calls made for [k] exactly as they were. *)
Theorem X3_keys_do_not_interfere delay k a w :
  reachable delay w →
  actionKey a w ≠ Some k →
  debounceInfo (step a w) !! k = debounceInfo w !! k ∧
  timersOf k (step a w) = timersOf k w ∧
  callsOf k (step a w) = callsOf k w.
Proof.
  intros Hr Hkey. apply reachable_Coherent in Hr.
  destruct a as [op fwd o|t| |sub ev|[k0 g o]]; simpl in *.
  - unfold execute, request, subscribe.
    assert (∀ c, c_handlers c = None →
      debounceInfo (set_calls (λ l, l ++ [c]) w) !! k = debounceInfo w !! k ∧
      timersOf k (set_calls (λ l, l ++ [c]) w) = timersOf k w ∧
      callsOf k (set_calls (λ l, l ++ [c]) w) = callsOf k w) as Hpass.
    { intros c Hc. split_and!; try done. rewrite callsOf_app.
      rewrite decide_False; [by rewrite app_nil_r|]. unfold isCallOf. by rewrite Hc. }
    destruct (debounceKey op) as [key|]; [|by apply Hpass].
    destruct (noKey (Some key)); [by apply Hpass|].
    assert (key ≠ k) as Hne by congruence.
    enqueue_cases key w; [done|]. simpl. split_and!.
    + by rewrite lookup_insert_ne.
    + unfold timersOf, enqueued. simpl.
      rewrite map_filter_insert_False by done.
      rewrite map_filter_delete, delete_id.
      * fold (timersOf k (clearTimeout (timeout (recordOf key w)) w)).
        unfold recordOf.
        destruct (debounceInfo w !! key) as [dk|] eqn:Hdk; simpl; [|done].
        by apply (timersOf_clearTimeout_other _ key _ _ (co_own _ Hr)).
      * apply eq_None_not_Some. intros [tm Htm].
        apply map_lookup_filter_Some in Htm as [Htm _].
        assert (timers w !! nextTimer w = Some tm) as Htm'.
        { destruct (timeout (recordOf key w)); simpl in Htm; [|done].
          by apply lookup_delete_Some in Htm as [_ ?]. }
        apply (proj1 (co_fresh _ Hr)) in Htm'. lia.
    + done.
  - destruct (timers w !! t) as [tm|] eqn:Ht.
    + simpl in Hkey.
      destruct (fire_other k t w tm Ht) as [H1 H2 H3 _ _ _ _ _]; [congruence|done].
    + by rewrite fire_absent.
  - done.
  - unfold emit. destruct (calls w !! sub) as [[cop cfwd [h|]]|]; try done.
    simpl in Hkey. assert (h_key h ≠ k) as Hne by congruence.
    case_decide; [done|].
    destruct ev; [done| |];
      (split_and!;
       [by rewrite cleanup_other
       |rewrite cleanup_timersOf_other; [done|apply (co_own _ Hr)|done]
       |unfold callsOf;
        match goal with |- context [cleanup ?a ?b ?x] =>
          destruct (cleanup_rest a b x) as (_ & _ & _ & -> & _) end; done]).
  - unfold cancel. simpl. assert (k0 ≠ k) as Hne by congruence.
    destruct (unsubscribe_other k k0 g o w (co_own _ Hr) Hne) as [H1 H2].
    split_and!; try done. unfold callsOf.
    by destruct (unsubscribe_rest k0 g o w) as (_ & _ & _ & -> & _).
Qed.

Lemma X3_keys_do_not_interfere_witness :
  debounceInfo (step (Execute (keyedOp 5 "key2") 0 (observerN 5)) oneQueued) !! "key1"
    = debounceInfo oneQueued !! "key1" ∧
  timersOf "key1" (step (Execute (keyedOp 5 "key2") 0 (observerN 5)) oneQueued)
    = timersOf "key1" oneQueued.
Proof.
  destruct (X3_keys_do_not_interfere DEBOUNCE_TIMEOUT "key1"
              (Execute (keyedOp 5 "key2") 0 (observerN 5)) oneQueued
              oneQueued_reachable) as (H1 & H2 & _).
  - discriminate.
  - split; [exact H1|exact H2].
Defined.

(** ** X4: who is called, and when *)

Lemma execute_delivered operation forward observer w :
  delivered (execute operation forward observer w) = delivered w.
Proof.
  unfold execute, request, subscribe.
  destruct (debounceKey operation) as [key|]; [|done].
  destruct (noKey (Some key)); [done|]. by enqueue_cases key w.
Qed.

Lemma fire_delivered t w : delivered (fire t w) = delivered w.
Proof.
  unfold fire. destruct (timers w !! t) as [tm|]; [|done].
  destruct (flush_cases (t_key tm) (set_timers (delete t) w))
    as [[-> _]|[[-> _]|(dbi & op & fwd & _ & _ & _ & ->)]]; done.
Qed.

(** X4. The link calls observers in one situation only: when a call it
    subscribed to, and that is still open, emits.  It then calls, for that
    one event, observers captured by that call's handlers, and only their
    callback for that kind of event.  A request, a timer firing, the clock
    and an unsubscription call nobody. *)
Theorem X4_only_open_calls_notify a w :
  ∃ l, delivered (step a w) = delivered w ++ l ∧
    ∀ o ev, (o, ev) ∈ l →
      ∃ sub c h, a = Emit sub ev ∧ calls w !! sub = Some c ∧
        c_handlers c = Some h ∧ (sub ∉ closed w) ∧
        o ∈ h_observers h ∧ handles ev o = true.
Proof.
  assert (∀ w', delivered w' = delivered w →
    ∃ l, delivered w' = delivered w ++ l ∧
      ∀ o ev, (o, ev) ∈ l →
        ∃ sub c h, a = Emit sub ev ∧ calls w !! sub = Some c ∧
          c_handlers c = Some h ∧ (sub ∉ closed w) ∧
          o ∈ h_observers h ∧ handles ev o = true) as Hnone.
  { intros w' Hw'. exists []. rewrite app_nil_r. split; [done|].
    intros o ev Hin. by apply elem_of_nil in Hin. }
  destruct a as [op fwd o|t| |sub ev|[k0 g o]]; simpl.
  - apply Hnone, execute_delivered.
  - apply Hnone, fire_delivered.
  - by apply Hnone.
  - unfold emit. destruct (calls w !! sub) as [[cop cfwd [h|]]|] eqn:Hc;
      try by apply Hnone.
    case_decide as Hlive; [by apply Hnone|].
    exists (fanOut (h_observers h) ev). split.
    + destruct ev; [done| |];
        match goal with |- context [cleanup ?a ?b ?x] =>
          destruct (cleanup_rest a b x) as (_ & _ & _ & _ & _ & _ & ->) end; done.
    + intros o ev' Hin. unfold fanOut in Hin.
      apply list_elem_of_fmap in Hin as (o' & [= -> ->] & Hin).
      apply list_elem_of_filter in Hin as [Hh Hin].
      eexists sub, _, h. split_and!; try done.
  - apply Hnone. unfold cancel. simpl.
    by destruct (unsubscribe_rest k0 g o w) as (_ & _ & _ & _ & ->).
Qed.

(** ** X5: the delay of the last request wins *)

(** X5. In a reachable world, take a request with a key [k] that is not
    the name of an inherited member, and whose delay (its own
    [debounceTimeout] if that is given and not zero, the link's default
    delay otherwise) is one the host takes as given.  It leaves [k] with
    exactly one pending timer, a new one, due that delay from now.
    Whatever timer [k] had before is gone, and no call is made yet. *)
Theorem X5_request_rearms_timer delay operation forward observer k w :
  reachable delay w →
  debounceKey operation = Some k → k ≠ EmptyString → ¬ inherited k →
  let d := match debounceTimeout operation with
           | Some 0 | None => defaultDelay w
           | Some d => d
           end in
  hostDelay d →
  let w' := execute operation forward observer w in
  timersOf k w' = {[ nextTimer w := {| t_key := k; t_deadline := now w + d |} ]} ∧
  timeout (recordOf k w') = Some (nextTimer w) ∧
  calls w' = calls w.
Proof.
  intros Hr Hk Hne Hown d _. subst d. cbv zeta. apply reachable_Inv in Hr.
  pose proof (submit_keyed k
    {| sub_operation := operation; sub_forward := forward; sub_observer := observer |}
    w Hk Hne Hown) as Hs.
  unfold submit in Hs. simpl in Hs. rewrite Hs. split_and!.
  - rewrite enqueued_timersOf by done. unfold effectiveDelay.
    by destruct (debounceTimeout operation) as [[|n]|].
  - unfold recordOf, enqueued. simpl. by rewrite lookup_insert_eq.
  - done.
Qed.

Lemma X5_request_rearms_timer_witness :
  timersOf "key1" (execute (keyedOp 2 "key1") 0 (observerN 2) oneQueued) =
    {[ 2 := {| t_key := "key1"; t_deadline := 500 |} ]}.
Proof.
  pose proof (X5_request_rearms_timer DEBOUNCE_TIMEOUT (keyedOp 2 "key1") 0
                (observerN 2) "key1" oneQueued oneQueued_reachable eq_refl) as H.
  cbv zeta in H. destruct H as (H & _); [discriminate|apply key1_own|apply delay_500|].
  exact H.
Defined.

(** ** X6: time runs exactly the timers that are due *)

Lemma fire_timers t w : timers (fire t w) = delete t (timers w).
Proof.
  unfold fire. destruct (timers w !! t) as [tm|] eqn:Ht.
  - destruct (flush_cases (t_key tm) (set_timers (delete t) w))
      as [[-> _]|[[-> _]|(dbi & op & fwd & _ & _ & _ & ->)]]; done.
  - symmetry. by apply delete_id.
Qed.

Lemma fire_if_due_timers w t0 t tm :
  timers (fire_if_due w t0) !! t = Some tm ↔
  timers w !! t = Some tm ∧ ¬ (t = t0 ∧ t_deadline tm ≤ now w).
Proof.
  unfold fire_if_due. destruct (timers w !! t0) as [tm0|] eqn:Ht0.
  - case_decide as Hdue.
    + rewrite fire_timers, lookup_delete_Some. split.
      * intros [Hne Ht]. split; [done|]. intros [? _]. congruence.
      * intros [Ht Hnot]. split; [|done]. intros <-. apply Hnot.
        split; [done|]. congruence.
    + split; [|tauto]. intros Ht. split; [done|]. intros [-> ?].
      assert (tm = tm0) as -> by congruence. lia.
  - split; [|tauto]. intros Ht. split; [done|]. intros [-> _]. congruence.
Qed.

Lemma foldl_fire_timers l w t tm :
  timers (foldl fire_if_due w l) !! t = Some tm ↔
  timers w !! t = Some tm ∧ ¬ (t ∈ l ∧ t_deadline tm ≤ now w).
Proof.
  revert w. induction l as [|t0 l IH]; intros w; simpl.
  - split; [|tauto]. intros Ht. split; [done|]. by intros [?%elem_of_nil _].
  - rewrite IH, fire_if_due_timers, fire_if_due_now, elem_of_cons. tauto.
Qed.

Lemma run_due_now w : now (run_due w) = now w.
Proof.
  unfold run_due. generalize (seq 0 (nextTimer w)). intros l. revert w.
  induction l as [|t l IH]; intros w; [done|]. simpl.
  by rewrite IH, fire_if_due_now.
Qed.

Lemma advance_now d w : now (advance d w) = now w + d.
Proof.
  revert w. induction d as [|d IH]; intros w; simpl.
  - rewrite run_due_now. lia.
  - rewrite IH. simpl. rewrite run_due_now. lia.
Qed.

Lemma run_due_timers w t tm :
  handlesFresh w →
  timers (run_due w) !! t = Some tm ↔ timers w !! t = Some tm ∧ now w < t_deadline tm.
Proof.
  intros [Hfresh _]. unfold run_due. rewrite foldl_fire_timers. split.
  - intros [Ht Hnot]. split; [done|].
    destruct (decide (now w < t_deadline tm)); [done|]. exfalso. apply Hnot.
    split; [|lia]. apply elem_of_seq. apply Hfresh in Ht. lia.
  - intros [Ht Hlt]. split; [done|]. intros [_ ?]. lia.
Qed.

Lemma run_due_Coherent w : Coherent w → Coherent (run_due w).
Proof. apply (advance_Coherent 0). Qed.

Lemma advance_timers d w t tm :
  Coherent w →
  timers (advance d w) !! t = Some tm ↔
  timers w !! t = Some tm ∧ now w + d < t_deadline tm.
Proof.
  revert w. induction d as [|d IH]; intros w HC; simpl.
  - rewrite run_due_timers by apply (co_fresh _ HC).
    by replace (now w + 0) with (now w) by lia.
  - rewrite IH by (apply (step_Coherent Tick); by apply run_due_Coherent).
    change (timers (tick (run_due w))) with (timers (run_due w)).
    rewrite run_due_timers by apply (co_fresh _ HC).
    simpl. rewrite run_due_now.
    split; [intros [[? ?] ?]|intros [? ?]]; split_and!; (done || lia).
Qed.

(** X6. Starting from a reachable world, letting [d] milliseconds pass
    runs exactly the timers due by then: the timers pending afterwards are
    those that were pending before with a deadline later than now.  No
    batch is left waiting past its deadline: a key whose queue is still
    non-empty afterwards has a timer that is not yet due. *)
Theorem X6_time_runs_due_timers delay d w :
  reachable delay w →
  now (advance d w) = now w + d ∧
  (∀ t tm, timers (advance d w) !! t = Some tm ↔
           timers w !! t = Some tm ∧ now w + d < t_deadline tm) ∧
  (∀ k dbi, debounceInfo (advance d w) !! k = Some dbi →
     queuedObservers dbi ≠ [] →
     ∃ t tm, timeout dbi = Some t ∧ timers w !! t = Some tm ∧ t_key tm = k ∧
             now w + d < t_deadline tm).
Proof.
  intros Hr. apply reachable_Coherent in Hr. split_and!.
  - apply advance_now.
  - intros t tm. by apply advance_timers.
  - intros k dbi Hdbi Hq. pose proof (advance_Coherent d w Hr) as HC.
    destruct (co_armed _ HC _ _ Hdbi Hq) as (t & Hto & [tm Ht]).
    pose proof (co_own _ HC _ _ _ _ Hdbi Hto Ht) as Hk.
    apply advance_timers in Ht as [Ht Hlt]; [|done]. eauto 10.
Qed.

Lemma X6_time_runs_due_timers_witness :
  now (advance 501 oneQueued) = 501 ∧
  ∀ t tm, timers (advance 501 oneQueued) !! t = Some tm ↔
          timers oneQueued !! t = Some tm ∧ 0 + 501 < t_deadline tm.
Proof.
  destruct (X6_time_runs_due_timers DEBOUNCE_TIMEOUT 501 oneQueued oneQueued_reachable)
    as (H1 & H2 & _).
  split; [exact H1|exact H2].
Defined.

(** ** X7: a handle that addresses nobody *)

Lemma filter_ne_notin (o : Observer) (l : list Observer) :
  o ∉ l → filter (λ obs, obs ≠ o) l = l.
Proof.
  induction l as [|x l IH]; [done|].
  intros [Hne Hl]%not_elem_of_cons.
  rewrite filter_cons_True by congruence. by rewrite IH.
Qed.

(** [cleanup] for the live generation of a record that is busy and whose
    timer is not pending changes nothing. *)
Lemma cleanup_current_noop k w dbi :
  Coherent w → debounceInfo w !! k = Some dbi → queuedObservers dbi = [] →
  cleanup k (currentGroupId dbi) w = w.
Proof.
  intros HC Hdbi Hq.
  pose proof (current_not_running _ _ _ (inv_running _ (co_inv _ HC)) Hdbi) as Hdel.
  assert (idleAfter (currentGroupId dbi) dbi = false) as Hidle.
  { apply not_true_is_false. intros [_ Hrun]%idleAfter_true.
    rewrite Hdel in Hrun. destruct (inv_busy _ (co_inv _ HC) _ _ Hdbi); done. }
  destruct (cleanup_rest k (currentGroupId dbi) w) as (? & ? & ? & ? & ? & ? & ?).
  apply World_eq; try done.
  - rewrite (cleanup_info _ _ _ _ Hdbi), Hidle, Hdel, with_running_same.
    by apply insert_id.
  - rewrite (cleanup_timers _ _ _ _ Hdbi). rewrite decide_True by done.
    destruct (timeout dbi) as [t|] eqn:Hto; [|done]. simpl.
    apply delete_id. apply eq_None_not_Some. intros [tm Htm].
    pose proof (co_own _ HC _ _ _ _ Hdbi Hto Htm) as Hk.
    destruct (inv_timers _ (co_inv _ HC) _ _ Htm) as (dbi' & Hdbi' & Hq' & _).
    rewrite Hk, Hdbi in Hdbi'. injection Hdbi' as <-. done.
Qed.

(** X7. In a reachable world, unsubscribing with a handle whose observer
    is not registered in the batch the handle addresses (a handle used
    again after it has done its work, or a handle that outlived its
    record while the key started over from generation 0 with other
    observers) changes nothing at all: no queue, no timer, no call. *)
Theorem X7_foreign_cancel_changes_nothing delay k g o w :
  reachable delay w →
  ¬ registered k g o w →
  unsubscribe k g o w = w.
Proof.
  intros Hr Hnot. apply reachable_Coherent in Hr.
  destruct (debounceInfo w !! k) as [dbi|] eqn:Hdbi;
    [|by apply unsubscribe_absent].
  destruct (decide (g = currentGroupId dbi)) as [->|Hne].
  - assert (o ∉ queuedObservers dbi) as Ho.
    { intros Ho. apply Hnot. exists dbi. split; [done|]. by rewrite decide_True. }
    rewrite (unsubscribe_current _ _ _ _ Hdbi). cbv zeta.
    rewrite filter_ne_notin by done. rewrite with_queued_same.
    rewrite set_debounceInfo_insert_id by done.
    destruct (length (queuedObservers dbi) =? 0) eqn:Hq; [|done].
    apply eqb_length_nil in Hq. by apply cleanup_current_noop.
  - destruct (runningSubscriptions dbi !! g) as [og|] eqn:Hog;
      [|by apply (unsubscribe_stale _ _ _ _ _ Hdbi Hne Hog)].
    assert (o ∉ observers og) as Ho.
    { intros Ho. apply Hnot. exists dbi. split; [done|].
      rewrite decide_False by done. eauto. }
    rewrite (unsubscribe_running _ _ _ _ _ _ Hdbi Hne Hog). cbv zeta.
    rewrite filter_ne_notin by done.
    destruct (co_live _ Hr _ _ _ _ Hdbi Hog) as (_ & Hobs & _).
    apply eqb_length_cons in Hobs. rewrite Hobs.
    apply set_debounceInfo_insert_id. rewrite Hdbi. f_equal.
    assert ({| observers := observers og; subscription := subscription og |} = og)
      as -> by (by destruct og).
    rewrite insert_id by done. by rewrite with_running_same.
Qed.

Lemma X7_foreign_cancel_changes_nothing_witness :
  unsubscribe "key1" 0 (observerN 9) twoRunning = twoRunning.
Proof.
  apply (X7_foreign_cancel_changes_nothing DEBOUNCE_TIMEOUT _ _ _ _ twoRunning_reachable).
  intros (dbi & Hdbi & H).
  change (debounceInfo twoRunning !! "key1") with
    (Some {| timeout := Some 2;
             runningSubscriptions :=
               {[ 0 := {| observers := [observerN 1; observerN 2]; subscription := 0 |} ]};
             queuedObservers := []; currentGroupId := 1;
             lastRequest := Some (keyedOp 2 "key1", 0) |}) in Hdbi.
  injection Hdbi as <-. simpl in H. destruct H as (og & Hog & Ho).
  apply lookup_singleton_Some in Hog as [_ <-]. simpl in Ho.
  apply elem_of_cons in Ho as [Ho|Ho]; [discriminate|].
  apply elem_of_cons in Ho as [Ho|Ho]; [discriminate|].
  by apply elem_of_nil in Ho.
Defined.

(** ** X8: downstream events leave the accumulating batch alone *)

(** X8. In a reachable world, whatever a downstream call emits (data, an
    error, completion, for whichever generation), the host's timers, every
    key's queue and the log of calls stay as they are: the end of an older
    generation never cancels or delays the flush of the batch that is
    accumulating. *)
Theorem X8_events_leave_batch_alone delay sub ev w :
  reachable delay w →
  timers (emit sub ev w) = timers w ∧
  calls (emit sub ev w) = calls w ∧
  (∀ k, queuedObservers (recordOf k (emit sub ev w)) =
        queuedObservers (recordOf k w)).
Proof.
  intros Hr. apply reachable_Coherent in Hr. unfold emit.
  destruct (calls w !! sub) as [[cop cfwd [h|]]|] eqn:Hc; try done.
  case_decide as Hlive; [done|].
  destruct (co_tracked _ Hr _ _ _ Hc eq_refl Hlive) as (dbi & og & Hdbi & Hog & _).
  simpl in Hdbi, Hog.
  destruct (inv_running _ (co_inv _ Hr) _ _ _ _ Hdbi Hog) as [Hbelow _].
  set (w2 := set_closed (λ s, {[sub]} ∪ s)
               (set_delivered (λ l, l ++ fanOut (h_observers h) ev) w)).
  assert (timers (cleanup (h_key h) (h_group h) w2) = timers w ∧
          calls (cleanup (h_key h) (h_group h) w2) = calls w ∧
          ∀ k, queuedObservers (recordOf k (cleanup (h_key h) (h_group h) w2)) =
               queuedObservers (recordOf k w)) as Hterminal.
  { assert (debounceInfo w2 !! h_key h = Some dbi) as Hdbi2 by done.
    split_and!.
    - rewrite (cleanup_timers _ _ _ _ Hdbi2). rewrite decide_False by lia. done.
    - by destruct (cleanup_rest (h_key h) (h_group h) w2) as (_ & _ & _ & -> & _).
    - intros k. unfold recordOf. destruct (decide (k = h_key h)) as [->|Hne].
      + rewrite (cleanup_same _ _ _ _ Hdbi2), Hdbi.
        destruct (idleAfter (h_group h) dbi) eqn:Hidle; [|done].
        apply idleAfter_true in Hidle as [Hq _]. simpl. by rewrite Hq.
      + by rewrite cleanup_other. }
  destruct ev; [done|exact Hterminal|exact Hterminal].
Qed.

Lemma X8_events_leave_batch_alone_witness :
  timers (emit 0 EvComplete twoRunning) = timers twoRunning.
Proof.
  exact (proj1 (X8_events_leave_batch_alone DEBOUNCE_TIMEOUT 0 EvComplete twoRunning
                  twoRunning_reachable)).
Defined.

(** ** X9: a request that is withdrawn at once still counts *)

(** X9. A key has a non-empty queue, and an observer that is not in it
    subscribes and unsubscribes again at once.  The queue, the running
    generations and the generation counter are as before and no call was
    made, but the request has left its mark: the key's timer was replaced
    by a new one, due after the delay of the withdrawn request, and the
    record's last request is the withdrawn one.  When that timer fires, it
    is the withdrawn request that is forwarded, to the observers that
    stayed. *)
Theorem X9_withdrawn_request_still_counts k override operation forward o w dbi :
  debounceInfo w !! k = Some dbi →
  queuedObservers dbi ≠ [] →
  o ∉ queuedObservers dbi →
  ∃ h w1, subscribe k override operation forward o w = Normal (h, w1) ∧
  let w' := cancel h w1 in
  debounceInfo w' !! k =
    Some {| timeout := Some (nextTimer w);
            runningSubscriptions := runningSubscriptions dbi;
            queuedObservers := queuedObservers dbi;
            currentGroupId := currentGroupId dbi;
            lastRequest := Some (operation, forward) |} ∧
  timers w' =
    <[nextTimer w := {| t_key := k; t_deadline := now w + effectiveDelay override w |}]>
      (timers (clearTimeout (timeout dbi) w)) ∧
  calls w' = calls w ∧
  calls (fire (nextTimer w) w') = calls w ++
    [{| c_operation := operation; c_forward := forward;
        c_handlers := Some {| h_key := k; h_group := currentGroupId dbi;
                              h_observers := queuedObservers dbi |} |}].
Proof.
  intros Hdbi Hq Ho. unfold subscribe.
  rewrite enqueueRequest_eq by (intros [_ Hn]; congruence).
  eexists _, _. split; [reflexivity|]. cbv zeta. unfold cancel. simpl.
  assert (recordOf k w = dbi) as Hrec by (unfold recordOf; by rewrite Hdbi).
  rewrite Hrec.
  set (w1 := enqueued k override operation forward o w).
  set (dbi1 := {| timeout := Some (nextTimer w);
                  runningSubscriptions := runningSubscriptions dbi;
                  queuedObservers := queuedObservers dbi ++ [o];
                  currentGroupId := currentGroupId dbi;
                  lastRequest := Some (operation, forward) |}).
  assert (debounceInfo w1 !! k = Some dbi1) as Hw1.
  { unfold w1, enqueued. simpl. rewrite lookup_insert_eq, Hrec. done. }
  assert (unsubscribe k (currentGroupId dbi) o w1 =
          set_debounceInfo (insert k (with_queued (queuedObservers dbi) dbi1)) w1) as ->.
  { change (currentGroupId dbi) with (currentGroupId dbi1).
    rewrite (unsubscribe_current _ _ _ _ Hw1). cbv zeta. simpl queuedObservers.
    assert (filter (λ obs, obs ≠ o) (queuedObservers dbi ++ [o]) = queuedObservers dbi)
      as ->.
    { rewrite filter_app, filter_ne_notin by done.
      rewrite filter_cons_False by (intros ?; done). by rewrite app_nil_r. }
    apply eqb_length_cons in Hq. by rewrite Hq. }
  set (w2 := set_debounceInfo (insert k (with_queued (queuedObservers dbi) dbi1)) w1).
  assert (debounceInfo w2 !! k = Some (with_queued (queuedObservers dbi) dbi1)) as Hw2.
  { unfold w2. simpl. by rewrite lookup_insert_eq. }
  split_and!.
  - exact Hw2.
  - unfold w2, w1, enqueued. simpl. by rewrite Hrec.
  - done.
  - unfold fire. assert (timers w2 !! nextTimer w = Some
      {| t_key := k; t_deadline := now w + effectiveDelay override w |}) as ->.
    { unfold w2, w1, enqueued. simpl. by rewrite lookup_insert_eq. }
    simpl t_key.
    rewrite (flush_go k _ (with_queued (queuedObservers dbi) dbi1) operation forward);
      [done|exact Hw2|done|done].
Qed.

Lemma X9_withdrawn_request_still_counts_witness :
  ∃ h w1,
    subscribe "key1" None (keyedOp 2 "key1") 0 (observerN 2) oneQueued = Normal (h, w1) ∧
    calls (fire 2 (cancel h w1)) =
      [{| c_operation := keyedOp 2 "key1"; c_forward := 0;
          c_handlers := Some {| h_key := "key1"; h_group := 0;
                                h_observers := [observerN 1] |} |}].
Proof.
  pose proof (X9_withdrawn_request_still_counts "key1" None (keyedOp 2 "key1") 0
    (observerN 2) oneQueued
    {| timeout := Some 1; runningSubscriptions := ∅;
       queuedObservers := [observerN 1]; currentGroupId := 0;
       lastRequest := Some (keyedOp 1 "key1", 0) |}) as H.
  destruct H as (h & w1 & Hs & H).
  - reflexivity.
  - discriminate.
  - intros Ho. apply elem_of_cons in Ho as [Ho|Ho]; [discriminate|].
    by apply elem_of_nil in Ho.
  - exists h, w1. split; [exact Hs|]. cbv zeta in H. exact (proj2 (proj2 (proj2 H))).
Defined.

(** ** X10: [cleanup] twice *)

(** X10. Running [cleanup] a second time for the same key and generation
    changes nothing, whatever the world; and for a key without a record
    [cleanup] changes nothing in the first place ("this can happen if
    cleanup already got called from somewhere else"). *)
Theorem X10_cleanup_idempotent k g w :
  cleanup k g (cleanup k g w) = cleanup k g w ∧
  (debounceInfo w !! k = None → cleanup k g w = w).
Proof. split; [apply cleanup_twice|apply cleanup_absent]. Qed.

Lemma X10_cleanup_idempotent_witness :
  cleanup "key1" 0 (cleanup "key1" 0 twoRunning) = cleanup "key1" 0 twoRunning ∧
  cleanup "key2" 0 twoRunning = twoRunning.
Proof.
  split.
  - exact (proj1 (X10_cleanup_idempotent "key1" 0 twoRunning)).
  - apply (proj2 (X10_cleanup_idempotent "key2" 0 twoRunning)). reflexivity.
Defined.

(** ** X11: [flush] twice *)

(** X11. If [flush] completes normally, running it again for the same
    key at once changes nothing: the queue guard stops it, so one batch is
    never forwarded twice. *)
Theorem X11_flush_twice k w w' :
  flush k w = Normal w' → flush k w' = Normal w'.
Proof.
  intros Hf.
  destruct (flush_cases k w)
    as [[Ht _]|[[Hn _]|(dbi & op & fwd & Hdbi & Hq & Hl & Hgo)]].
  - congruence.
  - congruence.
  - rewrite Hgo in Hf. injection Hf as <-.
    eapply flush_empty; [unfold flushed; simpl; by rewrite lookup_insert_eq|done].
Qed.

Lemma X11_flush_twice_witness :
  flush "key1" twoRunning = Normal twoRunning.
Proof.
  apply (X11_flush_twice "key1"
           (set_timers (delete 2) (execute (keyedOp 2 "key1") 0 (observerN 2) oneQueued))).
  vm_compute. reflexivity.
Defined.

(** ** X12: a handle stays good when its batch is flushed *)

(** X12. (1) Whatever the world: unless the lookup of the key falls
    through to an inherited member, [subscribe] returns a handle; the
    handle carries the key, the observer and the generation that is
    accumulating (0 for a key that had no record: the first subscriber of a
    batch included), and the observer is registered in the batch the handle
    addresses.  If the lookup does fall through, [subscribe] throws and
    there is no handle.  (2) In a reachable world, when the timer of a key
    fires, every observer that was queued is registered, under the
    generation its handle carries, in the generation that starts running:
    a handle issued before the flush finds its observer after it. *)
Theorem X12_handle_survives_flush :
  (∀ k override operation forward o w,
     (¬ findsInherited k w →
      ∃ h w1, subscribe k override operation forward o w = Normal (h, w1) ∧
        h = {| td_key := k; td_group := currentGroupId (recordOf k w);
               td_observer := o |} ∧
        currentGroupId (recordOf k w1) = td_group h ∧
        registered (td_key h) (td_group h) (td_observer h) w1) ∧
     (findsInherited k w →
      subscribe k override operation forward o w = Throw TypeError)) ∧
  (∀ delay t tm o w dbi,
     reachable delay w →
     timers w !! t = Some tm →
     debounceInfo w !! t_key tm = Some dbi →
     o ∈ queuedObservers dbi →
     registered (t_key tm) (currentGroupId dbi) o w ∧
     registered (t_key tm) (currentGroupId dbi) o (fire t w)).
Proof.
  split.
  - intros k override operation forward o w. unfold subscribe. split.
    + intros Hown. rewrite enqueueRequest_eq by done.
      eexists _, _. split; [reflexivity|]. split; [done|].
      unfold registered, recordOf at 1, enqueued. simpl.
      rewrite lookup_insert_eq. simpl. split; [done|].
      eexists. split; [done|]. simpl.
      rewrite decide_True by done. apply elem_of_app. right. by left.
    + intros Hin. by rewrite enqueueRequest_throws.
  - intros delay t tm o w dbi Hr Ht Hdbi Ho. apply reachable_Coherent in Hr. split.
    + exists dbi. split; [done|]. by rewrite decide_True.
    + destruct (inv_timers _ (co_inv _ Hr) _ _ Ht) as (dbi' & Hdbi' & Hq & _).
      rewrite Hdbi in Hdbi'. injection Hdbi' as <-.
      destruct (co_request _ Hr _ _ Hdbi Hq) as [[op fwd] Hl].
      unfold fire. rewrite Ht. rewrite (flush_go _ _ dbi op fwd); [|done..].
      unfold flushed. eexists. split; [simpl; by rewrite lookup_insert_eq|].
      simpl. rewrite decide_False by lia.
      eexists. split; [by rewrite lookup_insert_eq|done].
Qed.

(** The first subscriber of ["key1"] gets a handle for generation 0, and
    is found under it after the flush. *)
Lemma X12_handle_survives_flush_witness :
  (∃ h w1, subscribe "key1" None (keyedOp 1 "key1") 0 (observerN 1)
             (init DEBOUNCE_TIMEOUT) = Normal (h, w1) ∧
           td_group h = 0 ∧ registered "key1" 0 (observerN 1) w1) ∧
  registered "key1" 0 (observerN 1) (fire 1 oneQueued).
Proof.
  destruct X12_handle_survives_flush as [H1 H2]. split.
  - destruct (proj1 (H1 "key1" None (keyedOp 1 "key1") 0 (observerN 1)
                       (init DEBOUNCE_TIMEOUT)))
      as (h & w1 & Hs & -> & _ & Hreg).
    { intros [Hin _]. by apply key1_own. }
    eexists _, w1. split; [exact Hs|]. split; [reflexivity|exact Hreg].
  - destruct (H2 DEBOUNCE_TIMEOUT 1
           {| t_key := "key1"; t_deadline := 500 |} (observerN 1) oneQueued
           {| timeout := Some 1; runningSubscriptions := ∅;
              queuedObservers := [observerN 1]; currentGroupId := 0;
              lastRequest := Some (keyedOp 1 "key1", 0) |}
           oneQueued_reachable) as (_ & H);
      [vm_compute; reflexivity|vm_compute; reflexivity|by left|].
    exact H.
Defined.

(** ** X13: what an unsubscription leaves of the observer *)

Lemma cleanup_not_registered k g o w :
  (∀ dbi, debounceInfo w !! k = Some dbi →
     (g = currentGroupId dbi → o ∉ queuedObservers dbi)) →
  ¬ registered k g o (cleanup k g w).
Proof.
  intros Hw (dbi' & Hdbi' & Hreg).
  destruct (cleanup_lookup _ _ _ _ _ Hdbi') as (dbi & Hdbi & [[? _]|[_ ->]]); [done|].
  simpl in Hreg. case_decide as Hg.
  - by apply (Hw _ Hdbi).
  - destruct Hreg as (og & Hog & _). by rewrite lookup_delete_eq in Hog.
Qed.

(** X13. After [unsubscribe k g o], whatever the world, [o] is not
    registered in the batch that the handle addresses: every occurrence is
    removed, also when the same observer had been queued more than once
    (the source notes that it "breaks if the same observer is used for
    multiple subscriptions"). *)
Theorem X13_unsubscribe_removes_every_registration k g o w :
  ¬ registered k g o (unsubscribe k g o w).
Proof.
  destruct (debounceInfo w !! k) as [dbi|] eqn:Hdbi.
  2:{ rewrite unsubscribe_absent by done. intros (d & Hd & _). congruence. }
  assert (∀ l : list Observer, o ∉ filter (λ obs, obs ≠ o) l) as Hfilter.
  { intros l [Hne _]%list_elem_of_filter. done. }
  destruct (decide (g = currentGroupId dbi)) as [->|Hne].
  - rewrite (unsubscribe_current _ _ _ _ Hdbi). cbv zeta.
    destruct (length _ =? 0).
    + apply cleanup_not_registered. intros d. simpl. rewrite lookup_insert_eq.
      intros [= <-] _. simpl. apply Hfilter.
    + intros (d & Hd & Hreg). simpl in Hd. rewrite lookup_insert_eq in Hd.
      injection Hd as <-. simpl in Hreg. rewrite decide_True in Hreg by done.
      by apply Hfilter in Hreg.
  - destruct (runningSubscriptions dbi !! g) as [og|] eqn:Hog.
    2:{ rewrite (unsubscribe_stale _ _ _ _ _ Hdbi Hne Hog).
        intros (d & Hd & Hreg). rewrite Hdbi in Hd. injection Hd as <-.
        rewrite decide_False in Hreg by done. destruct Hreg as (og & ? & _).
        congruence. }
    rewrite (unsubscribe_running _ _ _ _ _ _ Hdbi Hne Hog). cbv zeta.
    destruct (length _ =? 0).
    + apply cleanup_not_registered. intros d. simpl. rewrite lookup_insert_eq.
      intros [= <-]. simpl. done.
    + intros (d & Hd & Hreg). simpl in Hd. rewrite lookup_insert_eq in Hd.
      injection Hd as <-. simpl in Hreg. rewrite decide_False in Hreg by done.
      destruct Hreg as (og' & Hog' & Ho). rewrite lookup_insert_eq in Hog'.
      injection Hog' as <-. simpl in Ho. by apply Hfilter in Ho.
Qed.

(** ** X14: [mergeObservables] *)

Lemma merge_run_others n st l :
  filter (λ ev, ¬ isComplete ev) (forwarded (foldl (mergeHandler n) st l)) =
  filter (λ ev, ¬ isComplete ev) (forwarded st) ++ filter (λ ev, ¬ isComplete ev) l.
Proof.
  revert st. induction l as [|ev l IH]; intros st; cbn -[Nat.eqb].
  { by rewrite app_nil_r. }
  rewrite IH. destruct ev as [v|e|]; cbn -[Nat.eqb].
  - rewrite filter_app, <- app_assoc. f_equal.
  - rewrite filter_app, <- app_assoc. f_equal.
  - rewrite filter_app, <- app_assoc. f_equal.
    rewrite decide_False by (intros H; by apply H).
    destruct (S (completedObservables st) =? n); [|done].
    cbn. by rewrite decide_False by (intros H; by apply H).
Qed.

Lemma mergeHandler_count n st ev :
  length (filter isComplete (forwarded (mergeHandler n st ev))) =
    length (filter isComplete (forwarded st)) +
    (if decide (ev = EvComplete ∧ S (completedObservables st) = n) then 1 else 0) ∧
  completedObservables (mergeHandler n st ev) =
    completedObservables st + (if decide (ev = EvComplete) then 1 else 0).
Proof.
  destruct ev as [v|e|]; unfold mergeHandler; cbn [forwarded completedObservables].
  - rewrite filter_app, length_app, filter_cons_False, filter_nil by done.
    rewrite (decide_False (P := _ ∧ _)) by (intros []; done).
    rewrite decide_False by done. split; simpl; lia.
  - rewrite filter_app, length_app, filter_cons_False, filter_nil by done.
    rewrite (decide_False (P := _ ∧ _)) by (intros []; done).
    rewrite decide_False by done. split; simpl; lia.
  - rewrite filter_app, length_app.
    rewrite (decide_True (P := EvComplete = EvComplete)) by done.
    destruct (S (completedObservables st) =? n) eqn:Hn.
    + apply Nat.eqb_eq in Hn. rewrite filter_cons_True, filter_nil by done.
      rewrite decide_True by done. split; simpl; lia.
    + apply Nat.eqb_neq in Hn. rewrite filter_nil.
      rewrite decide_False by (intros []; done). split; simpl; lia.
Qed.

Lemma merge_run_count n st l :
  length (filter isComplete (forwarded (foldl (mergeHandler n) st l))) =
  length (filter isComplete (forwarded st)) +
  (if decide (completedObservables st < n ≤
              completedObservables st + length (filter isComplete l))
   then 1 else 0).
Proof.
  revert st. induction l as [|ev l IH]; intros st; cbn [foldl].
  { rewrite filter_nil. rewrite decide_False by (simpl; lia). lia. }
  rewrite IH. destruct (mergeHandler_count n st ev) as [-> ->].
  destruct (decide (ev = EvComplete)) as [Hev|Hev].
  - rewrite (filter_cons_True isComplete) by done. simpl length.
    repeat case_decide; intuition lia.
  - rewrite (filter_cons_False isComplete) by done.
    repeat case_decide; intuition lia.
Qed.

(** X14. The observer of [mergeObservables(o1, ..., on)] is called with
    every [next] and [error] that arrives from the merged observables, in
    the order of arrival, and with [complete] once, when the [n]-th
    completion arrives: not before all [n] have completed, and never if
    there is nothing to merge ([n = 0]). *)
Theorem X14_merge_completes_after_all n arrivals :
  filter (λ ev, ¬ isComplete ev) (mergeObservables n arrivals) =
    filter (λ ev, ¬ isComplete ev) arrivals ∧
  length (filter isComplete (mergeObservables n arrivals)) =
    (if decide (1 ≤ n ≤ length (filter isComplete arrivals)) then 1 else 0) ∧
  (∀ more, mergeObservables n arrivals `prefix_of` mergeObservables n (arrivals ++ more)).
Proof.
  unfold mergeObservables. split_and!.
  - by rewrite merge_run_others.
  - rewrite merge_run_count. simpl. repeat case_decide; lia.
  - intros more. rewrite foldl_app.
    generalize (foldl (mergeHandler n)
                  {| completedObservables := 0; forwarded := [] |} arrivals).
    induction more as [|ev more IH]; intros st; [done|]. simpl.
    etrans; [|apply IH]. destruct ev; simpl; by apply prefix_app_r.
Qed.

(** ** X15: every request is served at most once *)

Lemma served_app k w c :
  served k (set_calls (λ l, l ++ [c]) w) =
    served k w + (if decide (isCallOf k c) then snapshotSize c else 0).
Proof.
  unfold served. rewrite callsOf_app, fmap_app, sum_list_with_app.
  case_decide; simpl; lia.
Qed.

Lemma cleanup_recordOf_queue k0 g w k :
  queuedObservers (recordOf k (cleanup k0 g w)) = queuedObservers (recordOf k w).
Proof.
  unfold recordOf. destruct (decide (k = k0)) as [->|Hne].
  - destruct (debounceInfo w !! k0) as [dbi|] eqn:Hdbi.
    + rewrite (cleanup_same _ _ _ _ Hdbi).
      destruct (idleAfter g dbi) eqn:Hidle; [|done].
      apply idleAfter_true in Hidle as [Hq _]. simpl. by rewrite Hq.
    + by rewrite cleanup_absent, Hdbi.
  - by rewrite cleanup_other.
Qed.

Lemma unsubscribe_recordOf_queue k0 g o w k :
  length (queuedObservers (recordOf k (unsubscribe k0 g o w))) ≤
  length (queuedObservers (recordOf k w)).
Proof.
  unfold unsubscribe. destruct (debounceInfo w !! k0) as [dbi|] eqn:Hdbi; [|done].
  assert (∀ d, length (queuedObservers d) ≤ length (queuedObservers dbi) →
            length (queuedObservers (recordOf k (set_debounceInfo (insert k0 d) w))) ≤
            length (queuedObservers (recordOf k w))) as Hins.
  { intros d Hd. unfold recordOf. simpl. rewrite lookup_insert. case_decide as Hk; [|done].
    subst k0. by rewrite Hdbi. }
  case_decide.
  - assert (length (queuedObservers (with_queued
              (filter (λ obs, obs ≠ o) (queuedObservers dbi)) dbi)) ≤
            length (queuedObservers dbi)) as Hlen by apply length_filter.
    case_match; [rewrite cleanup_recordOf_queue|]; by apply Hins.
  - destruct (runningSubscriptions dbi !! g) as [og|]; [|done].
    case_match; [rewrite cleanup_recordOf_queue|];
      by apply (Hins (with_running _ dbi)).
Qed.

(** One event: the observers served for [k] plus those queued for [k]
    grow by one if the event is a request for [k], and otherwise do not
    grow; they shrink only by an unsubscription. *)
Lemma step_served k a w :
  ¬ inherited k →
  served k (step a w) + length (queuedObservers (recordOf k (step a w))) ≤
    served k w + length (queuedObservers (recordOf k w)) +
    (if decide (requestFor k a) then 1 else 0) ∧
  (¬ isCancel a →
   served k (step a w) + length (queuedObservers (recordOf k (step a w))) =
     served k w + length (queuedObservers (recordOf k w)) +
     (if decide (requestFor k a) then 1 else 0)).
Proof.
  intros Hown.
  assert (∀ x y : nat, x = y → x ≤ y ∧ (¬ isCancel a → x = y)) as Heq.
  { intros x y ->. done. }
  destruct a as [op fwd o|t| |sub ev|[k0 g o]]; simpl step.
  - apply Heq. unfold execute, request, subscribe.
    assert (∀ c, c_handlers c = None →
      served k (set_calls (λ l, l ++ [c]) w) +
      length (queuedObservers (recordOf k (set_calls (λ l, l ++ [c]) w))) =
      served k w + length (queuedObservers (recordOf k w)) + 0) as Hpass.
    { intros c Hc. rewrite served_app. rewrite decide_False.
      - unfold recordOf. simpl. lia.
      - unfold isCallOf. by rewrite Hc. }
    destruct (debounceKey op) as [key|] eqn:Hkey.
    2:{ rewrite decide_False by (simpl; rewrite Hkey; by intros [? _]). by apply Hpass. }
    destruct (noKey (Some key)) eqn:Hno.
    { rewrite decide_False; [by apply Hpass|]. simpl. rewrite Hkey. intros [[= ->] Hne].
      simpl in Hno. by apply bool_decide_eq_true in Hno. }
    destruct (decide (findsInherited key w)) as [Hfi|Hfound].
    { rewrite enqueueRequest_throws by done. destruct Hfi as [Hin _].
      rewrite decide_False; [lia|]. simpl. rewrite Hkey. by intros [[= ->] _]. }
    rewrite enqueueRequest_eq by done.
    change (served k (enqueued key (debounceTimeout op) op fwd o w)) with (served k w).
    unfold recordOf at 1. unfold enqueued. simpl debounceInfo.
    rewrite lookup_insert. destruct (decide (key = k)) as [->|Hne].
    + rewrite decide_True.
      * simpl. rewrite length_app. simpl. lia.
      * simpl. split; [done|]. intros ->. by vm_compute in Hno.
    + rewrite decide_False by (simpl; rewrite Hkey; intros [[= ?] _]; done).
      fold (recordOf k w). lia.
  - apply Heq. rewrite decide_False by (simpl; tauto). unfold fire.
    destruct (timers w !! t) as [tm|]; [|lia].
    destruct (flush_cases (t_key tm) (set_timers (delete t) w))
      as [[-> _]|[[-> _]|(dbi & op & fwd & Hdbi & _ & _ & ->)]];
      try (change (served k (set_timers ?f w)) with (served k w);
           change (recordOf k (set_timers ?f w)) with (recordOf k w); lia).
    unfold flushed.
    change (served k (set_debounceInfo ?f (set_calls ?h (set_timers ?d w))))
      with (served k (set_calls h w)).
    rewrite served_app. unfold recordOf at 1. simpl debounceInfo.
    rewrite lookup_insert. simpl in Hdbi.
    destruct (decide (t_key tm = k)) as [<-|Hne].
    + rewrite decide_True by done. unfold recordOf, snapshotSize. rewrite Hdbi.
      simpl. lia.
    + rewrite decide_False by (unfold isCallOf; simpl; congruence).
      fold (recordOf k w). lia.
  - apply Heq. rewrite decide_False by (simpl; tauto). simpl. done.
  - apply Heq. rewrite decide_False by (simpl; tauto). unfold emit.
    destruct (calls w !! sub) as [[cop cfwd [h|]]|]; try lia.
    case_decide; [lia|].
    destruct ev; [done| |];
      match goal with |- context [cleanup ?a ?b ?x] =>
        assert (served k (cleanup a b x) = served k w) as ->
          by (unfold served, callsOf;
              destruct (cleanup_rest a b x) as (_ & _ & _ & -> & _); done);
        assert (queuedObservers (recordOf k (cleanup a b x)) =
                queuedObservers (recordOf k w)) as ->
          by (by rewrite cleanup_recordOf_queue)
      end; lia.
  - split; [|by intros []]. rewrite decide_False by (simpl; tauto). unfold cancel. simpl.
    pose proof (unsubscribe_recordOf_queue k0 g o w k) as Hq.
    unfold served, callsOf.
    destruct (unsubscribe_rest k0 g o w) as (_ & _ & _ & -> & _). lia.
Qed.

(** X15. Over any sequence of events, from any world, for a key [k]
    that is not the name of an inherited member: the number of observers
    for whom calls were made for [k], plus the number queued for [k], grows
    by at most the number of requests made for [k]: calls are never made
    for more observers than subscribed.  If nobody unsubscribed, it grows
    by exactly that number: every request is either still queued or was
    served by exactly one call. *)
Theorem X15_requests_served_at_most_once k actions w :
  ¬ inherited k →
  served k (run actions w) + length (queuedObservers (recordOf k (run actions w))) ≤
    served k w + length (queuedObservers (recordOf k w)) +
    length (filter (requestFor k) actions) ∧
  (Forall (λ a, ¬ isCancel a) actions →
   served k (run actions w) + length (queuedObservers (recordOf k (run actions w))) =
     served k w + length (queuedObservers (recordOf k w)) +
     length (filter (requestFor k) actions)).
Proof.
  intros Hown. revert w. induction actions as [|a actions IH]; intros w.
  { simpl. split; [lia|intros _; lia]. }
  change (run (a :: actions) w) with (run actions (step a w)).
  destruct (IH (step a w)) as [IHle IHeq].
  destruct (step_served k a w Hown) as [Hle Heq].
  assert (length (filter (requestFor k) (a :: actions)) =
          (if decide (requestFor k a) then 1 else 0) +
          length (filter (requestFor k) actions)) as ->.
  { rewrite filter_cons. by case_decide. }
  split; [lia|].
  intros [Ha Hall]%Forall_cons. rewrite (IHeq Hall), (Heq Ha). lia.
Qed.

Lemma X15_requests_served_at_most_once_witness :
  let actions := [Execute (keyedOp 1 "key1") 0 (observerN 1);
                  Execute (keyedOp 2 "key1") 0 (observerN 2); Fire 2] in
  served "key1" (run actions (init DEBOUNCE_TIMEOUT)) +
  length (queuedObservers (recordOf "key1" (run actions (init DEBOUNCE_TIMEOUT)))) =
  0 + 0 + 2.
Proof.
  intros actions.
  apply (proj2 (X15_requests_served_at_most_once "key1" actions (init DEBOUNCE_TIMEOUT)
                  key1_own)).
  repeat constructor; simpl; tauto.
Defined.

(** * Keys that are names of inherited members *)

Lemma cleanup_only_removes k g w k' :
  is_Some (debounceInfo (cleanup k g w) !! k') → is_Some (debounceInfo w !! k').
Proof.
  intros [dbi' Hk']. destruct (cleanup_lookup _ _ _ _ _ Hk') as (dbi & Hdbi & _). eauto.
Qed.

Lemma unsubscribe_only_removes k0 g o w k :
  is_Some (debounceInfo (unsubscribe k0 g o w) !! k) → is_Some (debounceInfo w !! k).
Proof.
  unfold unsubscribe. destruct (debounceInfo w !! k0) as [dbi0|] eqn:Hdbi0; [|done].
  assert (∀ d w1, debounceInfo w1 = <[k0 := d]> (debounceInfo w) →
            is_Some (debounceInfo w1 !! k) → is_Some (debounceInfo w !! k)) as Hins.
  { intros d w1 ->. rewrite lookup_insert. case_decide; [subst; eauto|done]. }
  case_decide.
  - case_match; [intros H'%cleanup_only_removes|intros H'];
      (eapply Hins; cycle 1; [exact H'|reflexivity]).
  - destruct (runningSubscriptions dbi0 !! g) as [og|]; [|done].
    case_match; [intros H'%cleanup_only_removes|intros H'];
      (eapply Hins; cycle 1; [exact H'|reflexivity]).
Qed.

(** A record appears only where a request was accepted. *)
Lemma step_creates a w k :
  is_Some (debounceInfo (step a w) !! k) →
  is_Some (debounceInfo w !! k) ∨ ¬ inherited k.
Proof.
  destruct a as [op fwd o|t| |sub ev|[k0 g o]]; simpl.
  - destruct (noKey (debounceKey op)) eqn:Hno.
    { rewrite execute_noKey by done. by left. }
    apply noKey_false in Hno as (key & Hkey & Hne).
    rewrite (execute_keyed _ _ _ _ key) by done.
    case_decide as Hfound; [by left|]. unfold enqueued. simpl.
    rewrite lookup_insert. case_decide as Hk; [subst key|by left].
    destruct (debounceInfo w !! k) as [dbi|] eqn:Hdbi; [left; eauto|].
    intros _. right. intros Hin. by apply Hfound.
  - unfold fire. destruct (timers w !! t) as [tm|]; [|by left].
    destruct (flush_cases (t_key tm) (set_timers (delete t) w))
      as [[-> _]|[[-> _]|(dbi & op & fwd & Hdbi & _ & _ & ->)]]; try by left.
    unfold flushed. simpl. rewrite lookup_insert. case_decide as Hk; [|by left].
    subst k. simpl in Hdbi. left. eauto.
  - by left.
  - unfold emit. destruct (calls w !! sub) as [[cop cfwd [h|]]|]; try by left.
    case_decide; [by left|].
    destruct ev; [by left| |]; intros H'%cleanup_only_removes; by left.
  - unfold cancel. simpl. intros H'%unsubscribe_only_removes. by left.
Qed.

(** A call for a key is made only when a timer of that key fires on its
    record. *)
Lemma step_callsOf a w k :
  callsOf k (step a w) = callsOf k w ∨ is_Some (debounceInfo w !! k).
Proof.
  destruct a as [op fwd o|t| |sub ev|[k0 g o]]; simpl.
  - left. destruct (noKey (debounceKey op)) eqn:Hno.
    { rewrite execute_noKey by done. rewrite callsOf_app.
      rewrite decide_False by (by unfold isCallOf). by rewrite app_nil_r. }
    apply noKey_false in Hno as (key & Hkey & Hne).
    rewrite (execute_keyed _ _ _ _ key) by done. by case_decide.
  - unfold fire. destruct (timers w !! t) as [tm|]; [|by left].
    destruct (flush_cases (t_key tm) (set_timers (delete t) w))
      as [[-> _]|[[-> _]|(dbi & op & fwd & Hdbi & _ & _ & ->)]]; try by left.
    unfold flushed.
    change (callsOf k (set_debounceInfo ?f (set_calls ?h (set_timers ?d w))))
      with (callsOf k (set_calls h w)).
    rewrite callsOf_app. case_decide as Hc; [|left; by rewrite app_nil_r].
    right. unfold isCallOf in Hc. simpl in Hc, Hdbi. injection Hc as <-. eauto.
  - by left.
  - left. unfold emit. destruct (calls w !! sub) as [[cop cfwd [h|]]|]; try done.
    case_decide; [done|].
    destruct ev; [done| |];
      (unfold callsOf;
       match goal with |- context [cleanup ?a ?b ?x] =>
         by destruct (cleanup_rest a b x) as (_ & _ & _ & -> & _) end).
  - left. unfold cancel, callsOf. simpl.
    by destruct (unsubscribe_rest k0 g o w) as (_ & _ & _ & -> & _).
Qed.

Lemma reachable_ownKeysOnly delay w : reachable delay w → ownKeysOnly w.
Proof.
  intros Hr k Hin.
  assert (debounceInfo w !! k = None ∧ callsOf k w = []) as [Hnone Hcalls].
  { induction Hr as [|a w Hr [IHn IHc]]; [done|]. split.
    - destruct (debounceInfo (step a w) !! k) as [dbi|] eqn:Hs; [|done].
      destruct (step_creates a w k) as [Hk|Hk]; [by rewrite Hs| |done].
      rewrite IHn in Hk. by destruct Hk.
    - destruct (step_callsOf a w k) as [->|Hk]; [done|].
      rewrite IHn in Hk. by destruct Hk. }
  split_and!; try done.
  apply map_empty. intros t. destruct (timersOf k w !! t) as [tm|] eqn:Ht; [|done].
  apply timersOf_lookup in Ht as [Ht <-].
  destruct (inv_timers _ (reachable_Inv _ _ Hr) _ _ Ht) as (dbi & Hdbi & _).
  congruence.
Qed.

(** X17. A key that is the name of a member every object inherits
    (["constructor"], ["toString"], ["__proto__"], ...) is never debounced.
    In every reachable world nothing is filed under it, no record, no
    timer and no call; [enqueueRequest] throws for it, so that subscribing
    yields no handle; and a request with that key leaves the link and the
    host exactly as they were: it is never forwarded. *)
Theorem X17_inherited_key_is_never_served delay k w :
  reachable delay w →
  inherited k →
  (debounceInfo w !! k = None ∧ timersOf k w = ∅ ∧ callsOf k w = []) ∧
  ∀ override operation forward observer,
    enqueueRequest k override operation forward observer w = Throw TypeError ∧
    subscribe k override operation forward observer w = Throw TypeError ∧
    (debounceKey operation = Some k →
     execute operation forward observer w = w).
Proof.
  intros Hr Hin. pose proof (reachable_ownKeysOnly _ _ Hr k Hin) as Hown.
  split; [done|]. destruct Hown as (Hnone & _ & _).
  intros override operation forward observer.
  assert (findsInherited k w) as Hfound by done.
  assert (enqueueRequest k override operation forward observer w = Throw TypeError)
    as He by (by apply enqueueRequest_throws).
  split_and!; try done.
  - unfold subscribe. by rewrite He.
  - intros Hk. rewrite (execute_keyed _ _ _ _ k); [by rewrite decide_True|done|].
    intros ->. revert Hin. apply (proj1 (bool_decide_eq_false _)). vm_compute. reflexivity.
Qed.

(** After one batch of ["key1"] is running, a request with the key
    ["toString"] changes nothing. *)
Lemma X17_inherited_key_is_never_served_witness :
  execute (keyedOp 2 "toString") 0 (observerN 2) oneRunning = oneRunning.
Proof.
  destruct (X17_inherited_key_is_never_served DEBOUNCE_TIMEOUT "toString" oneRunning
              oneRunning_reachable) as [_ H].
  - apply (bool_decide_unpack (inherited "toString")). vm_compute. exact I.
  - destruct (H None (keyedOp 2 "toString") 0 (observerN 2)) as (_ & _ & H').
    apply H'. reflexivity.
Defined.
